(** * trzsz-go: the wrapper's stream bridge and the sender's entry point

    A shallow embedding of [trzsz/trzsz.go] (the [trzsz] wrapper: trigger
    detection, the two pumps, the signal handler, the configuration
    lookup) and of [trzsz/tsz.go] (the [tsz] sender: [TszMain] and
    [sendFiles]), with the properties the specification states about them.

    Go's [[]byte] and [string] are both sequences of bytes and are modelled
    by [list byte]; Go's [int] results are [Z].  Calls that leave the two
    files (the terminal, the child PTY, the transfer engine) are recorded as
    events, in program order. *)

From Stdlib Require Import String.
From Stdlib.Strings Require Import Byte.
From Stdlib Require Import List ZArith Lia Bool.
Import ListNotations.
Local Open Scope list_scope.

Set Implicit Arguments.

(** ** Bytes *)

Definition bytes := list byte.

(** A byte string written as a literal. *)
Definition bs (s : string) : bytes := list_byte_of_string s.

Fixpoint bytes_eqb (a b : bytes) : bool :=
  match a, b with
  | [], [] => true
  | x :: a', y :: b' => Byte.eqb x y && bytes_eqb a' b'
  | _, _ => false
  end.

(** Longest prefix of bytes satisfying [p], and what follows it. *)
Fixpoint takeWhile (p : byte -> bool) (s : bytes) : bytes :=
  match s with
  | x :: s' => if p x then x :: takeWhile p s' else []
  | [] => []
  end.

Fixpoint dropWhile (p : byte -> bool) (s : bytes) : bytes :=
  match s with
  | x :: s' => if p x then dropWhile p s' else s
  | [] => []
  end.

(** Does [s] start with a byte of class [p]? *)
Definition startsWith (p : byte -> bool) (s : bytes) : bool :=
  match s with
  | x :: _ => p x
  | [] => false
  end.

(** ** The parts of Go's [bytes] and [strings] packages the sources call *)

Module GoBytes.

Fixpoint HasPrefix (s prefix : bytes) {struct prefix} : bool :=
  match prefix, s with
  | [], _ => true
  | p :: prefix', x :: s' => Byte.eqb p x && HasPrefix s' prefix'
  | _ :: _, [] => false
  end.

(** Position of the first occurrence of [sep] in [s]. *)
Fixpoint index_of (s sep : bytes) {struct s} : option nat :=
  if HasPrefix s sep then Some 0
  else match s with
       | [] => None
       | _ :: s' => option_map S (index_of s' sep)
       end.

(** [bytes.Index] and [strings.Index]: the position, or -1. *)
Definition Index (s sep : bytes) : Z :=
  match index_of s sep with
  | Some i => Z.of_nat i
  | None => (-1)%Z
  end.

(** [bytes.Contains]. *)
Definition Contains (b subslice : bytes) : bool :=
  negb (Index b subslice =? -1)%Z.

(** [bytes.Replace(s, old, new, n)] for [n >= 0] and a non-empty [old]:
    the first [n] non-overlapping occurrences of [old], left to right. *)
Fixpoint Replace (s old new : bytes) (n : nat) : bytes :=
  match n with
  | 0 => s
  | S n' =>
      match index_of s old with
      | None => s
      | Some j =>
          firstn j s ++ new ++ Replace (skipn (j + length old) s) old new n'
      end
  end.

End GoBytes.

(** ** Go's [regexp], for the operators the trigger pattern uses

    Go's [regexp] returns the leftmost match and, among the matches that
    start there, the one a backtracking search finds first.  [run] is that
    backtracking search, in continuation-passing style; the only repetition
    in the pattern is [+] applied to a character class. *)

Module Regexp.

Inductive regex : Type :=
| Eps
| Lit (c : byte)
| Class (p : byte -> bool)
| Cat (r1 r2 : regex)
| Rep1 (p : byte -> bool)
| Quest (r : regex)
| Cap (i : nat) (r : regex).

(** A literal string. *)
Fixpoint lits (l : bytes) : regex :=
  match l with
  | [] => Eps
  | c :: l' => Cat (Lit c) (lits l')
  end.

(** The submatches: entry [i] is group [i], [None] while it has not taken
    part in the match (Go's nil slice). *)
Definition captures := list (option bytes).

Fixpoint set_cap (i : nat) (v : bytes) (cs : captures) : captures :=
  match i, cs with
  | 0, _ :: cs' => Some v :: cs'
  | S i', c :: cs' => c :: set_cap i' v cs'
  | _, [] => []
  end.

(** What was consumed between [s] and its suffix [rest]. *)
Definition consumed (s rest : bytes) : bytes :=
  firstn (length s - length rest) s.

Section Run.
Variable R : Type.

(** Greedy [p*]: the longest run first, then shorter ones. *)
Fixpoint star (p : byte -> bool) (s : bytes) (k : bytes -> option R)
  : option R :=
  match s with
  | x :: s' =>
      if p x then
        match star p s' k with
        | Some v => Some v
        | None => k s
        end
      else k s
  | [] => k []
  end.

Fixpoint run (r : regex) (s : bytes) (cs : captures)
             (k : bytes -> captures -> option R) : option R :=
  match r with
  | Eps => k s cs
  | Lit c =>
      match s with
      | x :: s' => if Byte.eqb c x then k s' cs else None
      | [] => None
      end
  | Class p =>
      match s with
      | x :: s' => if p x then k s' cs else None
      | [] => None
      end
  | Cat r1 r2 => run r1 s cs (fun s' cs' => run r2 s' cs' k)
  | Rep1 p =>
      match s with
      | x :: s' => if p x then star p s' (fun rest => k rest cs) else None
      | [] => None
      end
  | Quest r' =>
      match run r' s cs k with
      | Some v => Some v
      | None => k s cs
      end
  | Cap i r' =>
      run r' s cs (fun rest cs' => k rest (set_cap i (consumed s rest) cs'))
  end.
End Run.

(** Number of capture groups of a pattern. *)
Fixpoint NumSubexp (r : regex) : nat :=
  match r with
  | Cat r1 r2 => NumSubexp r1 + NumSubexp r2
  | Quest r' => NumSubexp r'
  | Cap _ r' => S (NumSubexp r')
  | _ => 0
  end.

(** A match anchored at the start of [s]: the submatches (entry 0 is the
    whole match) and the unread rest. *)
Definition match_here (r : regex) (s : bytes) : option (captures * bytes) :=
  run r s (repeat None (S (NumSubexp r)))
      (fun rest cs => Some (set_cap 0 (consumed s rest) cs, rest)).

(** The leftmost match: its start position and its submatches. *)
Fixpoint find (r : regex) (s : bytes) {struct s} : option (nat * captures) :=
  match match_here r s with
  | Some (cs, _) => Some (0, cs)
  | None =>
      match s with
      | [] => None
      | _ :: s' =>
          match find r s' with
          | Some (i, cs) => Some (S i, cs)
          | None => None
          end
      end
  end.

(** [Regexp.FindSubmatch]: nil (here the empty list) without a match. *)
Definition FindSubmatch (r : regex) (b : bytes) : captures :=
  match find r b with
  | Some (_, cs) => cs
  | None => []
  end.

(** The language of a pattern. *)
Inductive matches : regex -> bytes -> Prop :=
| MEps : matches Eps []
| MLit c : matches (Lit c) [c]
| MClass p c : p c = true -> matches (Class p) [c]
| MCat r1 r2 s1 s2 :
    matches r1 s1 -> matches r2 s2 -> matches (Cat r1 r2) (s1 ++ s2)
| MRep1_one p c : p c = true -> matches (Rep1 p) [c]
| MRep1_more p c s :
    p c = true -> matches (Rep1 p) s -> matches (Rep1 p) (c :: s)
| MQuest_none r : matches (Quest r) []
| MQuest_some r s : matches r s -> matches (Quest r) s
| MCap i r s : matches r s -> matches (Cap i r) s.


(** A match of [r] starts at the head of [s]. *)
Definition match_prefix (r : regex) (s : bytes) : Prop :=
  exists s1 s2, s = s1 ++ s2 /\ matches r s1.

End Regexp.

(** ** trzsz.go: trigger detection *)

Definition isSR (c : byte) : bool := Byte.eqb c "S" || Byte.eqb c "R".

(** [\d]: in Go's syntax the ASCII digits. *)
Definition isDigit (c : byte) : bool :=
  (48 <=? Byte.to_N c)%N && (Byte.to_N c <=? 57)%N.

Definition kMarker : bytes := bs "::TRZSZ:TRANSFER:".

(** The three-part version number, [\d+\.\d+\.\d+]. *)
Definition versionRe : Regexp.regex :=
  Regexp.Cat (Regexp.Rep1 isDigit)
    (Regexp.Cat (Regexp.Lit ".")
       (Regexp.Cat (Regexp.Rep1 isDigit)
          (Regexp.Cat (Regexp.Lit ".") (Regexp.Rep1 isDigit)))).

(** The trailing flag, [:\d+]. *)
Definition flagRe : Regexp.regex :=
  Regexp.Cat (Regexp.Lit ":") (Regexp.Rep1 isDigit).

(** [regexp.MustCompile("::TRZSZ:TRANSFER:([SR]):(\\d+\\.\\d+\\.\\d+)(:\\d+)?")] *)
Definition trzszRegexp : Regexp.regex :=
  Regexp.Cat (Regexp.lits kMarker)
    (Regexp.Cat (Regexp.Cap 1 (Regexp.Class isSR))
       (Regexp.Cat (Regexp.Lit ":")
          (Regexp.Cat (Regexp.Cap 2 versionRe)
             (Regexp.Quest (Regexp.Cap 3 flagRe))))).

(** The outcome of a Go function that may panic. *)
Inductive outcome (A : Type) : Type :=
| Done (a : A)
| Panicked.
Arguments Done {A} a.
Arguments Panicked {A}.

(** [string(b)] of a possibly nil slice. *)
Definition string_of (b : option bytes) : bytes :=
  match b with
  | Some v => v
  | None => []
  end.

(** [detectTrzsz]: the mode byte ([None] is the nil pointer) and whether the
    remote is Windows.  [&match[1][0]] panics when the index is out of
    range. *)
Definition detectTrzsz (output : bytes) : outcome (option byte * bool) :=
  if negb (GoBytes.Contains output kMarker) then Done (None, false)
  else
    let m := Regexp.FindSubmatch trzszRegexp output in
    if length m <? 2 then Done (None, false)
    else
      let remoteIsWindows :=
        (3 <? length m) && bytes_eqb (string_of (nth 3 m None)) (bs ":1") in
      match nth 1 m None with
      | Some (c :: _) => Done (Some c, remoteIsWindows)
      | _ => Panicked
      end.

(** A non-empty run of decimal digits. *)
Definition digits (d : bytes) : Prop :=
  d <> [] /\ Forall (fun c => isDigit c = true) d.

(** Does [s] start with a flag, that is with a colon and a digit? *)
Definition startsFlag (s : bytes) : bool :=
  match s with
  | c :: x :: _ => Byte.eqb ":" c && isDigit x
  | _ => false
  end.

(** The echo as the specification words it: the chunk in which the [TRZSZ]
    of the detected marker, two bytes into the leftmost match, has become
    [TRZSZGO]. *)
Definition echo_of_marker (buf : bytes) : option bytes :=
  match Regexp.find trzszRegexp buf with
  | Some (i, _) =>
      Some (firstn (i + 2) buf ++ bs "TRZSZGO" ++ skipn (i + 2 + 5) buf)
  | None => None
  end.

(** ** trzsz.go: the wrapper's globals, events and pumps *)

(** A [*TrzszTransfer]: sessions are told apart by their identity. *)
Definition transfer := nat.

(** What a [go] statement starts. *)
Inductive goroutine : Type :=
| HandleTrzsz (mode : byte) (remoteIsWindows : bool)
| UploadDragFiles.

(** The calls by which the wrapper acts on the terminal, on the child and on
    the session. *)
Inductive event : Type :=
| StdoutWrite (b : bytes)
| StdoutClose
| PtyStdinWrite (b : bytes)
| PtyStdinClose
| PtyTerminate
| AddReceivedData (t : transfer) (buf : bytes)
| StopTransferringFiles (t : transfer)
| Go (g : goroutine).

(** The package-level variables; [None] is nil. *)
Record globals : Type := {
  gDragFiles : option (list bytes);
  gDragHasDir : bool;
  gInterrupting : bool;
  gTransfer : option transfer
}.

Inductive read_error : Type := EOF | OtherError.

(** The result of one [Read]: the bytes [buffer[0:n]] and the error. *)
Record read_result : Type := {
  data : bytes;
  err : option read_error
}.

(** How one pass through a pump's loop body ends. *)
Inductive status : Type := Continue | Break | Crash.

(** [strings.TrimRight(s, cutset)] for an ASCII cutset. *)
Definition TrimRight (s cutset : bytes) : bytes :=
  rev (dropWhile (fun c => existsb (Byte.eqb c) cutset) (rev s)).

Definition kCRLF : bytes := [x0d; x0a].
Definition kQuote : bytes := [x22].

(** Bytes the events of a trace write to the local terminal. *)
Fixpoint terminal_bytes (tr : list event) : bytes :=
  match tr with
  | StdoutWrite b :: tr' => b ++ terminal_bytes tr'
  | _ :: tr' => terminal_bytes tr'
  | [] => []
  end.

(** Bytes the events of a trace write to the child's stdin. *)
Fixpoint child_bytes (tr : list event) : bytes :=
  match tr with
  | PtyStdinWrite b :: tr' => b ++ child_bytes tr'
  | _ :: tr' => child_bytes tr'
  | [] => []
  end.

(** Modelled from the spec: [addReceivedData] belongs to the transfer engine,
    which is not under src/; the spec says that the bytes "are appended to
    its receive queue" and that the queue preserves arrival order.  The
    receive queue of session [t] after a trace is what the trace handed to
    it, in order. *)
Fixpoint receive_queue (t : transfer) (tr : list event) : bytes :=
  match tr with
  | AddReceivedData t' buf :: tr' =>
      if Nat.eqb t t' then buf ++ receive_queue t tr' else receive_queue t tr'
  | _ :: tr' => receive_queue t tr'
  | [] => []
  end.

Section Wrapper.

(** Helpers of the package that are not in the two files. *)
Variable IsWindows : bool.
Variable detectDragFiles : bytes -> option (list bytes) * bool.
Variable trimVT100 : bytes -> bytes.

(** The loop body of [wrapInput] from [if err == nil && n > 0] on, for the
    bytes [buf] and the error [e] it finds there. *)
Definition wrapInput_body (dragFile : bool) (g : globals) (buf : bytes)
    (e : option read_error) : globals * list event * status :=
  match e, buf with
  | None, first :: _ =>
      match gTransfer g with
      | Some t =>
          if Byte.eqb first x03
          then (g, [StopTransferringFiles t], Continue)
          else (g, [], Continue)
      | None =>
          if dragFile then
            let '(dragFiles, hasDir) := detectDragFiles buf in
            match dragFiles with
            | Some files =>
                match gDragFiles g with
                | None =>
                    ({| gDragFiles := Some files; gDragHasDir := hasDir;
                        gInterrupting := gInterrupting g;
                        gTransfer := gTransfer g |},
                     [Go UploadDragFiles], Continue)
                | Some old =>
                    ({| gDragFiles := Some (old ++ files);
                        gDragHasDir := gDragHasDir g || hasDir;
                        gInterrupting := gInterrupting g;
                        gTransfer := gTransfer g |},
                     [], Continue)
                end
            | None =>
                let g' :=
                  match gDragFiles g with
                  | Some _ =>
                      {| gDragFiles := None; gDragHasDir := false;
                         gInterrupting := gInterrupting g;
                         gTransfer := gTransfer g |}
                  | None => g
                  end in
                (g', [PtyStdinWrite buf], Continue)
            end
          else (g, [PtyStdinWrite buf], Continue)
      end
  | _, _ => (g, [], Continue)
  end.

(** One pass through the loop of [wrapInput], on the result of
    [os.Stdin.Read].  At the end of the input Windows goes on with the one
    byte 0x1A, the other systems close the child's stdin and leave. *)
Definition wrapInput_iter (dragFile : bool) (g : globals) (r : read_result)
  : globals * list event * status :=
  match err r with
  | Some EOF =>
      if IsWindows then wrapInput_body dragFile g [x1a] None
      else (g, [PtyStdinClose], Break)
  | e => wrapInput_body dragFile g (data r) e
  end.

(** One pass through the loop of [wrapOutput], on the result of
    [pty.Stdout.Read].  The slice handed to the session is not written
    again: the pump goes on with a newly made buffer. *)
Definition wrapOutput_iter (dragFile : bool) (g : globals) (r : read_result)
  : list event * status :=
  match err r, data r with
  | Some EOF, _ => ([StdoutClose], Break)
  | None, _ :: _ =>
      let buf := data r in
      match gTransfer g with
      | Some t => ([AddReceivedData t buf], Continue)
      | None =>
          match detectTrzsz buf with
          | Panicked => ([], Crash)
          | Done (Some mode, remoteIsWindows) =>
              ([StdoutWrite (GoBytes.Replace buf (bs "TRZSZ") (bs "TRZSZGO") 1);
                Go (HandleTrzsz mode remoteIsWindows)], Continue)
          | Done (None, _) =>
              if gInterrupting g then ([], Continue)
              else
                let output := TrimRight (trimVT100 buf) kCRLF in
                match gDragFiles g with
                | Some _ =>
                    if negb dragFile then ([StdoutWrite buf], Continue)
                    else if bytes_eqb output (bs "trz")
                    then ([StdoutWrite kCRLF], Continue)
                    else if bytes_eqb output [] || bytes_eqb output kQuote
                    then ([], Continue)
                    else ([StdoutWrite buf], Continue)
                | None => ([StdoutWrite buf], Continue)
                end
          end
      end
  | _, _ => ([], Continue)
  end.

(** The loop of [wrapOutput] over successive reads.  The other goroutines
    change the globals between passes, so each pass comes with the globals
    as it reads them. *)
Fixpoint wrapOutput (dragFile : bool) (reads : list (globals * read_result))
  : list event :=
  match reads with
  | [] => []
  | (g, r) :: reads' =>
      match wrapOutput_iter dragFile g r with
      | (evs, Continue) => evs ++ wrapOutput dragFile reads'
      | (evs, _) => evs
      end
  end.

End Wrapper.

(** The chunks a run of reads delivers without error, in order. *)
Fixpoint chunks_read (reads : list (globals * read_result)) : bytes :=
  match reads with
  | [] => []
  | (_, r) :: reads' =>
      match err r with
      | None => data r ++ chunks_read reads'
      | Some _ => chunks_read reads'
      end
  end.

(** [handleTrzsz] makes the session the current one on entry, and its
    deferred function clears the reference on exit. *)
Definition handleTrzsz_enter (g : globals) (t : transfer) : globals :=
  {| gDragFiles := gDragFiles g; gDragHasDir := gDragHasDir g;
     gInterrupting := gInterrupting g; gTransfer := Some t |}.

Definition handleTrzsz_exit (g : globals) : globals :=
  {| gDragFiles := gDragFiles g; gDragHasDir := gDragHasDir g;
     gInterrupting := gInterrupting g; gTransfer := None |}.

(** ** trzsz.go: signals *)

Inductive signal : Type := SIGTERM | SIGINT.

(** [handleSignal] starts two goroutines: one waits for a single SIGTERM
    and terminates the child, the other serves every interrupt.
    [term_waiting] tells whether the first one is still waiting. *)
Definition handleSignal_deliver (g : globals) (term_waiting : bool) (s : signal)
  : list event * bool :=
  match s with
  | SIGTERM => if term_waiting then ([PtyTerminate], false) else ([], false)
  | SIGINT =>
      match gTransfer g with
      | Some t => ([StopTransferringFiles t], term_waiting)
      | None => ([], term_waiting)
      end
  end.

(** ** trzsz.go: the goroutines together *)

(** [uploadDragFiles] runs in three stretches, each after a sleep and each
    on the globals as it finds them.  The first one returns early ([false])
    when no dragged files are pending. *)
Definition uploadDragFiles_interrupt (g : globals)
  : globals * list event * bool :=
  match gDragFiles g with
  | None => (g, [], false)
  | Some _ =>
      ({| gDragFiles := gDragFiles g; gDragHasDir := gDragHasDir g;
          gInterrupting := true; gTransfer := gTransfer g |},
       [PtyStdinWrite [x03]], true)
  end.

Definition uploadDragFiles_type (g : globals) : globals * list event :=
  ({| gDragFiles := gDragFiles g; gDragHasDir := gDragHasDir g;
      gInterrupting := false; gTransfer := gTransfer g |},
   [PtyStdinWrite
      (if gDragHasDir g
       then bs "echo 'upload directory is not supported yet'" ++ [x0a]
       else bs "trz" ++ [x0a])]).

Definition uploadDragFiles_clear (g : globals) : globals :=
  match gDragFiles g with
  | Some _ =>
      {| gDragFiles := None; gDragHasDir := false;
         gInterrupting := gInterrupting g; gTransfer := gTransfer g |}
  | None => g
  end.

(** The wrapper at some moment: the globals, what has been done so far, and
    the sessions whose [handleTrzsz] has begun to run, in the order in which
    they began. *)
Record wrapper : Type := {
  w_globals : globals;
  w_trace : list event;
  w_sessions : list transfer
}.

(** Number of [go handleTrzsz(...)] statements executed. *)
Fixpoint count_go (tr : list event) : nat :=
  match tr with
  | Go (HandleTrzsz _ _) :: tr' => S (count_go tr')
  | _ :: tr' => count_go tr'
  | [] => 0
  end.

Definition wrapper_start : wrapper :=
  {| w_globals := {| gDragFiles := None; gDragHasDir := false;
                     gInterrupting := false; gTransfer := None |};
     w_trace := []; w_sessions := [] |}.

Section Interleaving.

Variable IsWindows : bool.
Variable detectDragFiles : bytes -> option (list bytes) * bool.
Variable trimVT100 : bytes -> bytes.
Variable dragFile : bool.

(** One step of one goroutine.  A [handleTrzsz] can only begin to run once
    the [go] statement that starts it has been executed, and the session it
    makes is a new one.  The step that clears the pending dragged files
    stands for the end of [uploadDragFiles] and for [chooseUploadFiles]
    taking them: both reset the two globals when files are pending. *)
Inductive wstep (w : wrapper) : wrapper -> Prop :=
| step_output r evs st :
    wrapOutput_iter trimVT100 dragFile (w_globals w) r = (evs, st) ->
    wstep w {| w_globals := w_globals w; w_trace := w_trace w ++ evs;
               w_sessions := w_sessions w |}
| step_input r g' evs st :
    wrapInput_iter IsWindows detectDragFiles dragFile (w_globals w) r
    = (g', evs, st) ->
    wstep w {| w_globals := g'; w_trace := w_trace w ++ evs;
               w_sessions := w_sessions w |}
| step_signal sg tw evs tw' :
    handleSignal_deliver (w_globals w) tw sg = (evs, tw') ->
    wstep w {| w_globals := w_globals w; w_trace := w_trace w ++ evs;
               w_sessions := w_sessions w |}
| step_enter t :
    ~ In t (w_sessions w) ->
    length (w_sessions w) < count_go (w_trace w) ->
    wstep w {| w_globals := handleTrzsz_enter (w_globals w) t;
               w_trace := w_trace w; w_sessions := w_sessions w ++ [t] |}
| step_exit :
    wstep w {| w_globals := handleTrzsz_exit (w_globals w);
               w_trace := w_trace w; w_sessions := w_sessions w |}
| step_drag_interrupt g' evs go_on :
    uploadDragFiles_interrupt (w_globals w) = (g', evs, go_on) ->
    wstep w {| w_globals := g'; w_trace := w_trace w ++ evs;
               w_sessions := w_sessions w |}
| step_drag_type g' evs :
    uploadDragFiles_type (w_globals w) = (g', evs) ->
    wstep w {| w_globals := g'; w_trace := w_trace w ++ evs;
               w_sessions := w_sessions w |}
| step_drag_clear :
    wstep w {| w_globals := uploadDragFiles_clear (w_globals w);
               w_trace := w_trace w; w_sessions := w_sessions w |}.

Inductive reachable : wrapper -> Prop :=
| reach_start : reachable wrapper_start
| reach_step w w' : reachable w -> wstep w w' -> reachable w'.

End Interleaving.

(** What stands before a [go handleTrzsz(m, h)] ends with the echo of a
    chunk in which [detectTrzsz] found the trigger with the mode [m] and
    the hint [h]. *)
Definition echo_precedes (before : list event) (m : byte) (h : bool) : Prop :=
  exists pre buf,
    before
    = pre ++ [StdoutWrite (GoBytes.Replace buf (bs "TRZSZ") (bs "TRZSZGO") 1)]
    /\ detectTrzsz buf = Done (Some m, h).

(** ** trzsz.go: the configuration file and the download path *)

Module GoStrings.

(** The six ASCII white-space bytes. *)
Definition asciiSpace (c : byte) : bool :=
  match c with
  | x09 | x0a | x0b | x0c | x0d | x20 => true
  | _ => false
  end.

(** UTF-8 encodings of the other code points [unicode.IsSpace] accepts:
    U+0085, U+00A0, U+1680, U+2000 to U+200A, U+2028, U+2029, U+202F,
    U+205F and U+3000. *)
Definition unicodeSpaces : list bytes :=
  [ [xc2; x85]; [xc2; xa0]; [xe1; x9a; x80];
    [xe2; x80; x80]; [xe2; x80; x81]; [xe2; x80; x82]; [xe2; x80; x83];
    [xe2; x80; x84]; [xe2; x80; x85]; [xe2; x80; x86]; [xe2; x80; x87];
    [xe2; x80; x88]; [xe2; x80; x89]; [xe2; x80; x8a];
    [xe2; x80; xa8]; [xe2; x80; xa9]; [xe2; x80; xaf];
    [xe2; x81; x9f]; [xe3; x80; x80] ].

(** [s] without one leading white-space character, when it has one.
    [encs] are the multi-byte encodings to look for. *)
Definition dropSpace (encs : list bytes) (s : bytes) : option bytes :=
  match s with
  | [] => None
  | c :: s' =>
      if asciiSpace c then Some s'
      else
        match find (GoBytes.HasPrefix s) encs with
        | Some e => Some (skipn (length e) s)
        | None => None
        end
  end.

Fixpoint dropSpaces (fuel : nat) (encs : list bytes) (s : bytes) : bytes :=
  match fuel with
  | 0 => s
  | S fuel' =>
      match dropSpace encs s with
      | Some s' => dropSpaces fuel' encs s'
      | None => s
      end
  end.

(** [strings.TrimSpace]: leading and trailing white space removed, as
    UTF-8 decoding sees it. *)
Definition TrimSpace (s : bytes) : bytes :=
  let l := dropSpaces (length s) unicodeSpaces s in
  rev (dropSpaces (length l) (map (@rev byte) unicodeSpaces) (rev l)).

End GoStrings.

(** ** White space, by code points

    What [strings.TrimSpace] removes, said without the byte table above:
    the UTF-8 encodings of the code points [unicode.IsSpace] accepts. *)

Module GoUnicode.

(** [unicode.IsSpace]: the white space of Latin-1 and the code points with
    the property White_Space. *)
Definition IsSpace (r : Z) : bool :=
  ((9 <=? r) && (r <=? 13) || (r =? 0x20) || (r =? 0x85) || (r =? 0xA0)
   || (r =? 0x1680) || (0x2000 <=? r) && (r <=? 0x200A)
   || (r =? 0x2028) || (r =? 0x2029) || (r =? 0x202F) || (r =? 0x205F)
   || (r =? 0x3000))%Z.

Definition byte_of_Z (z : Z) : byte :=
  match Byte.of_N (Z.to_N z) with
  | Some b => b
  | None => x00
  end.

(** [utf8.EncodeRune] for a code point below U+10000 that is no
    surrogate. *)
Definition EncodeRune (r : Z) : bytes :=
  (if r <? 0x80 then [byte_of_Z r]
   else if r <? 0x800 then
     [byte_of_Z (Z.lor 0xC0 (Z.shiftr r 6));
      byte_of_Z (Z.lor 0x80 (Z.land r 0x3F))]
   else
     [byte_of_Z (Z.lor 0xE0 (Z.shiftr r 12));
      byte_of_Z (Z.lor 0x80 (Z.land (Z.shiftr r 6) 0x3F));
      byte_of_Z (Z.lor 0x80 (Z.land r 0x3F))])%Z.

(** [sp] is one white-space character. *)
Definition white_space (sp : bytes) : Prop :=
  exists r, IsSpace r = true /\ sp = EncodeRune r.

(** [l] is a run of white-space characters. *)
Inductive spaces : bytes -> Prop :=
| spaces_nil : spaces []
| spaces_cons sp l : white_space sp -> spaces l -> spaces (sp ++ l).

Definition starts_with_space (s : bytes) : Prop :=
  exists sp t, white_space sp /\ s = sp ++ t.

Definition ends_with_space (s : bytes) : Prop :=
  exists t sp, white_space sp /\ s = t ++ sp.

(** [value] is [s] without the white space around it. *)
Definition trimmed (s value : bytes) : Prop :=
  exists l r,
    s = l ++ value ++ r /\ spaces l /\ spaces r
    /\ ~ starts_with_space value /\ ~ ends_with_space value.

End GoUnicode.

(** ** The part of Go's [bufio] the sources call *)

Module GoBufio.

(** The largest token a [Scanner] with its default buffer holds,
    [64 * 1024]. *)
Definition MaxScanTokenSize : Z := 65536.

(** [dropCR]: a line without its trailing carriage return. *)
Definition dropCR (line : bytes) : bytes :=
  match rev line with
  | c :: r => if Byte.eqb c x0d then rev r else line
  | [] => line
  end.

(** The tokens a [Scanner] with the split function [ScanLines] yields on
    what is left of the input: [cur] is the line read so far, last byte
    first, and [n] its length.  A line ends at a line feed or at the end of
    the input; an empty rest at the end of the input is no line.  The
    scanner has to hold a line in its buffer until it has seen how it ends:
    a line of [MaxScanTokenSize] bytes or more fills the buffer, and [Scan]
    then stops with [ErrTooLong], yielding neither that line nor any
    after it. *)
Fixpoint scan (cur : bytes) (n : Z) (input : bytes) : list bytes :=
  match input with
  | [] =>
      if ((0 <? n) && (n <? MaxScanTokenSize))%Z then [dropCR (rev cur)]
      else []
  | c :: rest =>
      if Byte.eqb c x0a then
        if (n <? MaxScanTokenSize)%Z then dropCR (rev cur) :: scan [] 0 rest
        else []
      else scan (c :: cur) (n + 1) rest
  end.

(** The values of [scanner.Text()] over the loop [for scanner.Scan()]. *)
Definition ScanLines (input : bytes) : list bytes := scan [] 0 input.

End GoBufio.

(** What the wrapper sees of the host: the home directory ([None] when
    [os.UserHomeDir] fails), [filepath.Join], and [os.Open]: a file that
    opens is given by the bytes read from it, up to its end or to a read
    error ([None] when [os.Open] fails). *)
Record host : Type := {
  UserHomeDir : option bytes;
  Join : bytes -> bytes -> bytes;
  Open : bytes -> option bytes
}.

(** [line[i:j]] and [line[i:]] for indices within the line. *)
Definition slice (s : bytes) (i j : Z) : bytes :=
  firstn (Z.to_nat j - Z.to_nat i) (skipn (Z.to_nat i) s).

Definition slice_from (s : bytes) (i : Z) : bytes := skipn (Z.to_nat i) s.

(** The loop of [getTrzszConfig] over the scanner's lines. *)
Fixpoint scanConfig (name : bytes) (lines : list bytes) : option bytes :=
  match lines with
  | [] => None
  | line :: rest =>
      let idx := GoBytes.Index line (bs "=") in
      if (idx <? 0)%Z then scanConfig name rest
      else if bytes_eqb (GoStrings.TrimSpace (slice line 0 idx)) name then
        let value := GoStrings.TrimSpace (slice_from line (idx + 1)) in
        if length value =? 0 then None else Some value
      else scanConfig name rest
  end.

Definition getTrzszConfig (h : host) (name : bytes) : option bytes :=
  match UserHomeDir h with
  | None => None
  | Some home =>
      match Open h (Join h home (bs ".trzsz.conf")) with
      | None => None
      | Some file => scanConfig name (GoBufio.ScanLines file)
      end
  end.

(** The text of a file made of the given lines, each ended by a line
    feed. *)
Definition lines_text (lines : list bytes) : bytes :=
  flat_map (fun line => line ++ [x0a]) lines.

(** The lines of a file: those ended by a line feed and, when it is not
    empty, what follows the last line feed. *)
Definition file_lines (ended : list bytes) (last : bytes) : list bytes :=
  ended ++ match last with [] => [] | _ => [last] end.

(** The lines before the first one of [MaxScanTokenSize] bytes or more. *)
Fixpoint before_too_long (lines : list bytes) : list bytes :=
  match lines with
  | [] => []
  | line :: rest =>
      if (Z.of_nat (length line) <? GoBufio.MaxScanTokenSize)%Z
      then line :: before_too_long rest
      else []
  end.

(** A host whose configuration file holds the given bytes. *)
Definition host_with (file : bytes) : host :=
  {| UserHomeDir := Some (bs "/home/u");
     Join := fun a b => a ++ bs "/" ++ b;
     Open := fun path =>
       if bytes_eqb path (bs "/home/u/.trzsz.conf") then Some file
       else None |}.

Inductive zenity_error : Type := ErrCanceled | ErrOther.

(** [chooseDownloadPath].  [picked] is what [zenity.SelectFile] returns if
    it is called; the second component tells whether it was called. *)
Definition chooseDownloadPath (h : host) (picked : bytes + zenity_error)
  : (bytes + zenity_error) * bool :=
  match getTrzszConfig h (bs "DefaultDownloadPath") with
  | Some savePath => (inl savePath, false)
  | None =>
      match picked with
      | inr e => (inr e, true)
      | inl path =>
          if length path =? 0 then (inr ErrCanceled, true)
          else (inl path, true)
      end
  end.

(** [line] is an entry for [name] with the raw value [v]: it has an equals
    sign, what stands before the first one is [name] once trimmed, and [v]
    is what follows it. *)
Definition entry_for (name line v : bytes) : Prop :=
  exists k, line = k ++ "="%byte :: v /\ ~ In "="%byte k
            /\ GoStrings.TrimSpace k = name.

(** [v] is the raw value of the first entry for [name] among [lines]. *)
Definition first_entry (name : bytes) (lines : list bytes) (v : bytes) : Prop :=
  exists pre line post,
    lines = pre ++ line :: post
    /\ (forall l v', In l pre -> ~ entry_for name l v')
    /\ entry_for name line v.

(** No line is an entry for [name]. *)
Definition no_entry (name : bytes) (lines : list bytes) : Prop :=
  forall l v, In l lines -> ~ entry_for name l v.

(** ** tsz.go: the sender *)

Local Open Scope Z_scope.

(** A Go [int64]: values wrap around. *)
Definition wrap64 (x : Z) : Z := (x + 2 ^ 63) mod 2 ^ 64 - 2 ^ 63.

Definition digit_byte (d : Z) : byte :=
  match d with
  | 0 => "0" | 1 => "1" | 2 => "2" | 3 => "3" | 4 => "4"
  | 5 => "5" | 6 => "6" | 7 => "7" | 8 => "8" | _ => "9"
  end%byte.

(** The decimal digits of [u >= 0], most significant first, by repeated
    division as [fmt] produces them. *)
Fixpoint decimal_fuel (fuel : nat) (u : Z) : bytes :=
  match fuel with
  | O => []
  | S fuel' =>
      if u <? 10 then [digit_byte u]
      else decimal_fuel fuel' (u / 10) ++ [digit_byte (u mod 10)]
  end.

Definition decimal (u : Z) : bytes :=
  decimal_fuel (S (Z.to_nat (Z.log2 u))) u.

(** [fmt.Sprintf("%0<width>d", n)]: zeros fill the width, less one place for
    the sign of a negative number. *)
Definition fmt_0d (width : nat) (n : Z) : bytes :=
  let ds := decimal (Z.abs n) in
  let prec := if n <? 0 then (width - 1)%nat else width in
  let padded := repeat "0"%byte (prec - length ds) ++ ds in
  if n <? 0 then "-"%byte :: padded else padded.

(** The number a string of decimal digits denotes. *)
Definition digit_value (c : byte) : Z := Z.of_N (Byte.to_N c) - 48.

Definition decimal_value (ds : bytes) : Z :=
  fold_left (fun acc c => 10 * acc + digit_value c) ds 0.

Definition error := bytes.

(** Modelled from the spec: the multiplexer modes are declared outside src/;
    the spec lists them as "none|normal|control". *)
Inductive tmuxModeType : Type := noTmuxMode | tmuxNormalMode | tmuxControlMode.

Definition tmuxMode_eqb (a b : tmuxModeType) : bool :=
  match a, b with
  | noTmuxMode, noTmuxMode
  | tmuxNormalMode, tmuxNormalMode
  | tmuxControlMode, tmuxControlMode => true
  | _, _ => false
  end.

(** Modelled from the spec: [baseArgs] is declared outside src/; these are
    the fields tsz.go reads and the flags the spec lists for the sender
    ("-b binary, -e escape-set, -d directory, -y overwrite, -B max-buf-size,
    -t timeout"). *)
Record baseArgs : Type := {
  Quiet : bool;
  Overwrite : bool;
  Binary : bool;
  Escape : bool;
  Directory : bool;
  Bufsize : Z;
  Timeout : Z
}.

Definition set_Binary (b : bool) (a : baseArgs) : baseArgs :=
  {| Quiet := Quiet a; Overwrite := Overwrite a; Binary := b;
     Escape := Escape a; Directory := Directory a; Bufsize := Bufsize a;
     Timeout := Timeout a |}.

(** [tszArgs]: the embedded [baseArgs] and the positional files. *)
Record tszArgs : Type := {
  base : baseArgs;
  File : list bytes
}.

(** [args.Binary = b]. *)
Definition setBinary (b : bool) (a : tszArgs) : tszArgs :=
  {| base := set_Binary b (base a); File := File a |}.

(** Modelled from the spec: the ACT frame's type is declared outside src/;
    the spec gives it as "{confirm: bool, version, support_binary,
    support_directory, platform}". *)
Record action : Type := {
  Confirm : bool;
  Version : bytes;
  SupportBinary : bool;
  SupportDirectory : bool;
  Platform : bytes
}.

(** Modelled from the spec: [trzszFile] is declared outside src/; the spec's
    FileRecord has an "absolute path, display name, relative path (directory
    mode), size in bytes, is-directory flag". *)
Record trzszFile : Type := {
  absPath : bytes;
  displayName : bytes;
  relPath : list bytes;
  size : Z;
  isDir : bool
}.

(** Modelled from the spec: [checkDuplicateNames] is not under src/; the spec
    says "before transfer, fail if two FileRecords would land at the same
    display name".  The records are visited in order and the first name seen
    before is reported. *)
Fixpoint checkDuplicateNames_seen (seen : list bytes) (files : list trzszFile)
  : option error :=
  match files with
  | [] => None
  | f :: files' =>
      if existsb (bytes_eqb (displayName f)) seen
      then Some (bs "Duplicate name: " ++ displayName f)
      else checkDuplicateNames_seen (displayName f :: seen) files'
  end.

Definition checkDuplicateNames (files : list trzszFile) : option error :=
  checkDuplicateNames_seen [] files.

(** The calls by which the sender acts on the terminal and on the transfer
    engine, whose methods are not under src/. *)
Inductive sevent : Type :=
| OutWrite (b : bytes)
| OutSync
| ErrPrintln (e : error)
| EnableVirtualTerminal
| SetupConsoleOutput
| ResetVirtualTerminal
| MakeRaw
| TermRestore
| NewTransfer (realStdout : nat)
| GoWrapStdinInput
| HandleServerSignal
| RecvAction
| ServerExit (msg : bytes)
| SendConfig (args : baseArgs) (a : action) (escapeChars : list (list Z))
             (tmuxMode : tmuxModeType) (tmuxPaneWidth : Z)
| SendFiles (files : list trzszFile)
| RecvExit
| ServerError (e : error).

(** What the peer and the transport answer to the engine's calls. *)
Record peer : Type := {
  recvAction : error + action;
  sendConfig : baseArgs -> option error;
  sendFilesResult : error + list bytes;
  recvExit : error + bytes
}.

(** [sendFiles] of tsz.go.  [args] is passed by pointer: the arguments as
    the function leaves them are returned with the error. *)
Definition sendFiles (p : peer) (files : list trzszFile) (args : tszArgs)
    (tmuxMode : tmuxModeType) (tmuxPaneWidth : Z)
  : option error * tszArgs * list sevent :=
  match recvAction p with
  | inl e => (Some e, args, [RecvAction])
  | inr act =>
      if negb (Confirm act) then
        (None, args, [RecvAction; ServerExit (bs "Cancelled")])
      else
        let args1 :=
          if Binary (base args) && negb (SupportBinary act)
          then setBinary false args
          else args in
        if Directory (base args1) && negb (SupportDirectory act) then
          (Some (bs "The client doesn't support transfer directory"), args1,
           [RecvAction])
        else
          let cfg := SendConfig (base args1) act [] tmuxMode tmuxPaneWidth in
          match sendConfig p (base args1) with
          | Some e => (Some e, args1, [RecvAction; cfg])
          | None =>
              match sendFilesResult p with
              | inl e => (Some e, args1, [RecvAction; cfg; SendFiles files])
              | inr _ =>
                  match recvExit p with
                  | inl e =>
                      (Some e, args1,
                       [RecvAction; cfg; SendFiles files; RecvExit])
                  | inr msg =>
                      (None, args1,
                       [RecvAction; cfg; SendFiles files; RecvExit;
                        ServerExit msg])
                  end
              end
          end
  end.

(** What [TszMain] finds on the remote host: the arguments as
    [arg.MustParse] leaves them (on a usage error it ends the process
    itself), and what the helpers and the peer answer.  A panic in a callee
    is outside the model. *)
Record senv : Type := {
  argv : tszArgs;
  checkPathsReadable : list bytes -> bool -> error + list trzszFile;
  checkTmux : error + (tmuxModeType * nat * Z);
  isRunningOnWindows : bool;
  nowUnixMilli : Z;
  enableVirtualTerminal : bool;
  getTerminalColumns : Z;
  makeRaw : option error;
  thePeer : peer
}.

Definition kControlNotice : bytes :=
  bs "Binary download in tmux control mode is slower, auto switch to base64 mode."
  ++ [x0a].

Definition kWindowsNotice : bytes :=
  bs "Binary download on Windows is not supported, auto switch to base64 mode."
  ++ [x0a].

Definition kESC : byte := x1b.

Section Sender.

(** The version constant, declared outside src/. *)
Variable kTrzszVersion : bytes.

(** The two checks of [args.Binary] that [TszMain] makes after
    [checkTmux]: the arguments as they leave them, and what they write. *)
Definition downgrade_binary (e : senv) (tmuxMode : tmuxModeType)
    (args : tszArgs) : tszArgs * list sevent :=
  let '(args1, ev1) :=
    if Binary (base args) && tmuxMode_eqb tmuxMode tmuxControlMode
    then (setBinary false args, [OutWrite kControlNotice])
    else (args, []) in
  let '(args2, ev2) :=
    if Binary (base args1) && isRunningOnWindows e
    then (setBinary false args1, [OutWrite kWindowsNotice])
    else (args1, []) in
  (args2, ev1 ++ ev2).

(** [uniqueID] as [TszMain] computes it; [10e10] is the constant 10^11. *)
Definition uniqueID (e : senv) (tmuxMode : tmuxModeType) : Z :=
  let id := wrap64 (Z.rem (nowUnixMilli e) 100000000000 * 100) in
  if isRunningOnWindows e then wrap64 (id + 10)
  else if tmuxMode_eqb tmuxMode tmuxNormalMode then wrap64 (id + 20)
  else id.

(** What is done between the binary checks and the marker. *)
Definition prepare_terminal (e : senv) (tmuxMode : tmuxModeType)
  : list sevent :=
  if isRunningOnWindows e then [EnableVirtualTerminal; SetupConsoleOutput]
  else if tmuxMode_eqb tmuxMode tmuxNormalMode then
    if (0 <? getTerminalColumns e) && (getTerminalColumns e <? 40)
    then [OutWrite ([x0a; x0a; kESC] ++ bs "[2A" ++ [kESC] ++ bs "[0J")]
    else [OutWrite ([x0a; kESC] ++ bs "[1A" ++ [kESC] ++ bs "[0J")]
  else [].

(** The deferred [resetVirtualTerminal]. *)
Definition deferred_reset (e : senv) : list sevent :=
  if isRunningOnWindows e && enableVirtualTerminal e
  then [ResetVirtualTerminal] else [].

Definition trigger_marker (id : Z) : bytes :=
  [kESC] ++ bs "7" ++ [x07] ++ bs "::TRZSZ:TRANSFER:S:" ++ kTrzszVersion
  ++ bs ":" ++ fmt_0d 13 id ++ [x0d; x0a].

(** [TszMain] from the line after [checkTmux] on. *)
Definition TszMain_from_tmux (e : senv) (files : list trzszFile)
    (tmuxMode : tmuxModeType) (realStdout : nat) (tmuxPaneWidth : Z)
  : Z * list sevent :=
  let '(args', notices) := downgrade_binary e tmuxMode (argv e) in
  let before :=
    notices ++ prepare_terminal e tmuxMode
    ++ [OutWrite (trigger_marker (uniqueID e tmuxMode)); OutSync; MakeRaw] in
  match makeRaw e with
  | Some er => (-4, before ++ [ErrPrintln er] ++ deferred_reset e)
  | None =>
      let '(res, _, evs) :=
        sendFiles (thePeer e) files args' tmuxMode tmuxPaneWidth in
      (0, before
          ++ [NewTransfer realStdout; GoWrapStdinInput; HandleServerSignal]
          ++ evs
          ++ match res with
             | Some er => [ServerError er]
             | None => []
             end
          ++ [TermRestore] ++ deferred_reset e)
  end.

(** [TszMain]: the exit code and what was done, in order. *)
Definition TszMain (e : senv) : Z * list sevent :=
  let args := argv e in
  match checkPathsReadable e (File args) (Directory (base args)) with
  | inl er => (-1, [ErrPrintln er])
  | inr files =>
      match (if Overwrite (base args) then checkDuplicateNames files
             else None) with
      | Some er => (-2, [ErrPrintln er])
      | None =>
          match checkTmux e with
          | inl er => (-3, [ErrPrintln er])
          | inr (tmuxMode, realStdout, tmuxPaneWidth) =>
              TszMain_from_tmux e files tmuxMode realStdout tmuxPaneWidth
          end
      end
  end.

End Sender.

(** [TszMain] gets past its three checks, with these files and this
    multiplexer report. *)
Definition reaches_marker (e : senv) (files : list trzszFile)
    (tmuxMode : tmuxModeType) (realStdout : nat) (tmuxPaneWidth : Z) : Prop :=
  checkPathsReadable e (File (argv e)) (Directory (base (argv e))) = inr files
  /\ (Overwrite (base (argv e)) = true -> checkDuplicateNames files = None)
  /\ checkTmux e = inr (tmuxMode, realStdout, tmuxPaneWidth).

(** The same host, with [-b] given on the command line or not. *)
Definition requestBinary (b : bool) (e : senv) : senv :=
  {| argv := setBinary b (argv e);
     checkPathsReadable := checkPathsReadable e;
     checkTmux := checkTmux e;
     isRunningOnWindows := isRunningOnWindows e;
     nowUnixMilli := nowUnixMilli e;
     enableVirtualTerminal := enableVirtualTerminal e;
     getTerminalColumns := getTerminalColumns e;
     makeRaw := makeRaw e;
     thePeer := thePeer e |}.

(** What the sender writes about a downgrade decided before the marker. *)
Definition downgrade_notice (e : senv) (tmuxMode : tmuxModeType)
  : list sevent :=
  if tmuxMode_eqb tmuxMode tmuxControlMode then [OutWrite kControlNotice]
  else if isRunningOnWindows e then [OutWrite kWindowsNotice]
  else [].

(** The calls that send the configuration or file data, or report an
    error to the peer. *)
Definition sends_to_peer (ev : sevent) : bool :=
  match ev with
  | SendConfig _ _ _ _ _ | SendFiles _ | ServerError _ => true
  | _ => false
  end.

(** Sample hosts and peers, for the examples. *)
Definition demo_file (name : string) : trzszFile :=
  {| absPath := bs "/home/u/" ++ bs name; displayName := bs name;
     relPath := [bs name]; size := 5; isDir := false |}.

Definition demo_peer (confirm supportBinary : bool) : peer :=
  {| recvAction := inr {| Confirm := confirm; Version := bs "1.1.3";
                          SupportBinary := supportBinary;
                          SupportDirectory := true;
                          Platform := bs "linux" |};
     sendConfig := fun _ => None;
     sendFilesResult := inr [bs "a.txt"];
     recvExit := inr (bs "Saved a.txt to /home/u/dl") |}.

Definition demo_env (binary overwrite windows : bool) (tmuxMode : tmuxModeType)
    (files : list trzszFile) (p : peer) (now : Z) : senv :=
  {| argv := {| base := {| Quiet := false; Overwrite := overwrite;
                           Binary := binary; Escape := false;
                           Directory := false; Bufsize := 10485760;
                           Timeout := 20 |};
                File := map absPath files |};
     checkPathsReadable := fun _ _ => inr files;
     checkTmux := inr (tmuxMode, 1%nat, 80);
     isRunningOnWindows := windows;
     nowUnixMilli := now;
     enableVirtualTerminal := true;
     getTerminalColumns := 80;
     makeRaw := None;
     thePeer := p |}.

Local Close Scope Z_scope.

(** ** trzsz.go: the session on the wrapper's side *)

(** What a call into the transfer engine or the terminal can do: return a
    value, return an error, or panic. *)
Inductive call (A : Type) : Type :=
| Returns (a : A)
| Fails (e : error)
| Panics (msg : bytes).
Arguments Returns {A} a.
Arguments Fails {A} e.
Arguments Panics {A} msg.

(** The errors [downloadFiles] and [uploadFiles] return: those of the file
    picker, those of the engine and of the file checks, and the error
    [handleTrzsz] makes of a recovered panic. *)
Inductive client_error : Type :=
| ZenityError (z : zenity_error)
| TrzszError (msg : bytes)
| PanicError (msg : bytes).

(** A decoded JSON value, as [map[string]interface{}] holds it; [F] stands
    for [float64]. *)
Inductive jvalue (F : Type) : Type :=
| JBool (b : bool)
| JNumber (x : F)
| JString (s : bytes)
| JOther.
Arguments JBool {F} b.
Arguments JNumber {F} x.
Arguments JString {F} s.
Arguments JOther {F}.

(** A [*TextProgressBar] as [NewTextProgressBar] is given it. *)
Record progress_bar : Type := {
  bar_columns : Z;
  bar_tmuxPaneColumns : Z
}.

(** The calls of a session on the wrapper's side. *)
Inductive cevent : Type :=
| ZenitySelectFile
| ZenitySelectFileMutiple (filename : option bytes)
| CheckPathWritable (path : bytes)
| CheckFilesReadable (files : list bytes)
| SendAction (confirm remoteIsWindows : bool)
| RecvConfig
| GetColumns
| OnResizeSet
| OnResizeClear
| RecvFiles (path : bytes) (progress : option progress_bar)
| ClientSendFiles (files : list bytes) (progress : option progress_bar)
| ClientExit (msg : bytes)
| ClientError (e : client_error).

(** How a function of the session ends: with a value, with an error, or
    panicking. *)
Inductive res (A : Type) : Type :=
| Val (a : A)
| Err (e : client_error)
| Panic (msg : bytes).
Arguments Val {A} a.
Arguments Err {A} e.
Arguments Panic {A} msg.

(** A function of the session: from the globals it finds to what it calls,
    the globals it leaves and how it ends. *)
Definition M (A : Type) : Type := globals -> list cevent * globals * res A.

Definition ret {A : Type} (a : A) : M A := fun g => ([], g, Val a).

Definition bind {A B : Type} (m : M A) (f : A -> M B) : M B :=
  fun g =>
    let '(ev1, g1, r) := m g in
    match r with
    | Val a => let '(ev2, g2, r2) := f a g1 in (ev1 ++ ev2, g2, r2)
    | Err e => (ev1, g1, Err e)
    | Panic msg => (ev1, g1, Panic msg)
    end.

Notation "x <- m ;; f" := (bind m (fun x => f))
  (at level 61, m at next level, right associativity).
Notation "m ;;; f" := (bind m (fun _ => f))
  (at level 61, right associativity).

(** A call is made and its outcome taken over. *)
Definition do_call {A : Type} (ev : cevent) (c : call A) : M A :=
  fun g =>
    ([ev], g,
     match c with
     | Returns a => Val a
     | Fails e => Err (TrzszError e)
     | Panics msg => Panic msg
     end).

(** [if err != nil { return err }] after a check that returns an error. *)
Definition check_call (ev : cevent) (e : option error) : M unit :=
  fun g =>
    ([ev], g, match e with Some er => Err (TrzszError er) | None => Val tt end).

(** [defer]: the call is made when the function ends, however it ends. *)
Definition defer {A : Type} (ev : cevent) (m : M A) : M A :=
  fun g => let '(evs, g', r) := m g in (evs ++ [ev], g', r).

(** [strings.Join]. *)
Fixpoint strings_Join (elems : list bytes) (sep : bytes) : bytes :=
  match elems with
  | [] => []
  | [e] => e
  | e :: elems' => e ++ sep ++ strings_Join elems' sep
  end.

Section Session.

(** [float64] and the conversion [int(v)]. *)
Variable float64 : Type.
Variable int_of_float64 : float64 -> Z.

(** What the session finds: the host, what the pickers return if shown,
    the file checks of the package, and what the terminal and the engine,
    neither under src/, answer.  The calls on the engine and
    [pty.GetColumns] may panic; the pickers, the file checks and
    [pty.OnResize] are taken to return.  [clientError] returns no error;
    [c_clientError e] tells whether the call with the error [e] returns
    ([None]) or panics, and with what. *)
Record cenv : Type := {
  c_host : host;
  c_SelectFile : bytes + zenity_error;
  c_SelectFileMutiple : list bytes + zenity_error;
  c_checkPathWritable : bytes -> option error;
  c_checkFilesReadable : list bytes -> option error;
  c_sendAction : bool -> call unit;
  c_recvConfig : call (bytes -> option (jvalue float64));
  c_GetColumns : call Z;
  c_recvFiles : call (list bytes);
  c_sendFiles : call (list bytes);
  c_clientExit : call unit;
  c_clientError : client_error -> option bytes
}.

Variable E : cenv.

(** [chooseUploadFiles]: dragged files, if any are pending, are taken and
    the two globals reset; otherwise the picker is shown, starting at
    DefaultUploadPath when that is configured. *)
Definition chooseUploadFiles : M (list bytes) :=
  fun g =>
    match gDragFiles g with
    | Some files =>
        ([], {| gDragFiles := None; gDragHasDir := false;
                gInterrupting := gInterrupting g; gTransfer := gTransfer g |},
         Val files)
    | None =>
        ([ZenitySelectFileMutiple
            (getTrzszConfig (c_host E) (bs "DefaultUploadPath"))], g,
         match c_SelectFileMutiple E with
         | inr z => Err (ZenityError z)
         | inl files =>
             if length files =? 0 then Err (ZenityError ErrCanceled)
             else Val files
         end)
    end.

(** [chooseDownloadPath], as a function of the session. *)
Definition chooseDownloadPath_call : M bytes :=
  fun g =>
    let '(r, shown) := chooseDownloadPath (c_host E) (c_SelectFile E) in
    (if shown then [ZenitySelectFile] else [], g,
     match r with
     | inl path => Val path
     | inr z => Err (ZenityError z)
     end).

(** [quiet] as [newProgressBar] reads it: the entry, when it is a JSON
    boolean, and false otherwise. *)
Definition is_quiet (config : bytes -> option (jvalue float64)) : bool :=
  match config (bs "quiet") with
  | Some (JBool v) => v
  | _ => false
  end.

(** [tmuxPaneColumns] as [newProgressBar] reads it: the entry, when it is a
    JSON number, and -1 otherwise. *)
Definition tmux_pane_columns (config : bytes -> option (jvalue float64)) : Z :=
  match config (bs "tmux_pane_width") with
  | Some (JNumber v) => int_of_float64 v
  | _ => (-1)%Z
  end.

(** [newProgressBar]: nil when the configuration says quiet. *)
Definition newProgressBar (config : bytes -> option (jvalue float64))
  : M (option progress_bar) :=
  if is_quiet config then ret None
  else
    columns <- do_call GetColumns (c_GetColumns E) ;;
    ret (Some {| bar_columns := columns;
                 bar_tmuxPaneColumns := tmux_pane_columns config |}).

(** From [recvConfig] on, the two functions differ only in the transfer
    and in the message: [pty.OnResize] is set for a progress bar and, being
    deferred, cleared when the function ends. *)
Definition with_progress (progress : option progress_bar) (m : M unit)
  : M unit :=
  match progress with
  | Some _ => fun g => let '(evs, g', r) := defer OnResizeClear m g in
                       (OnResizeSet :: evs, g', r)
  | None => m
  end.

Definition downloadFiles (remoteIsWindows : bool) : M unit :=
  fun g =>
    let '(ev0, g0, r0) := chooseDownloadPath_call g in
    match r0 with
    | Err (ZenityError ErrCanceled) =>
        let '(ev1, g1, r1) :=
          do_call (SendAction false remoteIsWindows) (c_sendAction E false) g0 in
        (ev0 ++ ev1, g1, r1)
    | Err e => (ev0, g0, Err e)
    | Panic msg => (ev0, g0, Panic msg)
    | Val path =>
        let '(ev1, g1, r1) :=
          (check_call (CheckPathWritable path) (c_checkPathWritable E path) ;;;
           do_call (SendAction true remoteIsWindows) (c_sendAction E true) ;;;
           config <- do_call RecvConfig (c_recvConfig E) ;;
           progress <- newProgressBar config ;;
           with_progress progress
             (localNames <- do_call (RecvFiles path progress) (c_recvFiles E) ;;
              do_call
                (ClientExit (bs "Saved " ++ strings_Join localNames (bs ", ")
                             ++ bs " to " ++ path))
                (c_clientExit E))) g0 in
        (ev0 ++ ev1, g1, r1)
    end.

Definition uploadFiles (remoteIsWindows : bool) : M unit :=
  fun g =>
    let '(ev0, g0, r0) := chooseUploadFiles g in
    match r0 with
    | Err (ZenityError ErrCanceled) =>
        let '(ev1, g1, r1) :=
          do_call (SendAction false remoteIsWindows) (c_sendAction E false) g0 in
        (ev0 ++ ev1, g1, r1)
    | Err e => (ev0, g0, Err e)
    | Panic msg => (ev0, g0, Panic msg)
    | Val files =>
        let '(ev1, g1, r1) :=
          (check_call (CheckFilesReadable files) (c_checkFilesReadable E files) ;;;
           do_call (SendAction true remoteIsWindows) (c_sendAction E true) ;;;
           config <- do_call RecvConfig (c_recvConfig E) ;;
           progress <- newProgressBar config ;;
           with_progress progress
             (remoteNames <-
                do_call (ClientSendFiles files progress) (c_sendFiles E) ;;
              do_call
                (ClientExit (bs "Received "
                             ++ strings_Join remoteNames (bs ", ")))
                (c_clientExit E))) g0 in
        (ev0 ++ ev1, g1, r1)
    end.

(** The end of [handleTrzsz], from the outcome of the transfer: an error
    returned is reported through [clientError]; a panic, of the transfer or
    of that call, is recovered by the deferred function, which reports it
    through [clientError] in turn.  A panic of the call the deferred
    function makes is not recovered: it ends the goroutine.  The result is
    the calls made and the panic that leaves the function, if any. *)
Definition report_outcome (r : res unit) : list cevent * option bytes :=
  match r with
  | Val _ => ([], None)
  | Err e =>
      match c_clientError E e with
      | None => ([ClientError e], None)
      | Some msg =>
          ([ClientError e; ClientError (PanicError msg)],
           c_clientError E (PanicError msg))
      end
  | Panic msg =>
      ([ClientError (PanicError msg)], c_clientError E (PanicError msg))
  end.

(** [handleTrzsz] for the session [t]: the session is made current, the
    transfer for the mode is run and its outcome reported, and the first
    deferred function clears the reference, also when a panic leaves the
    function. *)
Definition handleTrzsz_outcome (t : transfer) (mode : byte)
    (remoteIsWindows : bool) (g : globals)
  : list cevent * globals * option bytes :=
  let g1 := handleTrzsz_enter g t in
  let '(evs, g2, r) :=
    if Byte.eqb mode "S" then downloadFiles remoteIsWindows g1
    else if Byte.eqb mode "R" then uploadFiles remoteIsWindows g1
    else ([], g1, Val tt) in
  let '(calls, panic) := report_outcome r in
  (evs ++ calls, handleTrzsz_exit g2, panic).

(** What [handleTrzsz] calls and the globals it leaves. *)
Definition handleTrzsz (t : transfer) (mode : byte) (remoteIsWindows : bool)
    (g : globals) : list cevent * globals :=
  fst (handleTrzsz_outcome t mode remoteIsWindows g).

(** The panic that leaves [handleTrzsz], if one does. *)
Definition handleTrzsz_panics (t : transfer) (mode : byte)
    (remoteIsWindows : bool) (g : globals) : option bytes :=
  snd (handleTrzsz_outcome t mode remoteIsWindows g).

End Session.

(** The calls of a kind among the events. *)
Definition is_OnResizeSet (ev : cevent) : bool :=
  match ev with OnResizeSet => true | _ => false end.

Definition is_OnResizeClear (ev : cevent) : bool :=
  match ev with OnResizeClear => true | _ => false end.

Definition is_ClientError (ev : cevent) : bool :=
  match ev with ClientError _ => true | _ => false end.

Definition count (p : cevent -> bool) (evs : list cevent) : nat :=
  length (filter p evs).

(** [q] holds of what follows each event of kind [p]. *)
Fixpoint after_each (p : cevent -> bool) (q : list cevent -> bool)
    (evs : list cevent) : bool :=
  match evs with
  | [] => true
  | ev :: evs' => (if p ev then q evs' else true) && after_each p q evs'
  end.

(** A sample session: no configuration file, the pickers and the peer as
    given, every other call going through. *)
Definition demo_host : host :=
  {| UserHomeDir := None; Join := fun a b => a ++ bs "/" ++ b;
     Open := fun _ => None |}.

Definition demo_config (quiet : bool) (key : bytes) : option (jvalue Z) :=
  if bytes_eqb key (bs "quiet") then Some (JBool quiet)
  else if bytes_eqb key (bs "tmux_pane_width") then Some (JNumber 80%Z)
  else None.

Definition demo_cenv (folder : bytes + zenity_error)
    (files : list bytes + zenity_error) (quiet : bool) : cenv Z :=
  {| c_host := demo_host;
     c_SelectFile := folder;
     c_SelectFileMutiple := files;
     c_checkPathWritable := fun _ => None;
     c_checkFilesReadable := fun _ => None;
     c_sendAction := fun _ => Returns tt;
     c_recvConfig := Returns (demo_config quiet);
     c_GetColumns := Returns 120%Z;
     c_recvFiles := Returns [bs "a.txt"; bs "b.txt"];
     c_sendFiles := Returns [bs "a.txt"; bs "b.txt"];
     c_clientExit := Returns tt;
     c_clientError := fun _ => None |}.

(** A sample session whose peer does not answer [sendAction], and whose
    [clientError] panics on an error that is not a recovered panic; on a
    recovered panic it does as [second] says. *)
Definition broken_cenv (second : option bytes) : cenv Z :=
  {| c_host := demo_host;
     c_SelectFile := inr ErrCanceled;
     c_SelectFileMutiple := inr ErrCanceled;
     c_checkPathWritable := fun _ => None;
     c_checkFilesReadable := fun _ => None;
     c_sendAction := fun _ => Fails (bs "timeout");
     c_recvConfig := Returns (demo_config false);
     c_GetColumns := Returns 120%Z;
     c_recvFiles := Returns [];
     c_sendFiles := Returns [];
     c_clientExit := Returns tt;
     c_clientError := fun e =>
       match e with
       | PanicError _ => second
       | _ => Some (bs "closed")
       end |}.

Definition idle : globals :=
  {| gDragFiles := None; gDragHasDir := false; gInterrupting := false;
     gTransfer := None |}.

(** ** trzsz.go: the loops of the input pump and of the signal handler *)

Section InputLoop.

Variable IsWindows : bool.
Variable detectDragFiles : bytes -> option (list bytes) * bool.

(** The loop of [wrapInput] over successive reads, each pass with the
    globals as it finds them. *)
Fixpoint wrapInput (dragFile : bool) (reads : list (globals * read_result))
  : list event :=
  match reads with
  | [] => []
  | (g, r) :: reads' =>
      match wrapInput_iter IsWindows detectDragFiles dragFile g r with
      | (_, evs, Continue) => evs ++ wrapInput dragFile reads'
      | (_, evs, _) => evs
      end
  end.

(** The same loop when nothing else touches the globals between its
    passes: each pass finds them as the one before left them. *)
Fixpoint wrapInput_alone (dragFile : bool) (g : globals)
    (reads : list read_result) : globals * list event :=
  match reads with
  | [] => (g, [])
  | r :: reads' =>
      match wrapInput_iter IsWindows detectDragFiles dragFile g r with
      | (g', evs, Continue) =>
          let '(g'', evs') := wrapInput_alone dragFile g' reads' in
          (g'', evs ++ evs')
      | (g', evs, _) => (g', evs)
      end
  end.

End InputLoop.

(** The files [detectDragFiles] finds in a run of chunks, in order, and
    whether it finds a directory among them. *)
Definition dragged_files (detectDragFiles : bytes -> option (list bytes) * bool)
    (chunks : list bytes) : list bytes :=
  flat_map (fun b => match fst (detectDragFiles b) with
                     | Some files => files
                     | None => []
                     end) chunks.

Definition dragged_dir (detectDragFiles : bytes -> option (list bytes) * bool)
    (chunks : list bytes) : bool :=
  existsb (fun b => snd (detectDragFiles b)) chunks.

(** A read that delivers [b] without error. *)
Definition read_ok (b : bytes) : read_result := {| data := b; err := None |}.

(** What [uploadDragFiles] types for the pending files. *)
Definition kTrzCommand (hasDir : bool) : bytes :=
  if hasDir then bs "echo 'upload directory is not supported yet'" ++ [x0a]
  else bs "trz" ++ [x0a].

(** The signals delivered one after the other, from the start of
    [handleSignal], where the first goroutine is waiting. *)
Fixpoint handleSignal_run (term_waiting : bool)
    (deliveries : list (globals * signal)) : list event :=
  match deliveries with
  | [] => []
  | (g, s) :: deliveries' =>
      let '(evs, tw) := handleSignal_deliver g term_waiting s in
      evs ++ handleSignal_run tw deliveries'
  end.

Definition is_PtyTerminate (ev : event) : bool :=
  match ev with PtyTerminate => true | _ => false end.

Definition is_SIGTERM (s : signal) : bool :=
  match s with SIGTERM => true | SIGINT => false end.

(** What an interrupt delivered on the globals [g] stops. *)
Definition interrupted (d : globals * signal) : list event :=
  match snd d, gTransfer (fst d) with
  | SIGINT, Some t => [StopTransferringFiles t]
  | _, _ => []
  end.

(** Bytes the sender writes to its stdout itself, in order. *)
Fixpoint stdout_bytes (tr : list sevent) : bytes :=
  match tr with
  | OutWrite b :: tr' => b ++ stdout_bytes tr'
  | _ :: tr' => stdout_bytes tr'
  | [] => []
  end.

(** The two calls by which the sender tells the peer how the session
    ended. *)
Definition is_report (ev : sevent) : bool :=
  match ev with
  | ServerExit _ | ServerError _ => true
  | _ => false
  end.

(** The calls by which the sender sets up the terminal and puts it back. *)
Definition is_terminal_call (ev : sevent) : bool :=
  match ev with
  | EnableVirtualTerminal | SetupConsoleOutput | ResetVirtualTerminal
  | MakeRaw | TermRestore => true
  | _ => false
  end.

(** ** trzsz.go: [TrzszMain] *)

(** What [TrzszMain] does, in order. *)
Inductive mevent : Type :=
| PrintHelp
| PrintVersion
| Spawn (name : bytes) (args : list bytes)
| MainErrPrintln (e : error)
| MainMakeRaw
| GoWrapInput (dragFile : bool)
| GoWrapOutput (dragFile : bool)
| GoHandleSignal
| PtyWait
| PtyClose
| MainTermRestore.

(** What [TrzszMain] finds: whether the child can be spawned, whether the
    terminal can be put in raw mode, and the exit code of the child. *)
Record menv : Type := {
  m_Spawn : bytes -> list bytes -> option error;
  m_MakeRaw : option error;
  m_ExitCode : Z
}.

Definition is_flag (a : bytes) (short long : string) : bool :=
  bytes_eqb a (bs short) || bytes_eqb a (bs long).

(** [TrzszMain] from [Spawn] on. *)
Definition TrzszMain_spawn (e : menv) (name : bytes) (args : list bytes)
    (dragFile : bool) : Z * list mevent :=
  match m_Spawn e name args with
  | Some er => ((-1)%Z, [Spawn name args; MainErrPrintln er])
  | None =>
      match m_MakeRaw e with
      | Some er =>
          ((-2)%Z, [Spawn name args; MainMakeRaw; MainErrPrintln er; PtyClose])
      | None =>
          (m_ExitCode e,
           [Spawn name args; MainMakeRaw; GoWrapInput dragFile;
            GoWrapOutput dragFile; GoHandleSignal; PtyWait; MainTermRestore;
            PtyClose])
      end
  end.

(** [TrzszMain] on [os.Args]. *)
Definition TrzszMain (e : menv) (Args : list bytes) : Z * list mevent :=
  match Args with
  | [] | [_] => (0%Z, [PrintHelp])
  | _ :: a1 :: rest =>
      if is_flag a1 "-h" "--help" then (0%Z, [PrintHelp])
      else if is_flag a1 "-v" "--version" then (0%Z, [PrintVersion])
      else if is_flag a1 "-d" "--dragfile" then
        match rest with
        | [] => (0%Z, [PrintHelp])
        | a2 :: rest' => TrzszMain_spawn e a2 rest' true
        end
      else TrzszMain_spawn e a1 rest false
  end.

(** A sample machine on which the command is spawned, raw mode is entered
    and the child exits with the given code. *)
Definition demo_menv (code : Z) : menv :=
  {| m_Spawn := fun _ _ => None; m_MakeRaw := None; m_ExitCode := code |}.

(** Equal lists up to the bracketing of [++] and [::]. *)
Ltac list_eq :=
  repeat first [rewrite <- app_assoc | progress cbn [app]]; reflexivity.

(** Hypotheses that are existentials or conjunctions, taken apart. *)
Ltac break_ex :=
  repeat match goal with
         | H : ex _ |- _ => destruct H
         | H : _ /\ _ |- _ => destruct H
         end.

(** An equivalence between an exit code and its cause, in a context that
    has settled which check fails. *)
Ltac code_iff :=
  split;
  [ intros E; first [discriminate E | eauto 10]
  | intros H; break_ex;
    repeat match goal with
           | H : inr _ = inr _ |- _ => injection H as H; subst
           end;
    first [reflexivity | congruence] ].

(** * Properties *)

(** ** The functions on small inputs *)

Example detect_send :
  detectTrzsz (x1b :: bs "7" ++ x07 :: bs "::TRZSZ:TRANSFER:S:1.1.3:0123456789012" ++ [x0d; x0a])
  = Done (Some "S"%byte, false).
Proof. reflexivity. Qed.

Example detect_recv_windows :
  detectTrzsz (bs "abc::TRZSZ:TRANSFER:R:1.0.0:1 rest") = Done (Some "R"%byte, true).
Proof. reflexivity. Qed.

Example detect_flag_ten :
  detectTrzsz (bs "::TRZSZ:TRANSFER:R:1.0.0:10") = Done (Some "R"%byte, false).
Proof. reflexivity. Qed.

Example detect_second_marker :
  detectTrzsz (bs "::TRZSZ:TRANSFER:X:1.0.0 ::TRZSZ:TRANSFER:S:1.0.0:1")
  = Done (Some "S"%byte, true).
Proof. reflexivity. Qed.

Example detect_none :
  detectTrzsz (bs "::TRZSZ:TRANSFER:S:1.0") = Done (None, false).
Proof. reflexivity. Qed.

Example trim_ascii :
  GoStrings.TrimSpace (bs "  /tmp/dl " ++ [x09; x0d]) = bs "/tmp/dl".
Proof. reflexivity. Qed.

Example trim_nbsp :
  GoStrings.TrimSpace ([xc2; xa0] ++ bs "a b" ++ [xe3; x80; x80; x20]) = bs "a b".
Proof. reflexivity. Qed.

Example trim_keeps_broken_utf8 :
  GoStrings.TrimSpace ([x20; xa0] ++ bs "a" ++ [xc2]) = xa0 :: bs "a" ++ [xc2].
Proof. reflexivity. Qed.


(** ** Bytes and searching *)

Lemma byte_eqb_eq (a b : byte) : Byte.eqb a b = true <-> a = b.
Proof.
  split; [apply byte_dec_bl | apply byte_dec_lb].
Qed.

Lemma byte_eqb_refl (a : byte) : Byte.eqb a a = true.
Proof. now apply byte_eqb_eq. Qed.

Lemma bytes_eqb_eq (a b : bytes) : bytes_eqb a b = true <-> a = b.
Proof.
  revert b; induction a as [|x a IH]; intros [|y b]; simpl;
    try (split; [discriminate | intros E; discriminate E]); try tauto.
  rewrite andb_true_iff, byte_eqb_eq, IH.
  split; [intros [-> ->]; reflexivity | intros E; injection E; auto].
Qed.

Lemma takeWhile_dropWhile p (s : bytes) : takeWhile p s ++ dropWhile p s = s.
Proof.
  induction s as [|x s IH]; simpl; [reflexivity|].
  destruct (p x); simpl; [now rewrite IH | reflexivity].
Qed.

Lemma startsWith_dropWhile p (s : bytes) : startsWith p (dropWhile p s) = false.
Proof.
  induction s as [|x s IH]; simpl; [reflexivity|].
  destruct (p x) eqn:E; simpl; [exact IH | exact E].
Qed.

Lemma dropWhile_stop p (s : bytes) : startsWith p s = false -> dropWhile p s = s.
Proof.
  destruct s as [|x s]; simpl; [reflexivity|]. now intros ->.
Qed.

Lemma dropWhile_app p (ds t : bytes) :
  Forall (fun c => p c = true) ds -> dropWhile p (ds ++ t) = dropWhile p t.
Proof.
  induction 1 as [|x ds Hx _ IH]; simpl; [reflexivity|]. now rewrite Hx.
Qed.

Lemma skipn_app_exact (A : Type) (l t : list A) : skipn (length l) (l ++ t) = t.
Proof.
  induction l; simpl; auto.
Qed.

Lemma firstn_app_exact (A : Type) (l t : list A) : firstn (length l) (l ++ t) = l.
Proof.
  induction l; simpl; [now destruct t | now f_equal].
Qed.

Lemma HasPrefix_spec (s l : bytes) :
  GoBytes.HasPrefix s l = true <-> exists t, s = l ++ t.
Proof.
  revert s; induction l as [|c l IH]; intros s; simpl.
  - split; [intros _; now exists s | reflexivity].
  - destruct s as [|x s].
    + split; [discriminate | intros [t E]; discriminate E].
    + rewrite andb_true_iff, byte_eqb_eq, IH. split.
      * intros [-> [t ->]]. now exists t.
      * intros [t E]. injection E as -> ->. split; [reflexivity | now exists t].
Qed.

(** [index_of] finds the first occurrence: [sep] stands at the position it
    returns and at no earlier one. *)
Lemma index_of_Some (s sep : bytes) (j : nat) :
  GoBytes.index_of s sep = Some j ->
  GoBytes.HasPrefix (skipn j s) sep = true
  /\ j <= length s
  /\ forall i, i < j -> GoBytes.HasPrefix (skipn i s) sep = false.
Proof.
  revert j; induction s as [|x s IH]; intros j; simpl.
  - destruct (GoBytes.HasPrefix [] sep) eqn:E; [|discriminate].
    intros [= <-]. repeat split; [exact E | lia | intros i Hi; lia].
  - destruct (GoBytes.HasPrefix (x :: s) sep) eqn:E.
    + intros [= <-]. repeat split; [exact E | lia | intros i Hi; lia].
    + destruct (GoBytes.index_of s sep) as [j'|] eqn:E'; [|discriminate].
      simpl. intros [= <-]. destruct (IH j' eq_refl) as (H1 & H2 & H3).
      repeat split; [exact H1 | lia |].
      intros [|i] Hi; [exact E | apply H3; lia].
Qed.

Lemma index_of_None (s sep : bytes) :
  GoBytes.index_of s sep = None ->
  forall i, GoBytes.HasPrefix (skipn i s) sep = false.
Proof.
  induction s as [|x s IH]; simpl.
  - destruct (GoBytes.HasPrefix [] sep) eqn:E; [discriminate|].
    intros _ i. now rewrite skipn_nil.
  - destruct (GoBytes.HasPrefix (x :: s) sep) eqn:E; [discriminate|].
    destruct (GoBytes.index_of s sep) eqn:E'; [discriminate|].
    intros _ [|i]; [exact E | now apply IH].
Qed.

Lemma Contains_app (pre sep post : bytes) :
  GoBytes.Contains (pre ++ sep ++ post) sep = true.
Proof.
  unfold GoBytes.Contains, GoBytes.Index.
  destruct (GoBytes.index_of (pre ++ sep ++ post) sep) as [j|] eqn:E.
  - apply negb_true_iff, Z.eqb_neq. lia.
  - pose proof (index_of_None _ _ E (length pre)) as H.
    rewrite skipn_app_exact in H.
    assert (GoBytes.HasPrefix (sep ++ post) sep = true)
      by (apply HasPrefix_spec; now exists post).
    congruence.
Qed.

(** ** The backtracking search against the language of a pattern *)

Import Regexp.

Lemma consumed_app (a b : bytes) : consumed (a ++ b) b = a.
Proof.
  unfold consumed. rewrite length_app.
  replace (length a + length b - length b) with (length a) by lia.
  apply firstn_app_exact.
Qed.

Lemma matches_Rep1 p (ds : bytes) :
  ds <> [] -> Forall (fun c => p c = true) ds -> matches (Rep1 p) ds.
Proof.
  intros Hne H. induction H as [|x ds Hx H IH]; [congruence|].
  destruct ds as [|y ds]; [now constructor|].
  apply MRep1_more; [exact Hx | apply IH; discriminate].
Qed.

Lemma matches_Rep1_inv p (s : bytes) :
  matches (Rep1 p) s -> s <> [] /\ Forall (fun c => p c = true) s.
Proof.
  intros H. remember (Rep1 p) as r eqn:Er.
  induction H; try discriminate; injection Er as ->.
  - split; [discriminate | now repeat constructor].
  - split; [discriminate | constructor; [assumption | now apply IHmatches]].
Qed.

Lemma matches_lits (l : bytes) : matches (lits l) l.
Proof.
  induction l as [|c l IH]; simpl; [constructor|].
  change (c :: l) with ([c] ++ l). constructor; [constructor | exact IH].
Qed.

Section Search.
Variable R : Type.
Implicit Types (k : bytes -> captures -> option R) (v : R).

(** Whatever [star] returns, its continuation returned on a suffix left
    after a run of bytes of the class. *)
Lemma star_sound p s (k1 : bytes -> option R) v :
  star p s k1 = Some v ->
  exists ds t, s = ds ++ t /\ Forall (fun c => p c = true) ds /\ k1 t = Some v.
Proof.
  induction s as [|x s IH]; simpl.
  - intros H. now exists [], [].
  - destruct (p x) eqn:Hx.
    + destruct (star p s k1) as [w|] eqn:E.
      * intros [= ->]. destruct (IH eq_refl) as (ds & t & -> & Hds & Hk).
        exists (x :: ds), t. repeat split; [now constructor | exact Hk].
      * intros H. now exists [], (x :: s).
    + intros H. now exists [], (x :: s).
Qed.

(** [star] is greedy: when the continuation accepts what follows the
    longest run, that is the answer. *)
Lemma star_longest p s (k1 : bytes -> option R) :
  k1 (dropWhile p s) <> None -> star p s k1 = k1 (dropWhile p s).
Proof.
  induction s as [|x s IH]; simpl; [reflexivity|].
  destruct (p x); [|reflexivity].
  intros H. rewrite (IH H). now destruct (k1 (dropWhile p s)).
Qed.

(** When the continuation refuses every string that starts with a byte of
    the class, only the longest run is left to it. *)
Lemma star_only_longest p s (k1 : bytes -> option R) :
  (forall x t, p x = true -> k1 (x :: t) = None) ->
  star p s k1 = k1 (dropWhile p s).
Proof.
  intros Hk. induction s as [|x s IH]; simpl; [reflexivity|].
  destruct (p x) eqn:Hx; [|reflexivity].
  rewrite IH. destruct (k1 (dropWhile p s)); [reflexivity | now apply Hk].
Qed.

Lemma star_complete p ds t (k1 : bytes -> option R) :
  Forall (fun c => p c = true) ds -> k1 t <> None ->
  star p (ds ++ t) k1 <> None.
Proof.
  induction 1 as [|x ds Hx _ IH]; intros Hk; simpl.
  - destruct t as [|y t]; simpl; [exact Hk|].
    destruct (p y); [|exact Hk]. now destruct (star p t k1).
  - rewrite Hx. specialize (IH Hk). now destruct (star p (ds ++ t) k1).
Qed.

(** Soundness: an answer of [run] is an answer of its continuation on
    what is left after a word of the pattern's language. *)
Lemma run_sound r : forall s cs k v,
  run r s cs k = Some v ->
  exists s1 s2 cs', s = s1 ++ s2 /\ matches r s1 /\ k s2 cs' = Some v.
Proof.
  induction r as [|c|p|r1 IH1 r2 IH2|p|r IH|i r IH]; intros s cs k v; simpl.
  - intros H. exists [], s, cs. repeat split; [constructor | exact H].
  - destruct s as [|x s]; [discriminate|].
    destruct (Byte.eqb c x) eqn:E; [|discriminate].
    apply byte_eqb_eq in E as <-. intros H.
    exists [c], s, cs. repeat split; [constructor | exact H].
  - destruct s as [|x s]; [discriminate|].
    destruct (p x) eqn:E; [|discriminate]. intros H.
    exists [x], s, cs. repeat split; [now constructor | exact H].
  - intros H. apply IH1 in H as (s1 & s2 & cs1 & -> & M1 & H).
    apply IH2 in H as (s3 & s4 & cs2 & -> & M2 & H).
    exists (s1 ++ s3), s4, cs2. rewrite app_assoc.
    repeat split; [now constructor | exact H].
  - destruct s as [|x s]; [discriminate|].
    destruct (p x) eqn:E; [|discriminate]. intros H.
    apply star_sound in H as (ds & t & -> & Hds & H).
    exists (x :: ds), t, cs. repeat split; [|exact H].
    apply matches_Rep1; [discriminate | now constructor].
  - destruct (run r s cs k) as [w|] eqn:E.
    + intros [= ->]. apply IH in E as (s1 & s2 & cs1 & -> & M & H).
      exists s1, s2, cs1. repeat split; [now constructor | exact H].
    + intros H. exists [], s, cs. repeat split; [constructor | exact H].
  - intros H. apply IH in H as (s1 & s2 & cs1 & -> & M & H).
    exists s1, s2, (set_cap i (consumed (s1 ++ s2) s2) cs1).
    repeat split; [now constructor | exact H].
Qed.

(** Completeness: when a word of the language stands at the head and the
    continuation accepts the rest, the search does not fail. *)
Lemma run_complete r s1 : matches r s1 -> forall s2 cs k,
  (forall cs', k s2 cs' <> None) -> run r (s1 ++ s2) cs k <> None.
Proof.
  induction 1 as [|c|p c Hc|r1 r2 s1 s3 _ IH1 _ IH2|p c Hc|p c s Hc M IH
                  |r|r s _ IH|i r s _ IH]; intros s2 cs k Hk; simpl.
  - apply Hk.
  - rewrite byte_eqb_refl. apply Hk.
  - rewrite Hc. apply Hk.
  - rewrite <- app_assoc. apply IH1. intros cs'. now apply IH2.
  - rewrite Hc. apply (star_complete p (ds := [])); [constructor | apply Hk].
  - rewrite Hc. apply matches_Rep1_inv in M as [_ HF].
    apply star_complete; [exact HF | apply Hk].
  - specialize (Hk cs). now destruct (run r s2 cs k).
  - specialize (IH s2 cs k Hk). now destruct (run r (s ++ s2) cs k).
  - apply IH. intros cs'. apply Hk.
Qed.

End Search.

Lemma match_here_iff r (s : bytes) :
  match_here r s <> None <-> match_prefix r s.
Proof.
  unfold match_here, match_prefix. split.
  - destruct (run r s _ _) as [v|] eqn:E; [intros _ | congruence].
    apply run_sound in E as (s1 & s2 & cs' & -> & M & _). now exists s1, s2.
  - intros (s1 & s2 & -> & M). apply run_complete; [exact M | discriminate].
Qed.

(** [find] returns the leftmost position at which the anchored search
    succeeds, with the submatches found there. *)
Lemma find_Some r (s : bytes) i cs :
  find r s = Some (i, cs) ->
  i <= length s
  /\ (exists rest, match_here r (skipn i s) = Some (cs, rest))
  /\ forall j, j < i -> match_here r (skipn j s) = None.
Proof.
  revert i cs; induction s as [|x s IH]; intros i cs.
  - simpl. destruct (match_here r []) as [[cs0 rest]|] eqn:E; [|discriminate].
    intros [= <- <-]. repeat split; [lia | now exists rest | intros j Hj; lia].
  - cbn [find]. destruct (match_here r (x :: s)) as [[cs0 rest]|] eqn:E.
    + intros [= <- <-]. repeat split; [lia | now exists rest | intros j Hj; lia].
    + destruct (find r s) as [[i' cs']|] eqn:E'; [|discriminate].
      intros [= <- <-]. destruct (IH i' cs' eq_refl) as (H1 & H2 & H3).
      repeat split; [simpl; lia | exact H2 |].
      intros [|j] Hj; [exact E | apply H3; lia].
Qed.




(** ** The trigger pattern, step by step *)

Section TriggerSteps.
Variable R : Type.
Implicit Types (k : bytes -> captures -> option R) (v : R).

Lemma run_lits_inv l r s cs k v :
  run (Cat (lits l) r) s cs k = Some v ->
  exists t, s = l ++ t /\ run r t cs k = Some v.
Proof.
  revert s; induction l as [|c l IH]; intros s; simpl.
  - intros H. now exists s.
  - destruct s as [|x s]; [discriminate|].
    destruct (Byte.eqb c x) eqn:E; [|discriminate].
    apply byte_eqb_eq in E as <-. intros H.
    apply IH in H as (t & -> & H). now exists t.
Qed.

Lemma run_Lit_inv c r s cs k v :
  run (Cat (Lit c) r) s cs k = Some v ->
  exists t, s = c :: t /\ run r t cs k = Some v.
Proof.
  simpl. destruct s as [|x s]; [discriminate|].
  destruct (Byte.eqb c x) eqn:E; [|discriminate].
  apply byte_eqb_eq in E as <-. intros H. now exists s.
Qed.

Lemma run_Cap_Class_inv i p r s cs k v :
  run (Cat (Cap i (Class p)) r) s cs k = Some v ->
  exists x t, s = x :: t /\ p x = true
              /\ run r t (set_cap i [x] cs) k = Some v.
Proof.
  cbn [run]. destruct s as [|x s]; [discriminate|].
  destruct (p x) eqn:E; [|discriminate]. intros H.
  exists x, s. repeat split; [exact E|].
  change (x :: s) with ([x] ++ s) in H.
  now rewrite (consumed_app [x] s) in H.
Qed.

(** A run of the class followed by a literal outside the class: the run
    is the longest one. *)
Lemma run_Rep1_Lit_inv p c r s cs k v :
  p c = false ->
  run (Cat (Rep1 p) (Cat (Lit c) r)) s cs k = Some v ->
  exists ds t, s = ds ++ c :: t /\ ds <> []
               /\ Forall (fun x => p x = true) ds
               /\ run r t cs k = Some v.
Proof.
  intros Hc. cbn [run]. destruct s as [|x s]; [discriminate|].
  destruct (p x) eqn:Hx; [|discriminate].
  rewrite star_only_longest.
  - destruct (dropWhile p s) as [|y t] eqn:Ed; [discriminate|].
    destruct (Byte.eqb c y) eqn:E; [|discriminate].
    apply byte_eqb_eq in E as <-. intros H.
    exists (x :: takeWhile p s), t. repeat split; [| discriminate | | exact H].
    + simpl. f_equal. now rewrite <- Ed, takeWhile_dropWhile.
    + constructor; [exact Hx|]. clear. induction s as [|y s IH]; simpl;
        [constructor|]. destruct (p y) eqn:E; now constructor.
  - intros y t Hy. destruct (Byte.eqb c y) eqn:E; [|reflexivity].
    apply byte_eqb_eq in E as <-. congruence.
Qed.

(** A run of the class followed by a continuation that never fails: the
    run is the longest one. *)
Lemma run_Rep1_total_inv p s cs k v :
  (forall t, k t cs <> None) ->
  run (Rep1 p) s cs k = Some v ->
  exists ds t, s = ds ++ t /\ ds <> []
               /\ Forall (fun x => p x = true) ds
               /\ startsWith p t = false
               /\ k t cs = Some v.
Proof.
  intros Hk. cbn [run]. destruct s as [|x s]; [discriminate|].
  destruct (p x) eqn:Hx; [|discriminate].
  rewrite star_longest by apply Hk. intros H.
  exists (x :: takeWhile p s), (dropWhile p s).
  repeat split; [| discriminate | | apply startsWith_dropWhile | exact H].
  - simpl. f_equal. now rewrite takeWhile_dropWhile.
  - constructor; [exact Hx|]. clear. induction s as [|y s IH]; simpl;
      [constructor|]. destruct (p y) eqn:E; now constructor.
Qed.

Lemma run_Cap_unfold i r1 r2 s cs k :
  run (Cat (Cap i r1) r2) s cs k
  = run r1 s cs
        (fun rest cs' => run r2 rest (set_cap i (consumed s rest) cs') k).
Proof. reflexivity. Qed.

Lemma run_Quest_total r s cs k :
  (forall t cs', k t cs' <> None) -> run (Quest r) s cs k <> None.
Proof.
  intros Hk. simpl. destruct (run r s cs k); [discriminate | apply Hk].
Qed.

End TriggerSteps.

Lemma isDigit_not_dot : isDigit "." = false.
Proof. reflexivity. Qed.

Lemma digits_intro (d : bytes) :
  d <> [] -> Forall (fun c => isDigit c = true) d -> digits d.
Proof. now split. Qed.

Lemma startsFlag_true (s : bytes) :
  startsFlag s = true ->
  exists x t, s = ":"%byte :: x :: t /\ isDigit x = true.
Proof.
  destruct s as [|c [|x t]]; simpl; try discriminate.
  rewrite andb_true_iff, byte_eqb_eq. intros [<- Hx]. now exists x, t.
Qed.

(** What an anchored match of the trigger pattern looks like: the marker,
    the mode, the version, the flag if a colon and digits follow, each run
    of digits as long as it can be. *)
Lemma match_here_trzsz (s : bytes) cs rest :
  match_here trzszRegexp s = Some (cs, rest) ->
  exists m d1 d2 d3 flag,
    let ver := d1 ++ "."%byte :: d2 ++ "."%byte :: d3 in
    s = kMarker ++ m :: ":"%byte :: ver ++ flag ++ rest
    /\ isSR m = true /\ digits d1 /\ digits d2 /\ digits d3
    /\ (flag = [] \/ exists d4, flag = ":"%byte :: d4 /\ digits d4)
    /\ startsWith isDigit rest = false
    /\ (flag = [] -> startsFlag rest = false)
    /\ cs = [Some (consumed s rest); Some [m]; Some ver;
             match flag with [] => None | _ => Some flag end].
Proof.
  unfold match_here.
  change (repeat None (S (NumSubexp trzszRegexp)))
    with ([None; None; None; None] : captures).
  set (k0 := fun (rest0 : bytes) (cs0 : captures) =>
               Some (set_cap 0 (consumed s rest0) cs0, rest0)).
  assert (Hk0 : forall t cs', k0 t cs' <> None) by (intros; discriminate).
  unfold trzszRegexp. intros H.
  apply run_lits_inv in H as (t1 & Es & H).
  apply run_Cap_Class_inv in H as (m & t2 & -> & Hm & H).
  apply run_Lit_inv in H as (t3 & -> & H).
  rewrite run_Cap_unfold in H. unfold versionRe in H.
  cbn [set_cap] in H.
  apply run_Rep1_Lit_inv in H as (d1 & t4 & E3 & N1 & F1 & H);
    [|exact isDigit_not_dot].
  apply run_Rep1_Lit_inv in H as (d2 & t5 & -> & N2 & F2 & H);
    [|exact isDigit_not_dot].
  apply run_Rep1_total_inv in H as (d3 & t6 & -> & N3 & F3 & G3 & H);
    [|intros t; apply run_Quest_total, Hk0].
  assert (Ec : consumed t3 t6 = d1 ++ "."%byte :: d2 ++ "."%byte :: d3).
  { rewrite E3. rewrite <- (consumed_app (d1 ++ "."%byte :: d2 ++ "."%byte :: d3) t6).
    f_equal. list_eq. }
  rewrite Ec in H. clear Ec. subst t3.
  cbn [run] in H.
  match type of H with
  | match ?X with _ => _ end = _ => destruct X as [w|] eqn:E
  end.
  - injection H as ->. unfold flagRe in E.
    apply run_Lit_inv in E as (t & -> & E).
    apply run_Rep1_total_inv in E
      as (d4 & t7 & -> & N4 & F4 & G4 & E); [|intros t'; apply Hk0].
    unfold k0 in E. injection E as <- <-.
    exists m, d1, d2, d3, (":"%byte :: d4). cbn zeta.
    repeat split; auto.
    + rewrite Es. list_eq.
    + right. exists d4. now split.
    + discriminate.
    + change (":"%byte :: d4 ++ t7) with ((":"%byte :: d4) ++ t7).
      now rewrite consumed_app.
  - unfold k0 in H. injection H as <- <-.
    exists m, d1, d2, d3, []. cbn zeta.
    repeat split; auto.
    + rewrite Es. list_eq.
    + intros _. destruct (startsFlag t6) eqn:Ef; [|reflexivity].
      apply startsFlag_true in Ef as (x & t & -> & Hx). exfalso.
      revert E. change (":"%byte :: x :: t) with ([":"%byte; x] ++ t).
      match goal with
      | |- run ?r0 _ ?c0 ?kk = None -> _ =>
          apply (run_complete (r := r0) (s1 := [":"%byte; x]))
      end.
      * change [":"%byte; x] with ([":"%byte] ++ [x]).
        repeat constructor. exact Hx.
      * intros cs'. apply Hk0.
Qed.


(** The pieces of an anchored match, put together, are a word of the
    pattern's language. *)
Lemma trzsz_word (m : byte) (d1 d2 d3 flag : bytes) :
  isSR m = true -> digits d1 -> digits d2 -> digits d3 ->
  (flag = [] \/ exists d4, flag = ":"%byte :: d4 /\ digits d4) ->
  matches trzszRegexp
    (kMarker ++ m :: ":"%byte :: (d1 ++ "."%byte :: d2 ++ "."%byte :: d3) ++ flag).
Proof.
  intros Hm [N1 F1] [N2 F2] [N3 F3] Hf. unfold trzszRegexp.
  constructor; [apply matches_lits|].
  change (m :: ?t) with ([m] ++ t). constructor; [now repeat constructor|].
  change (":"%byte :: ?t) with ([":"%byte] ++ t). constructor; [constructor|].
  constructor.
  - constructor. unfold versionRe.
    constructor; [now apply matches_Rep1|].
    change ("."%byte :: ?t) with (["."%byte] ++ t). constructor; [constructor|].
    constructor; [now apply matches_Rep1|].
    change ("."%byte :: ?t) with (["."%byte] ++ t). constructor; [constructor|].
    now apply matches_Rep1.
  - destruct Hf as [-> | (d4 & -> & N4 & F4)]; [constructor|].
    apply MQuest_some. constructor. unfold flagRe.
    change (":"%byte :: d4) with ([":"%byte] ++ d4).
    constructor; [constructor | now apply matches_Rep1].
Qed.

(** What [detectTrzsz] returns is read off the leftmost match. *)
Lemma detectTrzsz_found (output : bytes) i whole m ver fl :
  GoBytes.Contains output kMarker = true ->
  find trzszRegexp output = Some (i, [Some whole; Some [m]; Some ver; fl]) ->
  detectTrzsz output = Done (Some m, bytes_eqb (string_of fl) (bs ":1")).
Proof.
  intros HC HF. unfold detectTrzsz, FindSubmatch. now rewrite HC, HF.
Qed.

Lemma detectTrzsz_not_found (output : bytes) :
  find trzszRegexp output = None -> detectTrzsz output = Done (None, false).
Proof.
  intros HF. unfold detectTrzsz, FindSubmatch. rewrite HF.
  now destruct (GoBytes.Contains output kMarker).
Qed.


(** [detectTrzsz] never panics: whenever the pattern matches, its first
    group holds one byte, so [match[1][0]] is within range. *)
Theorem detectTrzsz_total (output : bytes) :
  exists mode hint, detectTrzsz output = Done (mode, hint).
Proof.
  destruct (find trzszRegexp output) as [[i cs]|] eqn:EF.
  - pose proof (find_Some _ _ EF) as (_ & (rest & HM) & _).
    apply match_here_trzsz in HM
      as (m & d1 & d2 & d3 & flag & _ & _ & _ & _ & _ & _ & _ & _ & ->).
    unfold detectTrzsz, FindSubmatch. rewrite EF.
    destruct (negb (GoBytes.Contains output kMarker)); eexists; eexists;
      reflexivity.
  - rewrite (detectTrzsz_not_found _ EF). now exists None, false.
Qed.

(** ** The output pump *)

Lemma terminal_bytes_app (a b : list event) :
  terminal_bytes (a ++ b) = terminal_bytes a ++ terminal_bytes b.
Proof.
  induction a as [|e a IH]; simpl; [reflexivity|].
  destruct e; simpl; rewrite IH; try reflexivity. apply app_assoc.
Qed.

Lemma receive_queue_app t (a b : list event) :
  receive_queue t (a ++ b) = receive_queue t a ++ receive_queue t b.
Proof.
  induction a as [|e a IH]; simpl; [reflexivity|].
  destruct e; simpl; try exact IH.
  destruct (Nat.eqb t t0); rewrite IH; [apply app_assoc | reflexivity].
Qed.

(** A pass of the output pump that finds a session active hands it the
    chunk and does nothing else. *)
Lemma wrapOutput_iter_active trimVT100 dragFile g r t :
  err r = None -> data r <> [] -> gTransfer g = Some t ->
  wrapOutput_iter trimVT100 dragFile g r
  = ([AddReceivedData t (data r)], Continue).
Proof.
  intros He Hd Ht. unfold wrapOutput_iter. rewrite He, Ht.
  destruct (data r); [contradiction | reflexivity].
Qed.

(** C1 (amended). Session blackout.  A chunk the output pump reads while a
    session is active is appended whole to that session's receive queue and
    nothing is written to the terminal.  A chunk read while no session is
    active and in which no trigger is found is written to the terminal
    verbatim unless the pump is interrupting or dragged files are pending:
    in the latter case it is written verbatim as long as what is left of it
    after [trimVT100] and after trimming line ends is none of "trz", the
    empty string and a double quote. *)
Theorem wrapOutput_blackout trimVT100 dragFile g r :
  err r = None -> data r <> [] ->
  (forall t, gTransfer g = Some t ->
     let evs := fst (wrapOutput_iter trimVT100 dragFile g r) in
     evs = [AddReceivedData t (data r)]
     /\ receive_queue t evs = data r
     /\ terminal_bytes evs = [])
  /\ (gTransfer g = None -> detectTrzsz (data r) = Done (None, false) ->
      gInterrupting g = false ->
      (dragFile = false \/ gDragFiles g = None
       \/ let output := TrimRight (trimVT100 (data r)) kCRLF in
          output <> bs "trz" /\ output <> [] /\ output <> kQuote) ->
      let evs := fst (wrapOutput_iter trimVT100 dragFile g r) in
      evs = [StdoutWrite (data r)] /\ terminal_bytes evs = data r).
Proof.
  intros He Hd. split.
  - intros t Ht. rewrite (wrapOutput_iter_active _ _ _ _ He Hd Ht). simpl.
    rewrite Nat.eqb_refl, app_nil_r. auto.
  - intros Ht Hdet Hint Hdrag. unfold wrapOutput_iter.
    rewrite He, Ht, Hdet, Hint.
    destruct (data r) as [|c d] eqn:E; [contradiction|].
    assert (W : terminal_bytes [StdoutWrite (c :: d)] = c :: d)
      by (simpl; now rewrite app_nil_r).
    destruct (gDragFiles g) as [files|]; [|now split].
    destruct Hdrag as [-> | [Hn | (H1 & H2 & H3)]];
      [now split | discriminate |].
    destruct dragFile; [|now split]. cbn [negb].
    destruct (bytes_eqb _ (bs "trz")) eqn:E1;
      [apply bytes_eqb_eq in E1; contradiction|].
    destruct (bytes_eqb _ []) eqn:E2;
      [apply bytes_eqb_eq in E2; contradiction|].
    destruct (bytes_eqb _ kQuote) eqn:E3;
      [apply bytes_eqb_eq in E3; contradiction|].
    now split.
Qed.

Lemma wrapOutput_blackout_witness :
  let g1 := {| gDragFiles := None; gDragHasDir := false;
               gInterrupting := false; gTransfer := Some 7 |} in
  let g0 := {| gDragFiles := None; gDragHasDir := false;
               gInterrupting := false; gTransfer := None |} in
  let r := {| data := bs "#ACT:12"; err := None |} in
  (err r = None /\ data r <> [])
  /\ (fst (wrapOutput_iter (fun b => b) true g1 r)
        = [AddReceivedData 7 (bs "#ACT:12")]
      /\ terminal_bytes (fst (wrapOutput_iter (fun b => b) true g1 r)) = [])
  /\ fst (wrapOutput_iter (fun b => b) true g0 r) = [StdoutWrite (bs "#ACT:12")].
Proof.
  cbv zeta.
  assert (H1 : err {| data := bs "#ACT:12"; err := None |} = None)
    by reflexivity.
  assert (H2 : data {| data := bs "#ACT:12"; err := None |} <> [])
    by discriminate.
  split; [split; [exact H1 | exact H2]|].
  split.
  - destruct (@wrapOutput_blackout (fun b => b) true
                {| gDragFiles := None; gDragHasDir := false;
                   gInterrupting := false; gTransfer := Some 7 |} _ H1 H2)
      as [A _].
    destruct (A 7 eq_refl) as (Q1 & _ & Q3). split; [exact Q1 | exact Q3].
  - destruct (@wrapOutput_blackout (fun b => b) true
                {| gDragFiles := None; gDragHasDir := false;
                   gInterrupting := false; gTransfer := None |} _ H1 H2)
      as [_ B].
    apply B; [reflexivity | reflexivity | reflexivity | right; left; reflexivity].
Defined.

(** With no session active, no trigger in the chunk and the pump
    interrupting, the chunk is swallowed: a chunk without trigger read while
    no session is active is not always written to the terminal.  The state
    is one the wrapper reaches in drag mode: a path was dragged into the
    terminal, and [uploadDragFiles] has sent its interrupt and not yet typed
    the command. *)
Lemma wrapOutput_interrupting_swallows :
  let detect (b : bytes) :=
    if GoBytes.HasPrefix b (bs "/") then (Some [b], false)
    else (None, false) in
  let g := {| gDragFiles := Some [bs "/home/u/a.txt"]; gDragHasDir := false;
              gInterrupting := true; gTransfer := None |} in
  let r := {| data := bs "^C"; err := None |} in
  reachable false detect (fun b => b) true
    {| w_globals := g;
       w_trace := [Go UploadDragFiles; PtyStdinWrite [x03]];
       w_sessions := [] |}
  /\ gTransfer g = None
  /\ detectTrzsz (data r) = Done (None, false)
  /\ terminal_bytes (fst (wrapOutput_iter (fun b => b) true g r)) = []
  /\ terminal_bytes (fst (wrapOutput_iter (fun b => b) true g r)) <> data r.
Proof.
  cbv zeta. split; [|repeat split; discriminate].
  set (detect := fun b : bytes =>
                   if GoBytes.HasPrefix b (bs "/") then (Some [b], false)
                   else (@None (list bytes), false)).
  pose proof (reach_step (reach_start false detect (fun b => b) true)
                (@step_input false detect (fun b => b) true wrapper_start
                   {| data := bs "/home/u/a.txt"; err := None |}
                   _ _ _ eq_refl)) as R1.
  match type of R1 with
  | reachable _ _ _ _ ?w =>
      exact (reach_step R1
               (@step_drag_interrupt false detect (fun b => b) true w
                  _ [PtyStdinWrite [x03]] true eq_refl))
  end.
Qed.

(** Blackout over a run of the output pump.  As long as every pass finds
    the session [t] current and the child's output has not ended, the pump
    writes nothing to the terminal, and the session's receive queue is the
    chunks read, in the order of their arrival. *)
Theorem wrapOutput_blackout_run trimVT100 dragFile t
        (reads : list (globals * read_result)) :
  Forall (fun gr => gTransfer (fst gr) = Some t /\ err (snd gr) <> Some EOF)
         reads ->
  terminal_bytes (wrapOutput trimVT100 dragFile reads) = []
  /\ receive_queue t (wrapOutput trimVT100 dragFile reads) = chunks_read reads.
Proof.
  induction 1 as [|[g r] reads [Ht He] _ [IH1 IH2]]; [now split|].
  cbn [fst snd] in Ht, He. cbn [wrapOutput chunks_read].
  destruct (err r) as [[|]|] eqn:E; [congruence | |].
  - assert (W : wrapOutput_iter trimVT100 dragFile g r = ([], Continue))
      by (unfold wrapOutput_iter; now rewrite E; destruct (data r)).
    rewrite W. cbn [app]. now split.
  - destruct (data r) as [|c d] eqn:D.
    + assert (W : wrapOutput_iter trimVT100 dragFile g r = ([], Continue))
        by (unfold wrapOutput_iter; now rewrite E, D).
      rewrite W. cbn [app]. now split.
    + assert (N : data r <> []) by (rewrite D; discriminate).
      rewrite (wrapOutput_iter_active trimVT100 dragFile g r E N Ht), D.
      cbn [app terminal_bytes receive_queue]. rewrite Nat.eqb_refl, IH2.
      now split.
Qed.

Lemma wrapOutput_blackout_run_witness :
  let g := {| gDragFiles := None; gDragHasDir := false;
              gInterrupting := false; gTransfer := Some 3 |} in
  let reads := [(g, {| data := bs "#NUM:1"; err := None |});
                (g, {| data := []; err := Some OtherError |});
                (g, {| data := bs "#NAME:a.txt"; err := None |})] in
  terminal_bytes (wrapOutput (fun b => b) true reads) = []
  /\ receive_queue 3 (wrapOutput (fun b => b) true reads)
     = bs "#NUM:1#NAME:a.txt".
Proof.
  cbv zeta.
  apply (@wrapOutput_blackout_run (fun b => b) true 3).
  repeat constructor; discriminate.
Defined.

(** ** The echo of the trigger *)

Lemma Replace_first (s old new : bytes) j :
  GoBytes.index_of s old = Some j ->
  GoBytes.Replace s old new 1 = firstn j s ++ new ++ skipn (j + length old) s.
Proof.
  intros H. simpl. now rewrite H.
Qed.

Lemma detectTrzsz_Some_find (output : bytes) m h :
  detectTrzsz output = Done (Some m, h) ->
  exists i cs, find trzszRegexp output = Some (i, cs).
Proof.
  destruct (find trzszRegexp output) as [[i cs]|] eqn:E; [eauto|].
  rewrite (detectTrzsz_not_found _ E). discriminate.
Qed.

(** The leftmost match starts with the marker, so [TRZSZ] stands two bytes
    into it. *)
Lemma find_marker (output : bytes) i cs :
  find trzszRegexp output = Some (i, cs) ->
  GoBytes.HasPrefix (skipn (i + 2) output) (bs "TRZSZ") = true.
Proof.
  intros EF. apply find_Some in EF as (_ & (rest & HM) & _).
  apply match_here_trzsz in HM as (m & d1 & d2 & d3 & flag & Es & _).
  cbn zeta in Es. rewrite Nat.add_comm, <- skipn_skipn, Es.
  apply HasPrefix_spec. eexists. unfold kMarker. cbn. reflexivity.
Qed.

(** The echo the output pump writes.  When the pump, with no session
    active, detects the trigger in a chunk, it writes to the terminal the
    chunk with its first occurrence of "TRZSZ" replaced by "TRZSZGO" (one
    replacement), and only then starts [handleTrzsz], which makes the
    session current.  The occurrence replaced is never later than the
    marker's own, and it is the marker's own, as the compatibility echo
    asks, whenever "TRZSZ" does not occur in the chunk before it. *)
Theorem wrapOutput_echo trimVT100 dragFile g r m h :
  err r = None -> gTransfer g = None ->
  detectTrzsz (data r) = Done (Some m, h) ->
  exists pre post,
    data r = pre ++ bs "TRZSZ" ++ post
    /\ (forall j, j < length pre ->
          GoBytes.HasPrefix (skipn j (data r)) (bs "TRZSZ") = false)
    /\ wrapOutput_iter trimVT100 dragFile g r
       = ([StdoutWrite (pre ++ bs "TRZSZGO" ++ post);
           Go (HandleTrzsz m h)], Continue)
    /\ exists i cs,
         find trzszRegexp (data r) = Some (i, cs)
         /\ length pre <= i + 2
         /\ ((forall j, j < i + 2 ->
                GoBytes.HasPrefix (skipn j (data r)) (bs "TRZSZ") = false) ->
             echo_of_marker (data r) = Some (pre ++ bs "TRZSZGO" ++ post)).
Proof.
  intros He Ht Hd.
  destruct (detectTrzsz_Some_find _ Hd) as (i & cs & EF).
  pose proof (find_marker _ EF) as HP.
  destruct (GoBytes.index_of (data r) (bs "TRZSZ")) as [j|] eqn:EI;
    [|rewrite (index_of_None _ _ EI) in HP; discriminate].
  pose proof (index_of_Some _ _ EI) as (Hj & Hlen & Hmin).
  assert (Hji : j <= i + 2).
  { destruct (Nat.le_gt_cases j (i + 2)) as [L|L]; [exact L|].
    rewrite (Hmin _ L) in HP. discriminate. }
  apply HasPrefix_spec in Hj as (t & Et).
  assert (Ed : data r = firstn j (data r) ++ bs "TRZSZ" ++ t)
    by (now rewrite <- Et, firstn_skipn).
  assert (Ej : length (firstn j (data r)) = j) by (rewrite length_firstn; lia).
  assert (Es : skipn (j + length (bs "TRZSZ")) (data r) = t).
  { rewrite Nat.add_comm, <- skipn_skipn, Et. reflexivity. }
  exists (firstn j (data r)), t. split; [exact Ed|].
  split; [intros j' Hj'; apply Hmin; lia|].
  split.
  - unfold wrapOutput_iter. rewrite He, Ht, Hd.
    destruct (data r) as [|c d] eqn:E.
    + rewrite skipn_nil in HP. discriminate.
    + now rewrite (@Replace_first _ _ (bs "TRZSZGO") _ EI), Es.
  - exists i, cs. split; [exact EF|]. split; [lia|].
    intros Hno. unfold echo_of_marker. rewrite EF.
    assert (j = i + 2).
    { destruct (Nat.eq_dec j (i + 2)) as [E|N]; [exact E|].
      assert (L : j < i + 2) by lia.
      apply Hno in L. rewrite Et in L. discriminate. }
    subst j. do 3 f_equal. exact Es.
Qed.

Lemma wrapOutput_echo_witness :
  let g := {| gDragFiles := None; gDragHasDir := false;
              gInterrupting := false; gTransfer := None |} in
  let r := {| data := bs "$ tsz a::TRZSZ:TRANSFER:S:1.1.3:1234567890120";
              err := None |} in
  (err r = None /\ gTransfer g = None
   /\ detectTrzsz (data r) = Done (Some "S"%byte, false))
  /\ exists pre post,
       data r = pre ++ bs "TRZSZ" ++ post
       /\ wrapOutput_iter (fun b => b) false g r
          = ([StdoutWrite (pre ++ bs "TRZSZGO" ++ post);
              Go (HandleTrzsz "S" false)], Continue).
Proof.
  cbv zeta. split; [repeat split|].
  destruct (@wrapOutput_echo (fun b => b) false
              {| gDragFiles := None; gDragHasDir := false;
                 gInterrupting := false; gTransfer := None |}
              {| data := bs "$ tsz a::TRZSZ:TRANSFER:S:1.1.3:1234567890120";
                 err := None |} "S"%byte false eq_refl eq_refl eq_refl)
    as (pre & post & E & _ & W & _).
  exists pre, post. split; [exact E | exact W].
Defined.

(** C3. The compatibility echo misses the marker.  For a chunk in which
    "TRZSZ" occurs before the marker, [bytes.Replace] with count 1 rewrites
    that earlier occurrence: the trigger is detected and the session
    started, but the marker's own "TRZSZ" is written unchanged, where the
    echo should read "::TRZSZGO:"; what is written still holds a trigger
    that [detectTrzsz] detects. *)
Lemma wrapOutput_echo_rewrites_earlier :
  let g := {| gDragFiles := None; gDragHasDir := false;
              gInterrupting := false; gTransfer := None |} in
  let r := {| data := bs "TRZSZ ::TRZSZ:TRANSFER:S:1.0.0"; err := None |} in
  detectTrzsz (data r) = Done (Some "S"%byte, false)
  /\ fst (wrapOutput_iter (fun b => b) false g r)
     = [StdoutWrite (bs "TRZSZGO ::TRZSZ:TRANSFER:S:1.0.0");
        Go (HandleTrzsz "S" false)]
  /\ echo_of_marker (data r) = Some (bs "TRZSZ ::TRZSZGO:TRANSFER:S:1.0.0")
  /\ Some (bs "TRZSZGO ::TRZSZ:TRANSFER:S:1.0.0") <> echo_of_marker (data r)
  /\ detectTrzsz (bs "TRZSZGO ::TRZSZ:TRANSFER:S:1.0.0")
     = Done (Some "S"%byte, false)
  /\ detectTrzsz (bs "TRZSZ ::TRZSZGO:TRANSFER:S:1.0.0") = Done (None, false).
Proof.
  cbv zeta. repeat split. discriminate.
Qed.

(** ** The echo comes before the blackout *)

Lemma count_go_app (a b : list event) :
  count_go (a ++ b) = count_go a + count_go b.
Proof.
  induction a as [|e a IH]; simpl; [reflexivity|].
  destruct e as [| | | | | | |[]]; simpl; rewrite IH; reflexivity.
Qed.

(** What a pass of the output pump can do: hand a chunk to the current
    session, or echo a trigger and start a session, or neither queue nor
    start anything. *)
Lemma wrapOutput_iter_shape trimVT100 dragFile g r evs st :
  wrapOutput_iter trimVT100 dragFile g r = (evs, st) ->
  (exists t, gTransfer g = Some t /\ evs = [AddReceivedData t (data r)])
  \/ (exists m h,
        detectTrzsz (data r) = Done (Some m, h)
        /\ evs = [StdoutWrite (GoBytes.Replace (data r) (bs "TRZSZ")
                                               (bs "TRZSZGO") 1);
                  Go (HandleTrzsz m h)])
  \/ (count_go evs = 0 /\ forall t b, ~ In (AddReceivedData t b) evs).
Proof.
  unfold wrapOutput_iter.
  assert (Q : forall l : list event,
            (l = [] \/ exists b, l = [StdoutWrite b] \/ l = [StdoutClose]) ->
            count_go l = 0 /\ forall t b, ~ In (AddReceivedData t b) l).
  { intros l [-> | (b & [-> | ->])]; (split; [reflexivity|]);
      intros t b' H; simpl in H; intuition discriminate. }
  destruct (err r) as [[|]|].
  - intros [= <- _]. right. right. apply Q. right. exists []. now right.
  - intros [= <- _]. right. right. apply Q. now left.
  - destruct (data r) as [|c d] eqn:D;
      [intros [= <- _]; right; right; apply Q; now left|].
    destruct (gTransfer g) as [t|];
      [intros [= <- _]; left; now exists t|].
    destruct (detectTrzsz (c :: d)) as [[[m|] h]|] eqn:ED.
    + intros [= <- _]. right. left. now exists m, h.
    + destruct (gInterrupting g);
        [intros [= <- _]; right; right; apply Q; now left|].
      destruct (gDragFiles g);
        [|intros [= <- _]; right; right; apply Q; right; eexists; now left].
      destruct (negb dragFile);
        [intros [= <- _]; right; right; apply Q; right; eexists; now left|].
      destruct (bytes_eqb _ (bs "trz"));
        [intros [= <- _]; right; right; apply Q; right; eexists; now left|].
      destruct (_ || _); intros [= <- _]; right; right; apply Q;
        [now left | right; eexists; now left].
    + intros [= <- _]. right. right. apply Q. now left.
Qed.

Lemma wrapInput_body_shape detectDragFiles dragFile g buf e g' evs st :
  wrapInput_body detectDragFiles dragFile g buf e = (g', evs, st) ->
  gTransfer g' = gTransfer g
  /\ count_go evs = 0 /\ forall t b, ~ In (AddReceivedData t b) evs.
Proof.
  unfold wrapInput_body.
  assert (P : forall l : list event,
            (l = [] \/ (exists b, l = [PtyStdinWrite b])
             \/ (exists t, l = [StopTransferringFiles t])
             \/ l = [Go UploadDragFiles]) ->
            count_go l = 0 /\ forall t b, ~ In (AddReceivedData t b) l).
  { intros l [-> | [(b & ->) | [(t & ->) | ->]]]; (split; [reflexivity|]);
      intros t' b' H; simpl in H; intuition discriminate. }
  destruct e; [destruct buf; intros [= <- <- _]; split; auto|].
  destruct buf as [|c d]; [intros [= <- <- _]; split; auto|].
  destruct (gTransfer g) as [t|] eqn:T.
  - destruct (Byte.eqb c x03); intros [= <- <- _]; (split; [exact T|]);
      apply P; eauto.
  - destruct dragFile; [|intros [= <- <- _]; split; [exact T | apply P; eauto]].
    destruct (detectDragFiles (c :: d)) as [[files|] hasDir];
      destruct (gDragFiles g); intros [= <- <- _];
      (split; [try exact T; reflexivity | apply P; eauto]).
Qed.

Lemma wrapInput_iter_shape IsWindows detectDragFiles dragFile g r g' evs st :
  wrapInput_iter IsWindows detectDragFiles dragFile g r = (g', evs, st) ->
  gTransfer g' = gTransfer g
  /\ count_go evs = 0 /\ forall t b, ~ In (AddReceivedData t b) evs.
Proof.
  unfold wrapInput_iter.
  destruct (err r) as [[|]|]; try apply wrapInput_body_shape.
  destruct IsWindows; [apply wrapInput_body_shape|]. intros [= <- <- _].
  split; [reflexivity|]. split; [reflexivity|].
  intros t b H; simpl in H; intuition discriminate.
Qed.

Lemma count_go_zero (evs : list event) m h :
  count_go evs = 0 -> ~ In (Go (HandleTrzsz m h)) evs.
Proof.
  induction evs as [|e evs IH]; [intros _ []|].
  destruct e as [| | | | | | |[]]; cbn [count_go]; intros H [E|Hin];
    try discriminate; try (now apply IH).
Qed.

(** Where an event of [tr ++ evs] stands: in [tr], or in [evs]. *)
Lemma app_eq_event (A : Type) (tr evs before after : list A) (x : A) :
  tr ++ evs = before ++ x :: after ->
  (exists after', tr = before ++ x :: after' /\ after = after' ++ evs)
  \/ (exists pre, before = tr ++ pre /\ evs = pre ++ x :: after).
Proof.
  intros E. apply app_eq_app in E as (l & [[E1 E2] | [E1 E2]]).
  - destruct l as [|y l].
    + right. exists []. rewrite app_nil_r in E1. cbn [app] in *.
      subst. now rewrite app_nil_r.
    + injection E2 as <- ->. left. now exists l.
  - right. exists l. now split.
Qed.

(** Each session has its echo.  However the goroutines of the wrapper
    interleave: every [go handleTrzsz(m, h)] directly follows the write of
    the echo of a chunk in which the trigger with that mode and hint was
    detected; the sessions that have begun are distinct and no more than
    the [go] statements executed; the current session is one of them; and
    a chunk is handed to the receive queue of the session that was the
    [j]-th to begin (counting from 0) only after more than [j] such [go]
    statements, each with its echo, so after an echo for every session that
    began before it and one more. *)
Theorem echo_before_blackout IsWindows detectDragFiles trimVT100 dragFile w :
  reachable IsWindows detectDragFiles trimVT100 dragFile w ->
  (forall before m h after,
     w_trace w = before ++ Go (HandleTrzsz m h) :: after ->
     echo_precedes before m h)
  /\ NoDup (w_sessions w)
  /\ length (w_sessions w) <= count_go (w_trace w)
  /\ (forall t, gTransfer (w_globals w) = Some t -> In t (w_sessions w))
  /\ (forall before t b after,
        w_trace w = before ++ AddReceivedData t b :: after ->
        exists j, nth_error (w_sessions w) j = Some t
                  /\ j < count_go before).
Proof.
  intros Hr.
  induction Hr as [|w w' Hr (I1 & I2 & I3 & I4 & I5) Hs].
  - cbn. repeat split; try lia; try discriminate; [|constructor|].
    + intros [|e before] m h after H; discriminate H.
    + intros [|e before] t b after H; discriminate H.
  - assert (Quiet : forall g' evs,
              (forall t, gTransfer g' = Some t ->
                         gTransfer (w_globals w) = Some t) ->
              count_go evs = 0 ->
              (forall t b, ~ In (AddReceivedData t b) evs) ->
              (forall before m h after,
                 w_trace w ++ evs = before ++ Go (HandleTrzsz m h) :: after ->
                 echo_precedes before m h)
              /\ NoDup (w_sessions w)
              /\ length (w_sessions w) <= count_go (w_trace w ++ evs)
              /\ (forall t, gTransfer g' = Some t -> In t (w_sessions w))
              /\ (forall before t b after,
                    w_trace w ++ evs = before ++ AddReceivedData t b :: after ->
                    exists j, nth_error (w_sessions w) j = Some t
                              /\ j < count_go before)).
    { intros g' evs Hg Hc Hq. rewrite count_go_app, Hc, Nat.add_0_r.
      split; [|split; [exact I2 | split; [exact I3 | split; [auto|]]]].
      - intros before m h after E.
        apply app_eq_event in E as [(a' & E & _) | (pre & _ & E)];
          [exact (I1 _ _ _ _ E)|].
        exfalso. apply (@count_go_zero evs m h Hc). rewrite E.
        apply in_or_app. right. now left.
      - intros before t b after E.
        apply app_eq_event in E as [(a' & E & _) | (pre & _ & E)];
          [exact (I5 _ _ _ _ E)|].
        exfalso. apply (Hq t b). rewrite E. apply in_or_app. right. now left. }
    destruct Hs as [r evs st H | r g' evs st H | sg tw evs tw' H | t Hf Hl |
                    | g' evs go_on H | g' evs H |];
      cbn [w_globals w_trace w_sessions].
    + apply wrapOutput_iter_shape in H
        as [(t & Ht & ->) | [(m & h & Hd & ->) | (Hc & Hq)]].
      * rewrite count_go_app. cbn [count_go]. rewrite Nat.add_0_r.
        split; [|split; [exact I2 | split; [exact I3 | split; [exact I4|]]]].
        -- intros before m h after E.
           apply app_eq_event in E as [(a' & E & _) | (pre & _ & E)];
             [exact (I1 _ _ _ _ E)|].
           destruct pre as [|x [|y pre]]; discriminate E.
        -- intros before t' b after E.
           apply app_eq_event in E as [(a' & E & _) | (pre & Eb & E)];
             [exact (I5 _ _ _ _ E)|].
           destruct pre as [|x [|y pre]]; try discriminate E.
           injection E as <- <- _. rewrite app_nil_r in Eb. subst before.
           apply I4 in Ht. apply In_nth_error in Ht as (j & Hj).
           exists j. split; [exact Hj|].
           assert (j < length (w_sessions w))
             by (apply nth_error_Some; congruence).
           lia.
      * rewrite count_go_app. cbn [count_go].
        split; [|split; [exact I2 | split; [lia | split; [exact I4|]]]].
        -- intros before m' h' after E.
           apply app_eq_event in E as [(a' & E & _) | (pre & Eb & E)];
             [exact (I1 _ _ _ _ E)|].
           destruct pre as [|x [|y [|z pre]]]; try discriminate E.
           injection E as <- <- <- _. subst before.
           exists (w_trace w), (data r). now split.
        -- intros before t' b after E.
           apply app_eq_event in E as [(a' & E & _) | (pre & Eb & E)];
             [exact (I5 _ _ _ _ E)|].
           destruct pre as [|x [|y [|z pre]]]; discriminate E.
      * now apply (Quiet (w_globals w)).
    + apply wrapInput_iter_shape in H as (Hg & Hc & Hq).
      apply (Quiet g'); [intros t; now rewrite Hg | exact Hc | exact Hq].
    + assert (count_go evs = 0 /\ forall t b, ~ In (AddReceivedData t b) evs)
        as [Hc Hq].
      { unfold handleSignal_deliver in H.
        destruct sg; [destruct tw|destruct (gTransfer (w_globals w))];
          injection H as <- _; (split; [reflexivity|]);
          intros t' b' H'; simpl in H'; intuition discriminate. }
      now apply (Quiet (w_globals w)).
    + split; [exact I1|]. split.
      { apply NoDup_app; [exact I2 | repeat constructor; intros [] |].
        intros x Hx [<- | []]. contradiction. }
      split; [rewrite length_app; cbn [length]; lia|]. split.
      { intros t' [= <-]. apply in_or_app. right. now left. }
      intros before t' b after E.
      destruct (I5 _ _ _ _ E) as (j & Hj & Hlt).
      exists j. split; [|exact Hlt].
      rewrite nth_error_app1; [exact Hj|].
      apply nth_error_Some. congruence.
    + split; [exact I1|]. split; [exact I2|]. split; [exact I3|].
      split; [discriminate | exact I5].
    + unfold uploadDragFiles_interrupt in H.
      destruct (gDragFiles (w_globals w)); injection H as <- <- _.
      * apply (Quiet _ [PtyStdinWrite [x03]]); [auto | reflexivity|].
        intros t b H'; simpl in H'; intuition discriminate.
      * now apply (Quiet (w_globals w) []).
    + unfold uploadDragFiles_type in H. injection H as <- <-.
      apply (Quiet _ [PtyStdinWrite _]); [auto | reflexivity|].
      intros t b H'; simpl in H'; intuition discriminate.
    + rewrite <- (app_nil_r (w_trace w)).
      apply (Quiet (uploadDragFiles_clear (w_globals w)) []);
        [|reflexivity | intros t b []].
      unfold uploadDragFiles_clear.
      now destruct (gDragFiles (w_globals w)).
Qed.

Lemma echo_before_blackout_witness :
  let trigger (m : byte) :=
    {| data := bs "::TRZSZ:TRANSFER:" ++ m :: bs ":1.1.3:0123456789012";
       err := None |} in
  let echo (m : byte) :=
    [StdoutWrite (bs "::TRZSZGO:TRANSFER:" ++ m :: bs ":1.1.3:0123456789012");
     Go (HandleTrzsz m false)] in
  let w := {| w_globals := handleTrzsz_enter idle 2;
              w_trace := echo "R"%byte ++ [AddReceivedData 1 (bs "#ACT:")]
                         ++ echo "S"%byte ++ [AddReceivedData 2 (bs "#CFG:")];
              w_sessions := [1; 2] |} in
  reachable false (fun _ => (None, false)) (fun b => b) false w
  /\ exists j, nth_error (w_sessions w) j = Some 2 /\ j < 2.
Proof.
  cbv zeta.
  set (detect := fun _ : bytes => (@None (list bytes), false)).
  set (trigger := fun m : byte =>
                    {| data := bs "::TRZSZ:TRANSFER:"
                               ++ m :: bs ":1.1.3:0123456789012";
                       err := None |}).
  pose proof (reach_step (reach_start false detect (fun b => b) false)
                (@step_output false detect (fun b => b) false wrapper_start
                   (trigger "R"%byte) _ _ eq_refl)) as R1.
  match type of R1 with
  | reachable _ _ _ _ ?w =>
      pose proof (reach_step R1
                    (@step_enter false detect (fun b => b) false w 1
                       (fun H : False => H) (Nat.lt_0_succ 0))) as R2
  end.
  match type of R2 with
  | reachable _ _ _ _ ?w =>
      pose proof (reach_step R2
                    (@step_output false detect (fun b => b) false w
                       {| data := bs "#ACT:"; err := None |} _ _ eq_refl))
        as R3
  end.
  match type of R3 with
  | reachable _ _ _ _ ?w =>
      pose proof (reach_step R3
                    (@step_exit false detect (fun b => b) false w)) as R4
  end.
  match type of R4 with
  | reachable _ _ _ _ ?w =>
      pose proof (reach_step R4
                    (@step_output false detect (fun b => b) false w
                       (trigger "S"%byte) _ _ eq_refl)) as R5
  end.
  assert (N2 : ~ In 2 [1]) by (intros [H | []]; discriminate H).
  match type of R5 with
  | reachable _ _ _ _ ?w =>
      pose proof (reach_step R5
                    (@step_enter false detect (fun b => b) false w 2
                       N2 (Nat.lt_succ_diag_r 1))) as R6
  end.
  match type of R6 with
  | reachable _ _ _ _ ?w =>
      pose proof (reach_step R6
                    (@step_output false detect (fun b => b) false w
                       {| data := bs "#CFG:"; err := None |} _ _ eq_refl))
        as R7
  end.
  split; [exact R7|].
  destruct (echo_before_blackout R7) as (_ & _ & _ & _ & H5).
  exact (H5 _ 2 (bs "#CFG:") [] eq_refl).
Defined.

(** ** The input pump and the signal handler *)

(** C9. Input suppression during a transfer.  A chunk the input pump reads
    while a session is active is not forwarded: no byte reaches the child's
    stdin and the globals are left as they were.  The session's
    [stopTransferringFiles] is called exactly when the first byte of the
    chunk is 0x03; an interrupt byte further into the chunk has no effect. *)
Theorem wrapInput_suppressed IsWindows detectDragFiles dragFile g r t :
  err r = None -> gTransfer g = Some t ->
  let '(g', evs, st) := wrapInput_iter IsWindows detectDragFiles dragFile g r in
  g' = g /\ st = Continue
  /\ child_bytes evs = []
  /\ (evs = [StopTransferringFiles t] \/ evs = [])
  /\ (evs = [StopTransferringFiles t] <-> exists rest, data r = x03 :: rest).
Proof.
  intros He Ht. unfold wrapInput_iter, wrapInput_body. rewrite He, Ht.
  destruct (data r) as [|c d].
  - repeat split; auto; [discriminate | intros [rest E]; discriminate E].
  - destruct (Byte.eqb c x03) eqn:E.
    + apply byte_eqb_eq in E as ->. repeat split; eauto.
    + repeat split; auto; [discriminate|].
      intros [rest [= -> _]]. discriminate E.
Qed.

Lemma wrapInput_suppressed_witness :
  let g := {| gDragFiles := None; gDragHasDir := false;
              gInterrupting := false; gTransfer := Some 4 |} in
  (fst (fst (wrapInput_iter false (fun _ => (None, false)) false g
                {| data := x03 :: bs "ls"; err := None |}))
   = g
   /\ snd (fst (wrapInput_iter false (fun _ => (None, false)) false g
                 {| data := x03 :: bs "ls"; err := None |}))
      = [StopTransferringFiles 4])
  /\ snd (fst (wrapInput_iter false (fun _ => (None, false)) false g
                 {| data := bs "ls" ++ [x03]; err := None |}))
     = [].
Proof.
  cbv zeta. split.
  - pose proof (@wrapInput_suppressed false (fun _ => (None, false)) false
                  {| gDragFiles := None; gDragHasDir := false;
                     gInterrupting := false; gTransfer := Some 4 |}
                  {| data := x03 :: bs "ls"; err := None |} 4
                  eq_refl eq_refl) as H.
    destruct (wrapInput_iter _ _ _ _ _) as [[g' evs] st].
    destruct H as (H1 & _ & _ & _ & H5). split; [exact H1|].
    apply H5. now exists (bs "ls").
  - pose proof (@wrapInput_suppressed false (fun _ => (None, false)) false
                  {| gDragFiles := None; gDragHasDir := false;
                     gInterrupting := false; gTransfer := Some 4 |}
                  {| data := bs "ls" ++ [x03]; err := None |} 4
                  eq_refl eq_refl) as H.
    destruct (wrapInput_iter _ _ _ _ _) as [[g' evs] st].
    destruct H as (_ & _ & _ & [H4|H4] & H5); [|exact H4].
    apply H5 in H4 as [rest E]. discriminate E.
Defined.

(** C6 (amended). Interrupt routing.  When the interrupt signal is delivered
    while a session is active, the session's [stopTransferringFiles] is
    called.  When no session is active the signal handler does nothing: the
    signal is consumed and nothing is written to the child.  An interrupt
    the user types reaches the wrapper as the byte 0x03 on stdin, and it is
    the input pump that forwards it to the child when no session is active
    (here with drag-file detection off). *)
Theorem handleSignal_interrupt IsWindows detectDragFiles g term_waiting :
  (forall t, gTransfer g = Some t ->
     handleSignal_deliver g term_waiting SIGINT
     = ([StopTransferringFiles t], term_waiting))
  /\ (gTransfer g = None ->
      handleSignal_deliver g term_waiting SIGINT = ([], term_waiting)
      /\ child_bytes (fst (handleSignal_deliver g term_waiting SIGINT)) = [])
  /\ (gTransfer g = None ->
      wrapInput_iter IsWindows detectDragFiles false g
        {| data := [x03]; err := None |}
      = (g, [PtyStdinWrite [x03]], Continue)).
Proof.
  unfold handleSignal_deliver, wrapInput_iter, wrapInput_body. cbn [err data].
  split; [|split].
  - intros t ->. reflexivity.
  - intros ->. split; reflexivity.
  - intros ->. reflexivity.
Qed.

Lemma handleSignal_interrupt_witness :
  let g1 := {| gDragFiles := None; gDragHasDir := false;
               gInterrupting := false; gTransfer := Some 2 |} in
  let g0 := {| gDragFiles := None; gDragHasDir := false;
               gInterrupting := false; gTransfer := None |} in
  handleSignal_deliver g1 true SIGINT = ([StopTransferringFiles 2], true)
  /\ handleSignal_deliver g0 true SIGINT = ([], true).
Proof.
  cbv zeta. split.
  - apply (@handleSignal_interrupt false (fun _ => (None, false))
             {| gDragFiles := None; gDragHasDir := false;
                gInterrupting := false; gTransfer := Some 2 |} true).
    reflexivity.
  - apply (@handleSignal_interrupt false (fun _ => (None, false))
             {| gDragFiles := None; gDragHasDir := false;
                gInterrupting := false; gTransfer := None |} true).
    reflexivity.
Defined.

(** With no session active the delivery of the interrupt signal writes
    nothing to the child: the interrupt is not forwarded. *)
Lemma handleSignal_idle_drops :
  let g := {| gDragFiles := None; gDragHasDir := false;
              gInterrupting := false; gTransfer := None |} in
  gTransfer g = None
  /\ fst (handleSignal_deliver g true SIGINT) = []
  /\ child_bytes (fst (handleSignal_deliver g true SIGINT)) <> [x03].
Proof.
  cbv zeta. repeat split. discriminate.
Qed.

(** ** The configuration file *)

(** Where [index_of] finds a single byte: after a prefix without it. *)
Lemma index_of_single (s : bytes) (c : byte) :
  match GoBytes.index_of s [c] with
  | Some j => exists k v, s = k ++ c :: v /\ ~ In c k /\ j = length k
  | None => ~ In c s
  end.
Proof.
  induction s as [|x s IH]; cbn [GoBytes.index_of GoBytes.HasPrefix];
    [intros []|].
  rewrite andb_true_r. destruct (Byte.eqb c x) eqn:E.
  - apply byte_eqb_eq in E as <-. exists [], s. now repeat split.
  - assert (N : c <> x) by (intros ->; now rewrite byte_eqb_refl in E).
    destruct (GoBytes.index_of s [c]) as [j|]; cbn [option_map].
    + destruct IH as (k & v & -> & Hk & ->). exists (x :: k), v.
      repeat split. intros [H|H]; [congruence | contradiction].
    + intros [H|H]; [congruence | contradiction].
Qed.

(** The test the loop makes on a line, against [entry_for]. *)
Lemma scanConfig_step (name line : bytes) (rest : list bytes) :
  (exists v, entry_for name line v
             /\ scanConfig name (line :: rest)
                = (if length (GoStrings.TrimSpace v) =? 0 then None
                   else Some (GoStrings.TrimSpace v)))
  \/ ((forall v, ~ entry_for name line v)
      /\ scanConfig name (line :: rest) = scanConfig name rest).
Proof.
  cbn [scanConfig]. unfold GoBytes.Index.
  pose proof (index_of_single line "="%byte) as H.
  change (bs "=") with ["="%byte].
  destruct (GoBytes.index_of line ["="%byte]) as [j|].
  - destruct H as (k & v & -> & Hk & ->).
    assert (L : (Z.of_nat (length k) <? 0)%Z = false) by (apply Z.ltb_ge; lia).
    rewrite L. unfold slice, slice_from.
    assert (F1 : firstn (length k) (k ++ "="%byte :: v) = k)
      by apply firstn_app_exact.
    assert (F2 : skipn (length k + 1) (k ++ "="%byte :: v) = v).
    { replace (k ++ "="%byte :: v) with ((k ++ ["="%byte]) ++ v) by list_eq.
      replace (length k + 1) with (length (k ++ ["="%byte]))
        by (rewrite length_app; reflexivity).
      apply skipn_app_exact. }
    replace (Z.to_nat (Z.of_nat (length k)) - Z.to_nat 0) with (length k) by lia.
    replace (Z.to_nat (Z.of_nat (length k) + 1)) with (length k + 1) by lia.
    change (Z.to_nat 0) with 0. cbn [skipn]. rewrite F1, F2.
    destruct (bytes_eqb (GoStrings.TrimSpace k) name) eqn:E.
    + left. exists v. split; [|reflexivity].
      exists k. apply bytes_eqb_eq in E. now repeat split.
    + right. split; [|reflexivity].
      intros v' (k' & E' & Hk' & T').
      assert (k' = k /\ v' = v) as [-> ->].
      { clear - E' Hk Hk'. revert k' E' Hk'.
        induction k as [|a k IH]; intros [|b k'] E' Hk'; simpl in *.
        - now injection E'.
        - injection E' as <- _. exfalso. apply Hk'. now left.
        - injection E' as -> _. exfalso. apply Hk. now left.
        - injection E' as -> E'. destruct (IH (fun H => Hk (or_intror H)) k' E')
            as [-> ->]; [intros H; apply Hk'; now right | now split]. }
      rewrite <- T', (proj2 (bytes_eqb_eq _ _) eq_refl) in E. discriminate.
  - right. split; [|reflexivity].
    intros v (k & -> & _). apply H, in_or_app. right. now left.
Qed.

(** What the loop returns, in terms of the first entry for [name]. *)
Lemma scanConfig_spec (name : bytes) (lines : list bytes) :
  (no_entry name lines /\ scanConfig name lines = None)
  \/ (exists v, first_entry name lines v
                /\ scanConfig name lines
                   = (if length (GoStrings.TrimSpace v) =? 0 then None
                      else Some (GoStrings.TrimSpace v))).
Proof.
  induction lines as [|line rest IH].
  - left. split; [intros l v [] | reflexivity].
  - destruct (scanConfig_step name line rest) as [(v & Hv & E) | (Hn & E)].
    + right. exists v. split; [|exact E].
      exists [], line, rest. repeat split; [intros l v' [] | exact Hv].
    + rewrite E. destruct IH as [(Hno & E') | (v & (pre & l & post & -> & Hpre & Hl) & E')].
      * left. split; [|exact E'].
        intros l v [<- | Hin]; [apply Hn | now apply Hno].
      * right. exists v. split; [|exact E'].
        exists (line :: pre), l, post. repeat split; [|exact Hl].
        intros l' v' [<- | Hin]; [apply Hn | now apply Hpre].
Qed.

(** The first entry is unique. *)
Lemma first_entry_unique (name : bytes) (lines : list bytes) v1 v2 :
  first_entry name lines v1 -> first_entry name lines v2 -> v1 = v2.
Proof.
  intros (pre1 & l1 & post1 & E1 & P1 & H1) (pre2 & l2 & post2 & E2 & P2 & H2).
  subst lines. revert pre2 E2 P2. induction pre1 as [|a pre1 IH];
    intros [|b pre2] E2 P2; simpl in *.
  - injection E2 as -> _. destruct H1 as (k1 & -> & N1 & _).
    destruct H2 as (k2 & E & N2 & _). clear - E N1 N2.
    revert k2 E N2. induction k1 as [|a k1 IH]; intros [|b k2] E N2; simpl in *.
    + now injection E.
    + injection E as <- _. exfalso. apply N2. now left.
    + injection E as -> _. exfalso. apply N1. now left.
    + injection E as -> E.
      apply (IH (fun H => N1 (or_intror H)) k2 E).
      intros H; apply N2; now right.
  - injection E2 as <- _. exfalso. apply (P2 l1 v1); [now left | exact H1].
  - injection E2 as -> _. exfalso. apply (P1 l2 v2); [now left | exact H2].
  - injection E2 as -> E2. apply (IH (fun l v H => P1 l v (or_intror H)) pre2 E2).
    intros l v H. apply (P2 l v). now right.
Qed.

Lemma no_entry_first_entry (name : bytes) (lines : list bytes) v :
  no_entry name lines -> first_entry name lines v -> False.
Proof.
  intros Hno (pre & l & post & -> & _ & Hl).
  apply (Hno l v); [apply in_or_app; right; now left | exact Hl].
Qed.

Lemma length_zero_nil (b : bytes) : (length b =? 0) = true <-> b = [].
Proof.
  rewrite Nat.eqb_eq. destruct b; simpl; split; congruence.
Qed.

(** The loop against the first entry, as two equivalences. *)
Lemma scanConfig_iff (name : bytes) (lines : list bytes) :
  (forall value, scanConfig name lines = Some value <->
     exists v, first_entry name lines v
               /\ value = GoStrings.TrimSpace v /\ value <> [])
  /\ (scanConfig name lines = None <->
      no_entry name lines
      \/ exists v, first_entry name lines v /\ GoStrings.TrimSpace v = []).
Proof.
  destruct (scanConfig_spec name lines) as [(Hno & E) | (v & Hv & E)];
    rewrite E.
  - split.
    + intros value. split; [discriminate|].
      intros (v & Hv & _). destruct (no_entry_first_entry Hno Hv).
    + split; [now left | reflexivity].
  - destruct (length (GoStrings.TrimSpace v) =? 0) eqn:L.
    + apply length_zero_nil in L. split.
      * intros value. split; [discriminate|].
        intros (v' & Hv' & -> & N). exfalso. apply N.
        now rewrite (first_entry_unique Hv' Hv).
      * split; [right; now exists v | reflexivity].
    + assert (N : GoStrings.TrimSpace v <> []).
      { intros H. apply length_zero_nil in H. congruence. }
      split.
      * intros value. split.
        -- intros [= <-]. now exists v.
        -- intros (v' & Hv' & -> & _). now rewrite (first_entry_unique Hv' Hv).
      * split; [discriminate|].
        intros [Hno | (v' & Hv' & T)].
        -- destruct (no_entry_first_entry Hno Hv).
        -- rewrite (first_entry_unique Hv' Hv) in T. contradiction.
Qed.

(** *** The scanner *)

Lemma scan_line (l : bytes) :
  ~ In x0a l ->
  forall cur n rest,
    GoBufio.scan cur n (l ++ x0a :: rest)
    = if (n + Z.of_nat (length l) <? GoBufio.MaxScanTokenSize)%Z
      then GoBufio.dropCR (rev cur ++ l) :: GoBufio.scan [] 0 rest
      else [].
Proof.
  induction l as [|c l IH]; intros Hn cur n rest.
  - cbn [app GoBufio.scan length]. rewrite byte_eqb_refl, Z.add_0_r, app_nil_r.
    reflexivity.
  - cbn [app GoBufio.scan].
    destruct (Byte.eqb c x0a) eqn:E;
      [apply byte_eqb_eq in E; subst; exfalso; apply Hn; now left|].
    rewrite IH by (intros H; apply Hn; now right).
    cbn [rev length]. rewrite <- app_assoc. cbn [app].
    replace (n + 1 + Z.of_nat (length l))%Z
      with (n + Z.of_nat (S (length l)))%Z by lia.
    reflexivity.
Qed.

Lemma scan_last (l : bytes) :
  ~ In x0a l ->
  forall cur n,
    GoBufio.scan cur n l
    = if ((0 <? n + Z.of_nat (length l))
          && (n + Z.of_nat (length l) <? GoBufio.MaxScanTokenSize))%Z
      then [GoBufio.dropCR (rev cur ++ l)]
      else [].
Proof.
  induction l as [|c l IH]; intros Hn cur n.
  - cbn [GoBufio.scan length]. now rewrite Z.add_0_r, app_nil_r.
  - cbn [GoBufio.scan].
    destruct (Byte.eqb c x0a) eqn:E;
      [apply byte_eqb_eq in E; subst; exfalso; apply Hn; now left|].
    rewrite IH by (intros H; apply Hn; now right).
    cbn [rev length]. rewrite <- app_assoc. cbn [app].
    replace (n + 1 + Z.of_nat (length l))%Z
      with (n + Z.of_nat (S (length l)))%Z by lia.
    reflexivity.
Qed.

(** What the scanner yields on a file, line by line: the lines before the
    first one too long for its buffer, each without its carriage return. *)
Lemma ScanLines_file (ended : list bytes) (last : bytes) :
  Forall (fun l => ~ In x0a l) ended -> ~ In x0a last ->
  GoBufio.ScanLines (lines_text ended ++ last)
  = map GoBufio.dropCR (before_too_long (file_lines ended last)).
Proof.
  intros He Hl. unfold GoBufio.ScanLines, file_lines.
  induction He as [|l ended Hn _ IH].
  - cbn [lines_text flat_map app]. rewrite (@scan_last last Hl). cbn [rev app].
    destruct last as [|c last]; [reflexivity|].
    cbn [before_too_long map]. rewrite Z.add_0_l.
    replace (0 <? Z.of_nat (length (c :: last)))%Z with true
      by (symmetry; apply Z.ltb_lt; cbn [length]; lia).
    cbn [andb]. now destruct (_ <? _)%Z.
  - cbn [lines_text flat_map app]. rewrite <- !app_assoc. cbn [app].
    rewrite (@scan_line l Hn). cbn [rev app before_too_long]. rewrite Z.add_0_l.
    destruct (_ <? _)%Z; [|reflexivity].
    cbn [map]. f_equal. exact IH.
Qed.

(** *** White space *)

Lemma white_space_table (sp : bytes) :
  GoUnicode.white_space sp
  <-> (exists c, sp = [c] /\ GoStrings.asciiSpace c = true)
      \/ In sp GoStrings.unicodeSpaces.
Proof.
  split.
  - intros (r & Hr & ->). unfold GoUnicode.IsSpace in Hr.
    repeat (apply orb_true_iff in Hr as [Hr|Hr]);
      try (apply Z.eqb_eq in Hr; subst r;
           first [left; eexists; split; reflexivity | right; cbn; tauto]).
    + apply andb_true_iff in Hr as [H1 H2].
      apply Z.leb_le in H1, H2.
      assert (r = 9 \/ r = 10 \/ r = 11 \/ r = 12 \/ r = 13)%Z
        as [-> | [-> | [-> | [-> | ->]]]] by lia;
        left; eexists; split; reflexivity.
    + apply andb_true_iff in Hr as [H1 H2].
      apply Z.leb_le in H1, H2.
      assert (r = 0x2000 \/ r = 0x2001 \/ r = 0x2002 \/ r = 0x2003
              \/ r = 0x2004 \/ r = 0x2005 \/ r = 0x2006 \/ r = 0x2007
              \/ r = 0x2008 \/ r = 0x2009 \/ r = 0x200A)%Z
        as [-> | [-> | [-> | [-> | [-> | [-> | [-> | [-> | [-> | [-> | ->]]]]]]]]]]
        by lia; right; cbn; tauto.
  - intros [(c & -> & Hc) | Hin].
    + destruct c; try discriminate Hc;
        [exists 9%Z | exists 10%Z | exists 11%Z | exists 12%Z | exists 13%Z
        | exists 32%Z]; split; reflexivity.
    + cbn in Hin.
      repeat (destruct Hin as [<- | Hin];
              [first [ exists 0x85%Z; split; reflexivity
                     | exists 0xA0%Z; split; reflexivity
                     | exists 0x1680%Z; split; reflexivity
                     | exists 0x2000%Z; split; reflexivity
                     | exists 0x2001%Z; split; reflexivity
                     | exists 0x2002%Z; split; reflexivity
                     | exists 0x2003%Z; split; reflexivity
                     | exists 0x2004%Z; split; reflexivity
                     | exists 0x2005%Z; split; reflexivity
                     | exists 0x2006%Z; split; reflexivity
                     | exists 0x2007%Z; split; reflexivity
                     | exists 0x2008%Z; split; reflexivity
                     | exists 0x2009%Z; split; reflexivity
                     | exists 0x200A%Z; split; reflexivity
                     | exists 0x2028%Z; split; reflexivity
                     | exists 0x2029%Z; split; reflexivity
                     | exists 0x202F%Z; split; reflexivity
                     | exists 0x205F%Z; split; reflexivity
                     | exists 0x3000%Z; split; reflexivity ]|]).
      contradiction.
Qed.

Lemma find_HasPrefix_None (encs : list bytes) (s : bytes) :
  List.find (GoBytes.HasPrefix s) encs = None
  <-> forall e, In e encs -> GoBytes.HasPrefix s e = false.
Proof.
  induction encs as [|e encs IH]; cbn [List.find].
  - split; [intros _ e [] | reflexivity].
  - destruct (GoBytes.HasPrefix s e) eqn:E.
    + split; [discriminate|]. intros H. specialize (H e (or_introl eq_refl)).
      congruence.
    + rewrite IH. split.
      * intros H x [<- | Hx]; [exact E | now apply H].
      * intros H x Hx. apply H. now right.
Qed.

(** What [dropSpace] leaves is a shorter suffix. *)
Lemma dropSpace_suffix (encs : list bytes) (s s' : bytes) :
  Forall (fun e => e <> []) encs ->
  GoStrings.dropSpace encs s = Some s' ->
  exists p, p <> [] /\ s = p ++ s'.
Proof.
  intros Hne. unfold GoStrings.dropSpace. destruct s as [|c s]; [discriminate|].
  destruct (GoStrings.asciiSpace c).
  - intros [= <-]. now exists [c].
  - destruct (List.find _ encs) as [e|] eqn:EF; [|discriminate].
    intros [= <-]. apply find_some in EF as [Hin Hp].
    apply HasPrefix_spec in Hp as (t & Et).
    exists e. split; [exact (proj1 (Forall_forall _ _) Hne e Hin)|].
    rewrite Et. now rewrite skipn_app_exact.
Qed.

(** With fuel for the whole string, [dropSpaces] leaves a suffix that
    starts with no white space. *)
Lemma dropSpaces_done (encs : list bytes) (fuel : nat) :
  Forall (fun e => e <> []) encs ->
  forall s, length s <= fuel ->
    GoStrings.dropSpace encs (GoStrings.dropSpaces fuel encs s) = None
    /\ exists p, s = p ++ GoStrings.dropSpaces fuel encs s.
Proof.
  intros Hne. induction fuel as [|fuel IH]; intros s L.
  - destruct s; [|cbn in L; lia]. split; [reflexivity | now exists []].
  - cbn [GoStrings.dropSpaces].
    destruct (GoStrings.dropSpace encs s) as [s'|] eqn:E.
    + destruct (@dropSpace_suffix encs s s' Hne E) as (p & Hp & ->).
      destruct (IH s') as [H1 (q & H2)].
      * rewrite length_app in L. destruct p; [contradiction|]. cbn in L. lia.
      * split; [exact H1|]. exists (p ++ q). now rewrite <- app_assoc, <- H2.
    + split; [exact E | now exists []].
Qed.

Lemma HasPrefix_app (s t e : bytes) :
  GoBytes.HasPrefix s e = true -> GoBytes.HasPrefix (s ++ t) e = true.
Proof.
  intros H. apply HasPrefix_spec in H as (u & ->).
  apply HasPrefix_spec. exists (u ++ t). now rewrite app_assoc.
Qed.

(** A string that starts with no white space has no prefix that does. *)
Lemma dropSpace_prefix (encs : list bytes) (v t : bytes) :
  GoStrings.dropSpace encs (v ++ t) = None ->
  GoStrings.dropSpace encs v = None.
Proof.
  unfold GoStrings.dropSpace. destruct v as [|c v]; [reflexivity|].
  cbn [app]. destruct (GoStrings.asciiSpace c); [discriminate|].
  destruct (List.find _ encs) eqn:E1; [discriminate|]. intros _.
  destruct (List.find (GoBytes.HasPrefix (c :: v)) encs) as [e|] eqn:E2;
    [|reflexivity].
  apply find_some in E2 as [Hin Hp].
  rewrite find_HasPrefix_None in E1. specialize (E1 e Hin).
  apply (@HasPrefix_app _ t) in Hp. cbn [app] in Hp. congruence.
Qed.

(** A piece [dropSpace] removes: one ASCII white-space byte, or one of the
    encodings it is given. *)
Lemma dropSpace_piece (encs : list bytes) (s s' : bytes) :
  GoStrings.dropSpace encs s = Some s' ->
  exists p,
    ((exists c, p = [c] /\ GoStrings.asciiSpace c = true) \/ In p encs)
    /\ s = p ++ s'.
Proof.
  unfold GoStrings.dropSpace. destruct s as [|c s]; [discriminate|].
  destruct (GoStrings.asciiSpace c) eqn:A.
  - intros [= <-]. exists [c]. split; [left; now exists c | reflexivity].
  - destruct (List.find _ encs) as [e|] eqn:EF; [|discriminate].
    intros [= <-]. apply find_some in EF as [Hin Hp].
    apply HasPrefix_spec in Hp as (t & Et).
    exists e. split; [now right|]. rewrite Et. now rewrite skipn_app_exact.
Qed.

(** With fuel for the whole string, what [dropSpaces] removes is a run of
    such pieces. *)
Lemma dropSpaces_pieces (encs : list bytes) (fuel : nat) :
  forall s,
    exists ps,
      s = concat ps ++ GoStrings.dropSpaces fuel encs s
      /\ Forall (fun p => (exists c, p = [c] /\ GoStrings.asciiSpace c = true)
                          \/ In p encs) ps.
Proof.
  induction fuel as [|fuel IH]; intros s; [now exists []|].
  cbn [GoStrings.dropSpaces].
  destruct (GoStrings.dropSpace encs s) as [s'|] eqn:E; [|now exists []].
  destruct (dropSpace_piece _ _ E) as (p & Hp & ->).
  destruct (IH s') as (ps & Es & Hps).
  exists (p :: ps). split; [|now constructor].
  cbn [concat]. now rewrite <- app_assoc, <- Es.
Qed.

(** [dropSpace] finds a piece that stands at the head. *)
Lemma dropSpace_finds (encs : list bytes) (p t : bytes) :
  (exists c, p = [c] /\ GoStrings.asciiSpace c = true)
  \/ (In p encs /\ p <> []) ->
  GoStrings.dropSpace encs (p ++ t) <> None.
Proof.
  intros [(c & -> & Hc) | [Hin Hne]]; unfold GoStrings.dropSpace.
  - cbn [app]. now rewrite Hc.
  - destruct p as [|c p]; [contradiction|]. cbn [app].
    destruct (GoStrings.asciiSpace c); [discriminate|].
    destruct (List.find _ encs) eqn:EF; [discriminate|].
    rewrite find_HasPrefix_None in EF. specialize (EF _ Hin).
    assert (HP : GoBytes.HasPrefix (c :: p ++ t) (c :: p) = true)
      by (apply HasPrefix_spec; now exists t).
    congruence.
Qed.

Lemma spaces_app (a b : bytes) :
  GoUnicode.spaces a -> GoUnicode.spaces b -> GoUnicode.spaces (a ++ b).
Proof.
  induction 1 as [|sp l Hsp _ IH]; intros Hb; [exact Hb|].
  rewrite <- app_assoc. constructor; auto.
Qed.

Lemma spaces_one (sp : bytes) :
  GoUnicode.white_space sp -> GoUnicode.spaces sp.
Proof.
  intros H. rewrite <- (app_nil_r sp). constructor; [exact H | constructor].
Qed.

Lemma unicodeSpaces_nonempty :
  Forall (fun e : bytes => e <> []) GoStrings.unicodeSpaces.
Proof. repeat constructor; discriminate. Qed.

(** [strings.TrimSpace] trims: what it returns is its argument without a
    run of white-space characters before it and one after it, and neither
    starts nor ends with a white-space character. *)
Lemma TrimSpace_trimmed (s : bytes) :
  GoUnicode.trimmed s (GoStrings.TrimSpace s).
Proof.
  unfold GoStrings.TrimSpace.
  assert (N1 := unicodeSpaces_nonempty).
  assert (N2 : Forall (fun e : bytes => e <> [])
                      (map (@rev byte) GoStrings.unicodeSpaces))
    by (repeat constructor; discriminate).
  set (l := GoStrings.dropSpaces (length s) GoStrings.unicodeSpaces s).
  destruct (@dropSpaces_done _ (length s) N1 s (le_n _)) as [L1 _].
  destruct (dropSpaces_pieces GoStrings.unicodeSpaces (length s) s)
    as (ps & Es & Hps).
  fold l in L1, Es.
  destruct (@dropSpaces_done _ (length l) N2 (rev l)) as [R1 _];
    [now rewrite length_rev|].
  destruct (dropSpaces_pieces (map (@rev byte) GoStrings.unicodeSpaces)
              (length l) (rev l)) as (qs & Er & Hqs).
  set (r := GoStrings.dropSpaces (length l)
              (map (@rev byte) GoStrings.unicodeSpaces) (rev l)) in *.
  assert (El : l = rev r ++ rev (concat qs)).
  { rewrite <- rev_app_distr, <- Er. now rewrite rev_involutive. }
  exists (concat ps), (rev (concat qs)).
  split; [now rewrite <- El|]. split; [|split; [|split]].
  - clear - Hps. induction Hps as [|p ps Hp _ IH]; [constructor|].
    cbn [concat]. constructor; [|exact IH].
    apply white_space_table. exact Hp.
  - clear - Hqs. induction Hqs as [|q qs Hq _ IH]; [constructor|].
    cbn [concat]. rewrite rev_app_distr. apply spaces_app; [exact IH|].
    apply spaces_one, white_space_table.
    destruct Hq as [(c & -> & Hc) | Hin]; [left; now exists c|].
    right. apply in_map_iff in Hin as (e & <- & He).
    now rewrite rev_involutive.
  - intros (sp & t & Hsp & E).
    assert (P : GoStrings.dropSpace GoStrings.unicodeSpaces (rev r) = None).
    { apply (@dropSpace_prefix _ _ (rev (concat qs))). now rewrite <- El. }
    rewrite E in P. revert P. apply dropSpace_finds.
    apply white_space_table in Hsp as [H | H]; [now left | right].
    split; [exact H|]. exact (proj1 (Forall_forall _ _) N1 sp H).
  - intros (t & sp & Hsp & E).
    assert (Er' : r = rev sp ++ rev t)
      by (rewrite <- rev_app_distr, <- E; now rewrite rev_involutive).
    rewrite Er' in R1. revert R1. apply dropSpace_finds.
    apply white_space_table in Hsp as [(c & -> & Hc) | H];
      [left; now exists c | right].
    split; [now apply in_map|].
    intros Hn. apply (f_equal (@rev byte)) in Hn.
    rewrite rev_involutive in Hn. cbn in Hn.
    exact (proj1 (Forall_forall _ _) N1 sp H Hn).
Qed.

(** C10 (amended). Config lookup.  [getTrzszConfig name] returns the
    trimmed value of the first line of the file [.trzsz.conf] in the home
    directory whose key, the part before its first equals sign, is [name]
    once trimmed, among the lines the scanner yields: the lines of the file
    before the first one of 65536 bytes or more, each without its carriage
    return.  It returns nil when the home directory is unknown, when the
    file cannot be opened, when none of these lines is an entry for [name]
    (so also when the entry comes after a line too long for the scanner),
    or when the value of the first entry is empty once trimmed, whatever
    the later lines hold.  Trimming removes the white-space characters
    before and after, leaving a string that neither starts nor ends with
    one.  The file picker of [chooseDownloadPath] is called exactly when
    the lookup of DefaultDownloadPath returns nil, so also for a key
    present with an empty value. *)
Theorem getTrzszConfig_spec (h : host) (name : bytes) :
  (forall value, getTrzszConfig h name = Some value <->
     exists home file v,
       UserHomeDir h = Some home
       /\ Open h (Join h home (bs ".trzsz.conf")) = Some file
       /\ first_entry name (GoBufio.ScanLines file) v
       /\ value = GoStrings.TrimSpace v /\ value <> [])
  /\ (getTrzszConfig h name = None <->
      UserHomeDir h = None
      \/ exists home,
           UserHomeDir h = Some home
           /\ (Open h (Join h home (bs ".trzsz.conf")) = None
               \/ exists file,
                    Open h (Join h home (bs ".trzsz.conf")) = Some file
                    /\ (no_entry name (GoBufio.ScanLines file)
                        \/ exists v,
                             first_entry name (GoBufio.ScanLines file) v
                             /\ GoStrings.TrimSpace v = [])))
  /\ (forall ended last,
        Forall (fun l => ~ In x0a l) ended -> ~ In x0a last ->
        GoBufio.ScanLines (lines_text ended ++ last)
        = map GoBufio.dropCR (before_too_long (file_lines ended last)))
  /\ (forall s, GoUnicode.trimmed s (GoStrings.TrimSpace s))
  /\ (forall picked,
        snd (chooseDownloadPath h picked) = true
        <-> getTrzszConfig h (bs "DefaultDownloadPath") = None).
Proof.
  split; [|split; [|split; [exact ScanLines_file
                           |split; [exact TrimSpace_trimmed|]]]].
  - intros value. unfold getTrzszConfig.
    destruct (UserHomeDir h) as [home|].
    + destruct (Open h (Join h home (bs ".trzsz.conf"))) as [file|] eqn:EO.
      * rewrite (proj1 (scanConfig_iff name (GoBufio.ScanLines file))). split.
        -- intros (v & H1 & H2 & H3). exists home, file, v. auto.
        -- intros (home' & file' & v & [= <-] & E & H).
           rewrite EO in E. injection E as <-. now exists v.
      * split; [discriminate|].
        intros (home' & file' & v & [= <-] & E & _). congruence.
    + split; [discriminate|]. intros (home' & file' & v & E & _).
      discriminate E.
  - unfold getTrzszConfig.
    destruct (UserHomeDir h) as [home|]; [|split; [now left | reflexivity]].
    destruct (Open h (Join h home (bs ".trzsz.conf"))) as [file|] eqn:EO.
    + rewrite (proj2 (scanConfig_iff name (GoBufio.ScanLines file))). split.
      * intros H. right. exists home. split; [reflexivity|].
        right. now exists file.
      * intros [E | (home' & [= <-] & [E | (file' & E & H)])];
          [discriminate E | congruence |].
        rewrite EO in E. now injection E as <-.
    + split; [|reflexivity]. intros _. right. exists home. now split; [|left].
  - intros picked. unfold chooseDownloadPath.
    destruct (getTrzszConfig h (bs "DefaultDownloadPath")) as [p|].
    + simpl. split; discriminate.
    + destruct picked as [path|e]; [|now split].
      destruct (length path =? 0); now split.
Qed.

Lemma getTrzszConfig_host_with (file name : bytes) :
  getTrzszConfig (host_with file) name
  = scanConfig name (GoBufio.ScanLines file).
Proof. reflexivity. Qed.

(** A line too long for the scanner hides the entries after it: the file
    exists, its second line is an entry for DefaultDownloadPath with the
    value "/tmp/dl", and the lookup returns nil. *)
Lemma getTrzszConfig_long_line_hides_entry :
  let long := repeat "x"%byte (Z.to_nat 65536) in
  let entry := bs "DefaultDownloadPath=/tmp/dl" in
  let file := lines_text [long; entry] in
  let h := host_with file in
  UserHomeDir h = Some (bs "/home/u")
  /\ Open h (Join h (bs "/home/u") (bs ".trzsz.conf")) = Some file
  /\ entry_for (bs "DefaultDownloadPath") entry (bs "/tmp/dl")
  /\ GoStrings.TrimSpace (bs "/tmp/dl") = bs "/tmp/dl"
  /\ (forall l v, In l [long] -> ~ entry_for (bs "DefaultDownloadPath") l v)
  /\ getTrzszConfig h (bs "DefaultDownloadPath") = None.
Proof.
  cbv zeta.
  set (long := repeat "x"%byte (Z.to_nat 65536)).
  split; [reflexivity|]. split; [reflexivity|].
  split.
  { exists (bs "DefaultDownloadPath"). split; [reflexivity|].
    split; [intros H; cbn in H; intuition discriminate | reflexivity]. }
  split; [reflexivity|]. split.
  - intros l v [<- | []] (k & E & _).
    assert (Hin : In "="%byte long)
      by (rewrite E; apply in_or_app; right; now left).
    apply repeat_spec in Hin. discriminate Hin.
  - rewrite getTrzszConfig_host_with.
    assert (Hn : ~ In x0a long)
      by (intros Hin; apply repeat_spec in Hin; discriminate Hin).
    unfold lines_text. cbn [flat_map]. rewrite app_nil_r, <- app_assoc.
    cbn [app]. unfold GoBufio.ScanLines. rewrite (@scan_line long Hn).
    replace (0 + Z.of_nat (length long) <? GoBufio.MaxScanTokenSize)%Z
      with false; [reflexivity|].
    symmetry. apply Z.ltb_ge. unfold long, GoBufio.MaxScanTokenSize.
    rewrite repeat_length. lia.
Qed.

Example config_first_entry_wins :
  let h := host_with (lines_text [bs "# paths";
                                  bs " DefaultDownloadPath = /tmp/dl ";
                                  bs "DefaultDownloadPath=/other"]) in
  getTrzszConfig h (bs "DefaultDownloadPath") = Some (bs "/tmp/dl")
  /\ getTrzszConfig h (bs "DefaultUploadPath") = None.
Proof. split; reflexivity. Qed.

Example config_empty_value_hides_later :
  let h := host_with (lines_text [bs "DefaultDownloadPath =  ";
                                  bs "DefaultDownloadPath=/other"]) in
  getTrzszConfig h (bs "DefaultDownloadPath") = None
  /\ chooseDownloadPath h (inl (bs "/picked")) = (inl (bs "/picked"), true).
Proof. split; reflexivity. Qed.

Example config_last_line_and_carriage_returns :
  let h := host_with (bs "a=1" ++ [x0d; x0a] ++ bs "DefaultUploadPath=/up") in
  GoBufio.ScanLines (bs "a=1" ++ [x0d; x0a] ++ bs "b=2" ++ [x0a])
  = [bs "a=1"; bs "b=2"]
  /\ getTrzszConfig h (bs "a") = Some (bs "1")
  /\ getTrzszConfig h (bs "DefaultUploadPath") = Some (bs "/up").
Proof. repeat split. Qed.

(** ** The sender *)

Local Open Scope Z_scope.

Lemma TszMain_reaches v e files tmuxMode realStdout tmuxPaneWidth :
  reaches_marker e files tmuxMode realStdout tmuxPaneWidth ->
  TszMain v e = TszMain_from_tmux v e files tmuxMode realStdout tmuxPaneWidth.
Proof.
  intros (Hp & Hd & Ht). unfold TszMain. rewrite Hp, Ht.
  destruct (Overwrite (base (argv e))); [now rewrite Hd | reflexivity].
Qed.

Lemma downgrade_binary_events e tmuxMode args :
  forall ev, In ev (snd (downgrade_binary e tmuxMode args)) ->
             sends_to_peer ev = false /\ ev <> ServerExit (bs "Cancelled").
Proof.
  unfold downgrade_binary.
  destruct (Binary (base args) && tmuxMode_eqb tmuxMode tmuxControlMode);
    cbn [setBinary base set_Binary Binary andb];
    destruct (Binary (base args) && isRunningOnWindows e); simpl;
    intros ev H; repeat destruct H as [<- | H]; try contradiction;
    now split.
Qed.

Lemma prepare_terminal_events e tmuxMode :
  forall ev, In ev (prepare_terminal e tmuxMode) ->
             sends_to_peer ev = false /\ ev <> ServerExit (bs "Cancelled").
Proof.
  unfold prepare_terminal.
  destruct (isRunningOnWindows e); [|destruct (tmuxMode_eqb _ _);
    [destruct (_ && _)|]]; simpl;
    intros ev H; repeat destruct H as [<- | H]; try contradiction; now split.
Qed.

Lemma deferred_reset_events e :
  forall ev, In ev (deferred_reset e) ->
             sends_to_peer ev = false /\ ev <> ServerExit (bs "Cancelled").
Proof.
  unfold deferred_reset. destruct (_ && _); simpl;
    intros ev H; repeat destruct H as [<- | H]; try contradiction; now split.
Qed.

(** C5. Handshake refusal.  When the ACT frame received has confirm=false,
    [sendFiles] calls [serverExit("Cancelled")] and returns nil without
    calling [sendConfig] or the engine's [sendFiles]; [TszMain], once past
    its checks and in raw mode, then returns 0 having sent neither
    configuration nor file data nor an error. *)
Theorem sendFiles_refused (p : peer) files args tmuxMode tmuxPaneWidth act :
  recvAction p = inr act -> Confirm act = false ->
  sendFiles p files args tmuxMode tmuxPaneWidth
  = (None, args, [RecvAction; ServerExit (bs "Cancelled")])
  /\ forall v e realStdout,
       thePeer e = p ->
       reaches_marker e files tmuxMode realStdout tmuxPaneWidth ->
       makeRaw e = None ->
       fst (TszMain v e) = 0
       /\ In (ServerExit (bs "Cancelled")) (snd (TszMain v e))
       /\ forall ev, In ev (snd (TszMain v e)) -> sends_to_peer ev = false.
Proof.
  intros Ha Hc.
  assert (S : forall a, sendFiles p files a tmuxMode tmuxPaneWidth
                        = (None, a, [RecvAction; ServerExit (bs "Cancelled")])).
  { intros a. unfold sendFiles. now rewrite Ha, Hc. }
  split; [apply S|].
  intros v e realStdout Hp Hr Hm. rewrite (TszMain_reaches v Hr).
  unfold TszMain_from_tmux.
  pose proof (downgrade_binary_events e tmuxMode (argv e)) as Hn.
  destruct (downgrade_binary e tmuxMode (argv e)) as [args' notices].
  cbn [snd] in Hn. rewrite Hm, Hp, S. cbn [fst snd]. split; [reflexivity|].
  split.
  - rewrite !in_app_iff. simpl. tauto.
  - intros ev Hin. rewrite !in_app_iff in Hin. simpl in Hin.
    repeat match type of Hin with
           | _ \/ _ => destruct Hin as [Hin | Hin]
           end;
      try contradiction; try (subst ev; reflexivity);
      [now apply Hn | now apply (prepare_terminal_events e tmuxMode)
       | now apply (deferred_reset_events e)].
Qed.

Lemma sendFiles_refused_witness :
  let e := demo_env true false false noTmuxMode [demo_file "a.txt"]
                    (demo_peer false true) 1700000000000 in
  (recvAction (thePeer e)
   = inr {| Confirm := false; Version := bs "1.1.3"; SupportBinary := true;
            SupportDirectory := true; Platform := bs "linux" |}
   /\ reaches_marker e [demo_file "a.txt"] noTmuxMode 1%nat 80
   /\ makeRaw e = None)
  /\ fst (TszMain (bs "1.1.3") e) = 0
  /\ In (ServerExit (bs "Cancelled")) (snd (TszMain (bs "1.1.3") e)).
Proof.
  cbv zeta.
  assert (R : reaches_marker
                (demo_env true false false noTmuxMode [demo_file "a.txt"]
                          (demo_peer false true) 1700000000000)
                [demo_file "a.txt"] noTmuxMode 1%nat 80).
  { split; [reflexivity | split; [discriminate | reflexivity]]. }
  split; [split; [reflexivity | split; [exact R | reflexivity]]|].
  destruct (@sendFiles_refused (demo_peer false true) [demo_file "a.txt"]
              (argv (demo_env true false false noTmuxMode [demo_file "a.txt"]
                              (demo_peer false true) 1700000000000))
              noTmuxMode 80 _ eq_refl eq_refl) as [_ H].
  destruct (H (bs "1.1.3")
              (demo_env true false false noTmuxMode [demo_file "a.txt"]
                        (demo_peer false true) 1700000000000)
              1%nat eq_refl R eq_refl) as (H1 & H2 & _).
  split; [exact H1 | exact H2].
Defined.

Lemma existsb_bytes_In (n : bytes) (seen : list bytes) :
  existsb (bytes_eqb n) seen = true <-> In n seen.
Proof.
  rewrite existsb_exists. split.
  - intros (x & Hx & E). apply bytes_eqb_eq in E. now subst.
  - intros H. exists n. split; [exact H | now apply bytes_eqb_eq].
Qed.

(** The check passes exactly when the display names are pairwise distinct
    and none has been seen before. *)
Lemma checkDuplicateNames_seen_None (seen : list bytes) files :
  checkDuplicateNames_seen seen files = None
  <-> NoDup (map displayName files)
      /\ forall f, In f files -> ~ In (displayName f) seen.
Proof.
  revert seen; induction files as [|f files IH]; intros seen; simpl.
  - split; [intros _; split; [constructor | intros f []] | reflexivity].
  - destruct (existsb (bytes_eqb (displayName f)) seen) eqn:E.
    + apply existsb_bytes_In in E. split; [discriminate|].
      intros [_ H]. destruct (H f (or_introl eq_refl) E).
    + assert (N : ~ In (displayName f) seen).
      { intros H. apply existsb_bytes_In in H. congruence. }
      rewrite IH. split.
      * intros [ND H]. split.
        -- constructor; [|exact ND]. intros Hin. apply in_map_iff in Hin
             as (f' & E' & Hf'). apply (H f' Hf'). left. now rewrite E'.
        -- intros f' [<- | Hf'] Hin; [now apply N|].
           apply (H f' Hf'). now right.
      * intros [ND H]. inversion ND as [|x l Hx ND']; subst. split; [exact ND'|].
        intros f' Hf' [E' | Hin].
        -- apply Hx. rewrite E'. now apply in_map.
        -- apply (H f' (or_intror Hf') Hin).
Qed.

Lemma checkDuplicateNames_None files :
  checkDuplicateNames files = None <-> NoDup (map displayName files).
Proof.
  unfold checkDuplicateNames. rewrite checkDuplicateNames_seen_None.
  split; [now intros [H _] | intros H; split; [exact H | intros f _ []]].
Qed.

Lemma TszMain_from_tmux_code v e files tmuxMode realStdout tmuxPaneWidth :
  fst (TszMain_from_tmux v e files tmuxMode realStdout tmuxPaneWidth) = -4
  \/ fst (TszMain_from_tmux v e files tmuxMode realStdout tmuxPaneWidth) = 0.
Proof.
  unfold TszMain_from_tmux.
  destruct (downgrade_binary e tmuxMode (argv e)) as [args' notices].
  destruct (makeRaw e); [now left|].
  destruct (sendFiles _ _ _ _ _) as [[res a] evs]. now right.
Qed.

(** C7 (amended). Duplicate-name check.  When the paths are readable and two
    of the file records have the same display name, the sender fails with
    exit code -2, having done nothing but print the error, provided
    overwriting was asked for on the command line.  Without that flag the
    names are not compared and the exit code is never -2. *)
Theorem TszMain_duplicate_names v (e : senv) files :
  checkPathsReadable e (File (argv e)) (Directory (base (argv e))) = inr files ->
  ~ NoDup (map displayName files) ->
  (Overwrite (base (argv e)) = true ->
     exists er, TszMain v e = (-2, [ErrPrintln er]))
  /\ (Overwrite (base (argv e)) = false -> fst (TszMain v e) <> -2).
Proof.
  intros Hp Hdup. unfold TszMain. rewrite Hp. split; intros ->.
  - destruct (checkDuplicateNames files) as [er|] eqn:E; [now exists er|].
    apply checkDuplicateNames_None in E. contradiction.
  - destruct (checkTmux e) as [er | [[tmuxMode realStdout] width]];
      [discriminate|].
    destruct (TszMain_from_tmux_code v e files tmuxMode realStdout width)
      as [-> | ->]; discriminate.
Qed.

Lemma TszMain_duplicate_names_witness :
  let files := [demo_file "a.txt"; demo_file "b.txt"; demo_file "a.txt"] in
  let e := demo_env false true false noTmuxMode files (demo_peer true true)
                    1700000000000 in
  (checkPathsReadable e (File (argv e)) (Directory (base (argv e))) = inr files
   /\ ~ NoDup (map displayName files)
   /\ Overwrite (base (argv e)) = true)
  /\ exists er, TszMain (bs "1.1.3") e = (-2, [ErrPrintln er]).
Proof.
  cbv zeta.
  assert (D : ~ NoDup (map displayName
                 [demo_file "a.txt"; demo_file "b.txt"; demo_file "a.txt"])).
  { intros H. inversion H as [|x l Hx _]; subst. apply Hx. right. now left. }
  split; [split; [reflexivity | split; [exact D | reflexivity]]|].
  apply (@TszMain_duplicate_names (bs "1.1.3")
           (demo_env false true false noTmuxMode
              [demo_file "a.txt"; demo_file "b.txt"; demo_file "a.txt"]
              (demo_peer true true) 1700000000000)
           [demo_file "a.txt"; demo_file "b.txt"; demo_file "a.txt"]
           eq_refl D).
  reflexivity.
Defined.

(** Two records with the same display name and no overwrite flag: the
    sender goes on to the transfer and exits with 0. *)
Lemma TszMain_duplicates_unchecked :
  let files := [demo_file "a.txt"; demo_file "a.txt"] in
  let e := demo_env false false false noTmuxMode files (demo_peer true true)
                    1700000000000 in
  ~ NoDup (map displayName files)
  /\ fst (TszMain (bs "1.1.3") e) = 0
  /\ In (SendFiles files) (snd (TszMain (bs "1.1.3") e))
  /\ fst (TszMain (bs "1.1.3") e) <> -2.
Proof.
  cbv zeta. split; [|split; [|split]].
  - intros H. inversion H as [|x l Hx _]; subst. apply Hx. now left.
  - reflexivity.
  - vm_compute. tauto.
  - discriminate.
Qed.

(** What [sendFiles] passes to [sendConfig]. *)
Lemma sendFiles_config (p : peer) files args tmuxMode tmuxPaneWidth
      a act esc tm' w' :
  In (SendConfig a act esc tm' w')
     (snd (sendFiles p files args tmuxMode tmuxPaneWidth)) ->
  recvAction p = inr act
  /\ Binary a = Binary (base args) && SupportBinary act.
Proof.
  unfold sendFiles. destruct (recvAction p) as [er|act0];
    [simpl; intros [H|[]]; discriminate H|].
  destruct (Confirm act0); cbn [negb];
    [|simpl; intros [H|[H|[]]]; discriminate H].
  set (args1 := if Binary (base args) && negb (SupportBinary act0)
                then setBinary false args else args).
  assert (B : Binary (base args1) = Binary (base args) && SupportBinary act0).
  { unfold args1. destruct (Binary (base args)) eqn:E;
      destruct (SupportBinary act0); simpl; auto. }
  assert (C : forall evs,
             In (SendConfig a act esc tm' w')
                (RecvAction
                   :: SendConfig (base args1) act0 [] tmuxMode tmuxPaneWidth
                   :: evs) ->
             (forall ev, In ev evs -> sends_to_peer ev = false
                                      \/ exists f, ev = SendFiles f) ->
             act0 = act
             /\ Binary a = Binary (base args) && SupportBinary act0).
  { intros evs [H | [H | H]] Hevs; [discriminate H | |].
    - injection H as <- <- _ _ _. now split.
    - destruct (Hevs _ H) as [F | (f & F)]; discriminate F. }
  destruct (Directory (base args1) && negb (SupportDirectory act0));
    [simpl; intros [H|[]]; discriminate H|].
  destruct (sendConfig p (base args1)).
  - intros H. destruct (C [] H) as [<- E2]; [intros ev []|]. now split.
  - destruct (sendFilesResult p); [|destruct (recvExit p)]; intros H;
      (destruct (C _ H) as [<- E2];
       [intros ev Hev; simpl in Hev;
        repeat destruct Hev as [<- | Hev]; try contradiction; eauto
       | now split]).
Qed.

Lemma downgrade_binary_Binary e tmuxMode args :
  Binary (base (fst (downgrade_binary e tmuxMode args)))
  = Binary (base args) && negb (tmuxMode_eqb tmuxMode tmuxControlMode)
    && negb (isRunningOnWindows e).
Proof.
  unfold downgrade_binary. destruct args as [[q o b es d bu t] F].
  cbn [base Binary].
  destruct b, (tmuxMode_eqb tmuxMode tmuxControlMode), (isRunningOnWindows e);
    reflexivity.
Qed.

(** C4 (amended). Binary-mode downgrade.  The configuration the sender
    hands to [sendConfig] has binary on only when binary was requested on
    the command line, the peer's ACT reports support_binary, the multiplexer
    is not in control mode and the platform is not Windows.  When binary was
    requested and one of these fails, the sender does not fail on that
    account: it exits with the code, and does the things, of a run in which
    binary was not requested, apart from a notice of the switch that it
    first writes to stdout in control mode and on Windows (the downgrade
    that follows from the ACT writes nothing). *)
Theorem TszMain_binary_downgrade v (e : senv) files tmuxMode realStdout width :
  reaches_marker e files tmuxMode realStdout width ->
  (forall a act esc tm' w',
     In (SendConfig a act esc tm' w') (snd (TszMain v e)) ->
     recvAction (thePeer e) = inr act
     /\ Binary a
        = Binary (base (argv e)) && SupportBinary act
          && negb (tmuxMode_eqb tmuxMode tmuxControlMode)
          && negb (isRunningOnWindows e))
  /\ (Binary (base (argv e)) = true ->
      (tmuxMode = tmuxControlMode \/ isRunningOnWindows e = true
       \/ exists act, recvAction (thePeer e) = inr act
                      /\ SupportBinary act = false) ->
      fst (TszMain v e) = fst (TszMain v (requestBinary false e))
      /\ snd (TszMain v e)
         = downgrade_notice e tmuxMode
           ++ snd (TszMain v (requestBinary false e))).
Proof.
  intros Hr. split.
  - intros a act esc tm' w'. rewrite (TszMain_reaches v Hr).
    unfold TszMain_from_tmux.
    pose proof (downgrade_binary_events e tmuxMode (argv e)) as Hn.
    pose proof (downgrade_binary_Binary e tmuxMode (argv e)) as Hb.
    destruct (downgrade_binary e tmuxMode (argv e)) as [args' notices].
    cbn [fst snd] in Hn, Hb.
    assert (Pre : In (SendConfig a act esc tm' w')
                     (notices ++ prepare_terminal e tmuxMode
                      ++ [OutWrite (trigger_marker v (uniqueID e tmuxMode));
                          OutSync; MakeRaw]) -> False).
    { rewrite !in_app_iff. simpl. intros [H | [H | H]].
      - apply Hn in H as [H _]. discriminate H.
      - apply prepare_terminal_events in H as [H _]. discriminate H.
      - repeat destruct H as [H | H]; try discriminate H; contradiction. }
    destruct (makeRaw e).
    + cbn [snd]. rewrite (in_app_iff _ _ (SendConfig a act esc tm' w')).
      simpl. intros [H | [H | H]]; [destruct (Pre H) | discriminate H |].
      apply deferred_reset_events in H as [H _]. discriminate H.
    + pose proof (@sendFiles_config (thePeer e) files args' tmuxMode width
                    a act esc tm' w') as Hs.
      destruct (sendFiles (thePeer e) files args' tmuxMode width)
        as [[res a'] evs]. cbn [snd] in *.
      intros H. apply in_app_iff in H as [H | H]; [destruct (Pre H)|].
      apply in_app_iff in H as [H | H];
        [repeat destruct H as [H | H]; try discriminate H; contradiction|].
      apply in_app_iff in H as [H | H].
      * destruct (Hs H) as [E1 E2]. split; [exact E1|].
        rewrite E2, Hb.
        destruct (Binary (base (argv e))), (SupportBinary act),
          (tmuxMode_eqb tmuxMode tmuxControlMode), (isRunningOnWindows e);
          reflexivity.
      * apply in_app_iff in H as [H | H].
        -- destruct res; simpl in H; [destruct H as [H|[]]; discriminate H
                                     | contradiction].
        -- simpl in H. destruct H as [H | H]; [discriminate H|].
           apply deferred_reset_events in H as [H _]. discriminate H.
  - intros Hb Hfail.
    assert (Hr' : reaches_marker (requestBinary false e) files tmuxMode
                                 realStdout width).
    { destruct Hr as (H1 & H2 & H3). now repeat split. }
    rewrite (TszMain_reaches v Hr), (TszMain_reaches v Hr').
    clear Hr Hr'.
    destruct e as [[[q o b es d bu t] F] cpr ct win now evt cols mr p].
    cbn [argv base Binary isRunningOnWindows thePeer] in Hb, Hfail.
    subst b.
    unfold TszMain_from_tmux, downgrade_binary, downgrade_notice,
      requestBinary, uniqueID, prepare_terminal, deferred_reset, setBinary,
      set_Binary.
    cbn [argv base Binary isRunningOnWindows thePeer makeRaw nowUnixMilli
         enableVirtualTerminal getTerminalColumns File Quiet Overwrite Escape
         Directory Bufsize Timeout andb].
    destruct (tmuxMode_eqb tmuxMode tmuxControlMode) eqn:Ec.
    + cbn [orb andb Binary base]. destruct mr; [split; reflexivity|].
      destruct (sendFiles _ _ _ _ _) as [[res a'] evs]. split; reflexivity.
    + destruct win.
      * cbn [orb andb Binary base]. destruct mr; [split; reflexivity|].
        destruct (sendFiles _ _ _ _ _) as [[res a'] evs]. split; reflexivity.
      * cbn [orb andb Binary base app].
        destruct Hfail as [-> | [H | (act & Ha & Hs)]];
          [discriminate Ec | discriminate H |].
        destruct mr; [split; reflexivity|].
        unfold sendFiles. rewrite Ha.
        destruct (Confirm act); cbn [negb]; [|split; reflexivity].
        rewrite Hs. cbn [negb andb base Binary setBinary set_Binary Directory
                          File Quiet Overwrite Escape Bufsize Timeout].
        destruct (d && negb (SupportDirectory act)); [split; reflexivity|].
        destruct (sendConfig p _); [split; reflexivity|].
        destruct (sendFilesResult p); [split; reflexivity|].
        destruct (recvExit p); split; reflexivity.
Qed.

Lemma TszMain_binary_downgrade_witness :
  let e := demo_env true false false tmuxControlMode [demo_file "a.txt"]
                    (demo_peer true true) 1700000000000 in
  (reaches_marker e [demo_file "a.txt"] tmuxControlMode 1%nat 80
   /\ Binary (base (argv e)) = true)
  /\ fst (TszMain (bs "1.1.3") e)
     = fst (TszMain (bs "1.1.3") (requestBinary false e))
  /\ snd (TszMain (bs "1.1.3") e)
     = OutWrite kControlNotice
       :: snd (TszMain (bs "1.1.3") (requestBinary false e)).
Proof.
  cbv zeta.
  assert (R : reaches_marker
                (demo_env true false false tmuxControlMode [demo_file "a.txt"]
                          (demo_peer true true) 1700000000000)
                [demo_file "a.txt"] tmuxControlMode 1%nat 80).
  { split; [reflexivity | split; [discriminate | reflexivity]]. }
  split; [split; [exact R | reflexivity]|].
  destruct (@TszMain_binary_downgrade (bs "1.1.3") _ _ _ _ _ R) as [_ H].
  apply H; [reflexivity | left; reflexivity].
Defined.

(** In control mode the switch to text mode is announced on stdout: the
    run with binary requested writes a notice that the run without it does
    not write. *)
Lemma TszMain_downgrade_not_silent :
  let e := demo_env true false false tmuxControlMode [demo_file "a.txt"]
                    (demo_peer true true) 1700000000000 in
  Binary (base (argv e)) = true
  /\ In (OutWrite kControlNotice) (snd (TszMain (bs "1.1.3") e))
  /\ ~ In (OutWrite kControlNotice)
          (snd (TszMain (bs "1.1.3") (requestBinary false e)))
  /\ snd (TszMain (bs "1.1.3") e)
     <> snd (TszMain (bs "1.1.3") (requestBinary false e)).
Proof.
  cbv zeta. split; [reflexivity|]. split; [left; reflexivity|]. split.
  - vm_compute. intros H.
    repeat destruct H as [H | H]; try discriminate H; contradiction.
  - vm_compute. discriminate.
Qed.

(** ** The trigger marker *)

Lemma wrap64_small (x : Z) : - 2 ^ 63 <= x < 2 ^ 63 -> wrap64 x = x.
Proof.
  intros H. unfold wrap64. rewrite Z.mod_small; lia.
Qed.

Lemma digit_byte_isDigit (d : Z) : isDigit (digit_byte d) = true.
Proof.
  unfold digit_byte.
  destruct d as [|[[[|[]|]|[[]|[]|]|]|[[|[]|]|[[]|[]|]|]|]|]; reflexivity.
Qed.

Lemma digit_value_byte (d : Z) : 0 <= d < 10 -> digit_value (digit_byte d) = d.
Proof.
  intros H.
  assert (d = 0 \/ d = 1 \/ d = 2 \/ d = 3 \/ d = 4 \/ d = 5 \/ d = 6 \/ d = 7
          \/ d = 8 \/ d = 9) as E by lia.
  repeat destruct E as [-> | E]; try reflexivity. now subst.
Qed.

Lemma decimal_value_snoc (ds : bytes) (c : byte) :
  decimal_value (ds ++ [c]) = 10 * decimal_value ds + digit_value c.
Proof.
  unfold decimal_value. now rewrite fold_left_app.
Qed.

Lemma decimal_value_zeros (n : nat) (ds : bytes) :
  decimal_value (repeat "0"%byte n ++ ds) = decimal_value ds.
Proof.
  unfold decimal_value. induction n as [|n IH]; simpl; [reflexivity | exact IH].
Qed.

Lemma decimal_fuel_digits (fuel : nat) (u : Z) :
  Forall (fun c => isDigit c = true) (decimal_fuel fuel u).
Proof.
  revert u; induction fuel as [|fuel IH]; intros u; simpl; [constructor|].
  destruct (u <? 10).
  - repeat constructor. apply digit_byte_isDigit.
  - apply Forall_app. split; [apply IH|].
    repeat constructor. apply digit_byte_isDigit.
Qed.

(** A number below [10^k] has at most [k] digits. *)
Lemma decimal_fuel_length (fuel : nat) : forall (u : Z) (k : nat),
  (1 <= k)%nat -> 0 <= u < 10 ^ Z.of_nat k ->
  (length (decimal_fuel fuel u) <= k)%nat.
Proof.
  induction fuel as [|fuel IH]; intros u k Hk Hu; simpl; [lia|].
  destruct (u <? 10) eqn:E; [simpl; lia|].
  apply Z.ltb_ge in E. rewrite length_app. simpl.
  destruct k as [|[|k]]; [lia | simpl in Hu; lia |].
  assert (length (decimal_fuel fuel (u / 10)) <= S k)%nat; [|lia].
  apply IH; [lia|]. split; [apply Z.div_pos; lia|].
  apply Z.div_lt_upper_bound; [lia|].
  replace (Z.of_nat (S (S k))) with (Z.succ (Z.of_nat (S k))) in Hu by lia.
  rewrite Z.pow_succ_r in Hu by lia. lia.
Qed.

(** With enough fuel the digits denote the number. *)
Lemma decimal_fuel_value (fuel : nat) : forall (u : Z),
  0 <= u < 2 ^ Z.of_nat fuel ->
  decimal_value (decimal_fuel fuel u) = u.
Proof.
  induction fuel as [|fuel IH]; intros u Hu.
  - simpl in Hu. assert (u = 0) as -> by lia. reflexivity.
  - cbn [decimal_fuel]. destruct (u <? 10) eqn:E.
    + apply Z.ltb_lt in E. unfold decimal_value. simpl.
      rewrite digit_value_byte; lia.
    + apply Z.ltb_ge in E. rewrite decimal_value_snoc, IH.
      * rewrite digit_value_byte by (apply Z.mod_pos_bound; lia).
        symmetry. apply Z.div_mod. lia.
      * split; [apply Z.div_pos; lia|].
        apply Z.div_lt_upper_bound; [lia|].
        replace (Z.of_nat (S fuel)) with (Z.succ (Z.of_nat fuel)) in Hu by lia.
        rewrite Z.pow_succ_r in Hu by lia. lia.
Qed.

Lemma decimal_value_decimal (u : Z) : 0 <= u -> decimal_value (decimal u) = u.
Proof.
  intros Hu. unfold decimal. apply decimal_fuel_value. split; [exact Hu|].
  destruct (Z.eq_dec u 0) as [-> | N]; [reflexivity|].
  pose proof (Z.log2_spec u ltac:(lia)) as [_ H].
  pose proof (Z.log2_nonneg u).
  replace (Z.of_nat (S (Z.to_nat (Z.log2 u)))) with (Z.succ (Z.log2 u)) by lia.
  exact H.
Qed.

(** [%013d] of a number in [0, 10^13): thirteen digits that denote it. *)
Lemma fmt_0d_13 (n : Z) :
  0 <= n < 10 ^ 13 ->
  length (fmt_0d 13 n) = 13%nat
  /\ Forall (fun c => isDigit c = true) (fmt_0d 13 n)
  /\ decimal_value (fmt_0d 13 n) = n.
Proof.
  intros Hn. unfold fmt_0d.
  assert (E : (n <? 0) = false) by (apply Z.ltb_ge; lia). rewrite E.
  rewrite Z.abs_eq by lia.
  assert (L : (length (decimal n) <= 13)%nat)
    by (apply decimal_fuel_length; [lia | exact Hn]).
  split; [|split].
  - rewrite length_app, repeat_length. lia.
  - apply Forall_app. split; [|apply decimal_fuel_digits].
    apply Forall_forall. intros c Hc. apply repeat_spec in Hc. now subst.
  - rewrite decimal_value_zeros. apply decimal_value_decimal. lia.
Qed.

(** [uniqueID] never wraps around: it is the remainder of the milliseconds
    by [10^11], times 100, plus the offset of the platform.  For a clock at
    or after the epoch the remainder is the residue and the id is not
    negative. *)
Lemma uniqueID_value (e : senv) tmuxMode :
  uniqueID e tmuxMode
  = Z.rem (nowUnixMilli e) (10 ^ 11) * 100
    + (if isRunningOnWindows e then 10
       else if tmuxMode_eqb tmuxMode tmuxNormalMode then 20 else 0)
  /\ - 10 ^ 13 < uniqueID e tmuxMode < 10 ^ 13
  /\ (0 <= nowUnixMilli e ->
      Z.rem (nowUnixMilli e) (10 ^ 11) = nowUnixMilli e mod 10 ^ 11
      /\ 0 <= uniqueID e tmuxMode).
Proof.
  unfold uniqueID. change 100000000000 with (10 ^ 11).
  pose proof (Z.rem_bound_abs (nowUnixMilli e) (10 ^ 11) ltac:(lia)) as B.
  rewrite (@wrap64_small (Z.rem (nowUnixMilli e) (10 ^ 11) * 100)) by lia.
  assert (P : 0 <= nowUnixMilli e ->
              Z.rem (nowUnixMilli e) (10 ^ 11) = nowUnixMilli e mod 10 ^ 11
              /\ 0 <= Z.rem (nowUnixMilli e) (10 ^ 11)).
  { intros H. split; [apply Z.rem_mod_nonneg; lia|].
    apply Z.rem_bound_pos; lia. }
  destruct (isRunningOnWindows e);
    [|destruct (tmuxMode_eqb tmuxMode tmuxNormalMode)];
    rewrite ?wrap64_small by lia;
    (split; [lia|]); (split; [lia|]);
    intros H; destruct (P H) as [P1 P2]; (split; [exact P1 | lia]).
Qed.

(** C8 (amended). Trigger marker format.  A run of the sender that gets
    past its checks writes the line ESC 7 BEL "::TRZSZ:TRANSFER:S:" version
    ":" id CR LF, with mode byte 'S'.  The id is the milliseconds of the clock
    reduced by [10^11], times 100, plus 10 on Windows, else plus 20 in tmux
    normal mode, else plus 0, and it is below [10^13].  For a clock at or
    after the Unix epoch the reduction is the residue modulo [10^11], and
    the [%013d] rendering of the id is exactly thirteen decimal digits,
    which denote it. *)
Theorem TszMain_trigger_marker v (e : senv) files tmuxMode realStdout width :
  reaches_marker e files tmuxMode realStdout width ->
  let id := uniqueID e tmuxMode in
  let offset := if isRunningOnWindows e then 10
                else if tmuxMode_eqb tmuxMode tmuxNormalMode then 20 else 0 in
  In (OutWrite ([x1b] ++ bs "7" ++ [x07] ++ bs "::TRZSZ:TRANSFER:S:" ++ v
                ++ bs ":" ++ fmt_0d 13 id ++ [x0d; x0a]))
     (snd (TszMain v e))
  /\ id = Z.rem (nowUnixMilli e) (10 ^ 11) * 100 + offset
  /\ (offset = 0 \/ offset = 10 \/ offset = 20)
  /\ id < 10 ^ 13
  /\ (0 <= nowUnixMilli e ->
      id = (nowUnixMilli e mod 10 ^ 11) * 100 + offset
      /\ 0 <= id
      /\ length (fmt_0d 13 id) = 13%nat
      /\ Forall (fun c => isDigit c = true) (fmt_0d 13 id)
      /\ decimal_value (fmt_0d 13 id) = id).
Proof.
  intros Hr. cbv zeta.
  destruct (uniqueID_value e tmuxMode) as (Eid & Bid & Hpos).
  split; [|split; [exact Eid | split; [|split; [lia|]]]].
  - rewrite (TszMain_reaches v Hr). unfold TszMain_from_tmux.
    destruct (downgrade_binary e tmuxMode (argv e)) as [args' notices].
    assert (M : forall rest,
               In (OutWrite (trigger_marker v (uniqueID e tmuxMode)))
                  ((notices ++ prepare_terminal e tmuxMode
                    ++ [OutWrite (trigger_marker v (uniqueID e tmuxMode));
                        OutSync; MakeRaw]) ++ rest)).
    { intros rest. rewrite !in_app_iff. simpl. tauto. }
    destruct (makeRaw e); [apply M|].
    destruct (sendFiles _ _ _ _ _) as [[res a'] evs]. apply M.
  - destruct (isRunningOnWindows e);
      [|destruct (tmuxMode_eqb tmuxMode tmuxNormalMode)]; auto.
  - intros Hnow. destruct (Hpos Hnow) as [Em H0].
    assert (B : 0 <= uniqueID e tmuxMode < 10 ^ 13) by lia.
    destruct (fmt_0d_13 B) as (L & D & V).
    split; [now rewrite <- Em|]. auto.
Qed.

Lemma TszMain_trigger_marker_witness :
  let e := demo_env false false false tmuxNormalMode [demo_file "a.txt"]
                    (demo_peer true true) 1700000000123 in
  (reaches_marker e [demo_file "a.txt"] tmuxNormalMode 1%nat 80
   /\ 0 <= nowUnixMilli e)
  /\ uniqueID e tmuxNormalMode = 12320
  /\ length (fmt_0d 13 (uniqueID e tmuxNormalMode)) = 13%nat
  /\ In (OutWrite ([x1b] ++ bs "7" ++ [x07] ++ bs "::TRZSZ:TRANSFER:S:1.1.3:"
                   ++ fmt_0d 13 (uniqueID e tmuxNormalMode) ++ [x0d; x0a]))
        (snd (TszMain (bs "1.1.3") e)).
Proof.
  cbv zeta.
  assert (R : reaches_marker
                (demo_env false false false tmuxNormalMode [demo_file "a.txt"]
                          (demo_peer true true) 1700000000123)
                [demo_file "a.txt"] tmuxNormalMode 1%nat 80).
  { split; [reflexivity | split; [discriminate | reflexivity]]. }
  assert (N : 0 <= nowUnixMilli
                     (demo_env false false false tmuxNormalMode
                        [demo_file "a.txt"] (demo_peer true true)
                        1700000000123))
    by discriminate.
  split; [split; [exact R | exact N]|].
  destruct (@TszMain_trigger_marker (bs "1.1.3") _ _ _ _ _ R)
    as (H1 & _ & _ & _ & H5).
  destruct (H5 N) as (_ & _ & L & _).
  split; [reflexivity|]. split; [exact L | exact H1].
Defined.

(** A clock before the epoch: the remainder of Go's [%] is negative, so is
    the id, and [%013d] renders it with a sign; the id written is not
    thirteen decimal digits. *)
Lemma TszMain_marker_before_epoch :
  let e := demo_env false false false noTmuxMode [demo_file "a.txt"]
                    (demo_peer true true) (-1) in
  reaches_marker e [demo_file "a.txt"] noTmuxMode 1%nat 80
  /\ uniqueID e noTmuxMode = -100
  /\ fmt_0d 13 (uniqueID e noTmuxMode) = bs "-000000000100"
  /\ In (OutWrite ([x1b] ++ bs "7" ++ [x07]
                   ++ bs "::TRZSZ:TRANSFER:S:1.1.3:-000000000100"
                   ++ [x0d; x0a]))
        (snd (TszMain (bs "1.1.3") e))
  /\ ~ Forall (fun c => isDigit c = true) (fmt_0d 13 (uniqueID e noTmuxMode)).
Proof.
  cbv zeta.
  split; [split; [reflexivity | split; [discriminate | reflexivity]]|].
  split; [reflexivity|]. split; [reflexivity|]. split.
  - cbn. tauto.
  - intros H. inversion H as [|c l Hc Hl E]. discriminate Hc.
Qed.

Example marker_rendering :
  fmt_0d 13 12320 = bs "0000000012320"
  /\ fmt_0d 13 9999999999920 = bs "9999999999920"
  /\ fmt_0d 13 (-100) = bs "-000000000100".
Proof. repeat split. Qed.

Example marker_is_detected :
  detectTrzsz (trigger_marker (bs "1.1.3") 12320)
  = Done (Some "S"%byte, false).
Proof. reflexivity. Qed.

(** The exit code of [TszMain], read off the first check that fails. *)
Lemma TszMain_code v (e : senv) :
  fst (TszMain v e)
  = match checkPathsReadable e (File (argv e)) (Directory (base (argv e))) with
    | inl _ => -1
    | inr files =>
        match (if Overwrite (base (argv e)) then checkDuplicateNames files
               else None) with
        | Some _ => -2
        | None =>
            match checkTmux e with
            | inl _ => -3
            | inr _ => match makeRaw e with Some _ => -4 | None => 0 end
            end
        end
    end.
Proof.
  unfold TszMain.
  destruct (checkPathsReadable _ _ _) as [er | files]; [reflexivity|].
  destruct (if Overwrite _ then _ else _); [reflexivity|].
  destruct (checkTmux e) as [er | [[tmuxMode realStdout] width]];
    [reflexivity|].
  unfold TszMain_from_tmux.
  destruct (downgrade_binary e tmuxMode (argv e)) as [args' notices].
  destruct (makeRaw e); [reflexivity|].
  now destruct (sendFiles _ _ _ _ _) as [[res a'] evs].
Qed.

(** The exit codes of [TszMain], each with its cause: -1 unreadable paths,
    -2 a duplicate name under the overwrite flag, -3 the multiplexer check,
    -4 raw mode, and 0 once the transfer has been attempted, whether or not
    it went through. *)
Theorem TszMain_exit_codes v (e : senv) :
  let paths :=
    checkPathsReadable e (File (argv e)) (Directory (base (argv e))) in
  let dup files :=
    if Overwrite (base (argv e)) then checkDuplicateNames files else None in
  (fst (TszMain v e) = -1 <-> exists er, paths = inl er)
  /\ (fst (TszMain v e) = -2 <->
      exists files er, paths = inr files /\ dup files = Some er)
  /\ (fst (TszMain v e) = -3 <->
      exists files er,
        paths = inr files /\ dup files = None /\ checkTmux e = inl er)
  /\ (fst (TszMain v e) = -4 <->
      exists files tm er,
        paths = inr files /\ dup files = None /\ checkTmux e = inr tm
        /\ makeRaw e = Some er)
  /\ (fst (TszMain v e) = 0 <->
      exists files tm,
        paths = inr files /\ dup files = None /\ checkTmux e = inr tm
        /\ makeRaw e = None).
Proof.
  cbv zeta. rewrite TszMain_code.
  destruct (checkPathsReadable _ _ _) as [er | files];
    [split; [|split; [|split; [|split]]]; code_iff|].
  destruct (if Overwrite _ then checkDuplicateNames files else None)
    as [er|] eqn:D; [split; [|split; [|split; [|split]]]; code_iff|].
  destruct (checkTmux e) as [er | tm];
    [split; [|split; [|split; [|split]]]; code_iff|].
  destruct (makeRaw e) as [er|];
    (split; [|split; [|split; [|split]]]); code_iff.
Qed.

Local Close Scope Z_scope.

(** ** The session on the wrapper's side *)

Lemma scanConfig_nonempty (name : bytes) (lines : list bytes) v :
  scanConfig name lines = Some v -> v <> [].
Proof.
  induction lines as [|line rest IH]; cbn [scanConfig]; [discriminate|].
  cbv zeta.
  destruct (_ <? 0)%Z; [exact IH|].
  destruct (bytes_eqb _ name); [|exact IH].
  destruct (length _ =? 0) eqn:L; [discriminate|].
  intros [= <-] H. rewrite H in L. discriminate.
Qed.

Lemma getTrzszConfig_nonempty (h : host) (name : bytes) v :
  getTrzszConfig h name = Some v -> v <> [].
Proof.
  unfold getTrzszConfig. destruct (UserHomeDir h); [|discriminate].
  destruct (Open h _); [|discriminate]. apply scanConfig_nonempty.
Qed.

Lemma chooseDownloadPath_nonempty (h : host) picked path shown :
  chooseDownloadPath h picked = (inl path, shown) -> path <> [].
Proof.
  unfold chooseDownloadPath.
  destruct (getTrzszConfig h _) as [p|] eqn:EC.
  - intros [= <- _]. exact (getTrzszConfig_nonempty _ _ EC).
  - destruct picked as [p|z]; [|discriminate].
    destruct (length p =? 0) eqn:L; [discriminate|].
    intros [= <- _] H. rewrite H in L. discriminate.
Qed.

(** Unfolds the steps of a session and splits, in the order of the calls,
    on what each one answers. *)
Ltac on_call c := destruct c eqn:?; cbv beta iota zeta.

Ltac session_steps E :=
  cbv [bind ret do_call check_call defer with_progress newProgressBar];
  try match goal with
      | |- context [c_checkPathWritable E ?p] =>
          on_call (c_checkPathWritable E p)
      end;
  try match goal with
      | |- context [c_checkFilesReadable E ?p] =>
          on_call (c_checkFilesReadable E p)
      end;
  try match goal with
      | |- context [c_sendAction E ?b] => on_call (c_sendAction E b)
      end;
  try match goal with
      | |- context [c_recvConfig E] => on_call (c_recvConfig E)
      end;
  try match goal with
      | |- context [is_quiet ?c] => on_call (is_quiet c)
      end;
  try match goal with
      | |- context [c_GetColumns E] => on_call (c_GetColumns E)
      end;
  try match goal with
      | |- context [c_recvFiles E] => on_call (c_recvFiles E)
      end;
  try match goal with
      | |- context [c_sendFiles E] => on_call (c_sendFiles E)
      end;
  try match goal with
      | |- context [c_clientExit E] => on_call (c_clientExit E)
      end.

(** Goes through the events a hypothesis says one is among. *)
Ltac among H :=
  cbn in H;
  repeat match type of H with
         | _ \/ _ => destruct H as [H|H]
         | False => contradiction
         | _ = _ => try discriminate H
         end.

Lemma after_each_spec p q evs :
  after_each p q evs = true ->
  forall pre ev post, evs = pre ++ ev :: post -> p ev = true -> q post = true.
Proof.
  intros H pre. revert evs H.
  induction pre as [|x pre IH]; intros evs H ev post -> Hp; cbn in H;
    apply andb_true_iff in H as [H1 H2].
  - now rewrite Hp in H1.
  - exact (IH _ H2 _ _ eq_refl Hp).
Qed.

(** Receiving is guarded.  Whenever [downloadFiles] calls [recvFiles], the
    folder it passes is the one [chooseDownloadPath] returned, it is not
    empty, [checkPathWritable] accepted it, and the peer took the
    confirmation and sent its configuration; the progress bar passed is nil
    exactly when that configuration says quiet. *)
Theorem downloadFiles_guarded (F : Type) (toZ : F -> Z) (E : cenv F)
    (remoteIsWindows : bool) (g : globals) path progress :
  In (RecvFiles path progress)
     (fst (fst (downloadFiles toZ E remoteIsWindows g))) ->
  fst (chooseDownloadPath (c_host E) (c_SelectFile E)) = inl path
  /\ path <> []
  /\ c_checkPathWritable E path = None
  /\ c_sendAction E true = Returns tt
  /\ exists config,
       c_recvConfig E = Returns config
       /\ (progress = None <-> is_quiet config = true).
Proof.
  unfold downloadFiles, chooseDownloadPath_call.
  destruct (chooseDownloadPath _ _) as [[p|z] shown] eqn:EC.
  - pose proof (chooseDownloadPath_nonempty _ _ EC) as NE. revert NE.
    destruct shown; session_steps E; intros NE H; among H.
    all: injection H as <- <-.
    all: repeat (split; [solve [auto | now destruct a]|]).
    all: eexists; split; [reflexivity|].
    all: split; [auto; discriminate | auto; congruence].
  - destruct z; [|destruct shown; intros H; among H].
    destruct shown; session_steps E; intros H; among H.
Qed.

Lemma downloadFiles_guarded_witness :
  let E := demo_cenv (inl (bs "/tmp/dl")) (inr ErrCanceled) false in
  let bar := Some {| bar_columns := 120; bar_tmuxPaneColumns := 80 |} in
  In (RecvFiles (bs "/tmp/dl") bar)
     (fst (fst (downloadFiles (fun z => z) E false idle)))
  /\ c_checkPathWritable E (bs "/tmp/dl") = None
  /\ is_quiet (demo_config false) = false.
Proof.
  cbv zeta.
  assert (H : In (RecvFiles (bs "/tmp/dl")
                    (Some {| bar_columns := 120; bar_tmuxPaneColumns := 80 |}))
                 (fst (fst (downloadFiles (fun z => z)
                              (demo_cenv (inl (bs "/tmp/dl"))
                                 (inr ErrCanceled) false) false idle))))
    by (vm_compute; tauto).
  split; [exact H|].
  destruct (@downloadFiles_guarded Z (fun z => z) _ false idle _ _ H)
    as (_ & _ & C & _).
  split; [exact C | reflexivity].
Defined.

(** Sending is guarded.  Whenever [uploadFiles] calls [sendFiles], the
    files it passes are the pending dragged files, or else the non-empty
    selection of the picker; [checkFilesReadable] accepted them, the peer
    took the confirmation and sent its configuration, the progress bar is
    nil exactly when that configuration says quiet, and no dragged files
    are pending afterwards. *)
Theorem uploadFiles_guarded (F : Type) (toZ : F -> Z) (E : cenv F)
    (remoteIsWindows : bool) (g : globals) files progress :
  In (ClientSendFiles files progress)
     (fst (fst (uploadFiles toZ E remoteIsWindows g))) ->
  (gDragFiles g = Some files
   \/ (gDragFiles g = None /\ c_SelectFileMutiple E = inl files
       /\ files <> []))
  /\ c_checkFilesReadable E files = None
  /\ c_sendAction E true = Returns tt
  /\ (exists config,
        c_recvConfig E = Returns config
        /\ (progress = None <-> is_quiet config = true))
  /\ gDragFiles (snd (fst (uploadFiles toZ E remoteIsWindows g))) = None.
Proof.
  unfold uploadFiles, chooseUploadFiles.
  destruct (gDragFiles g) as [dragged|] eqn:ED.
  - session_steps E; intros H; among H.
    all: injection H as <- <-.
    all: split; [now left|].
    all: repeat (split; [solve [auto | now destruct a]|]).
    all: split; [|reflexivity].
    all: eexists; split; [reflexivity|].
    all: split; [auto; discriminate | auto; congruence].
  - destruct (c_SelectFileMutiple E) as [picked|z] eqn:EP.
    + destruct (length picked =? 0) eqn:L.
      * session_steps E; intros H; among H.
      * assert (NE : picked <> []) by (intros ->; discriminate).
        session_steps E; intros H; among H.
        all: injection H as <- <-.
        all: split; [now right|].
        all: repeat (split; [solve [auto | now destruct a]|]).
        all: split; [|exact ED].
        all: eexists; split; [reflexivity|].
        all: split; [auto; discriminate | auto; congruence].
    + destruct z; [|intros H; among H].
      session_steps E; intros H; among H.
Qed.

Lemma uploadFiles_guarded_witness :
  let E := demo_cenv (inr ErrCanceled) (inr ErrCanceled) true in
  let g := {| gDragFiles := Some [bs "/home/u/a.txt"]; gDragHasDir := false;
              gInterrupting := false; gTransfer := Some 1 |} in
  In (ClientSendFiles [bs "/home/u/a.txt"] None)
     (fst (fst (uploadFiles (fun z => z) E false g)))
  /\ gDragFiles (snd (fst (uploadFiles (fun z => z) E false g))) = None.
Proof.
  cbv zeta.
  match goal with
  | |- ?A /\ _ => assert (H : A) by (vm_compute; tauto)
  end.
  split; [exact H|].
  destruct (@uploadFiles_guarded Z (fun z => z) _ false _ _ _ H)
    as (_ & _ & _ & _ & C).
  exact C.
Defined.

Lemma existsb_OnResizeClear (evs : list cevent) :
  existsb is_OnResizeClear evs = true -> In OnResizeClear evs.
Proof.
  intros H. apply existsb_exists in H as (ev & Hin & Hev).
  now destruct ev.
Qed.

Lemma count_app p (a b : list cevent) : count p (a ++ b) = count p a + count p b.
Proof. unfold count. now rewrite filter_app, length_app. Qed.

Lemma count_none p (evs : list cevent) :
  forallb (fun ev => negb (p ev)) evs = true -> count p evs = 0.
Proof.
  unfold count. induction evs as [|ev evs IH]; cbn; [reflexivity|].
  intros H. apply andb_true_iff in H as [H1 H2].
  destruct (p ev); [discriminate H1 | auto].
Qed.

Lemma none_among p (evs pre post : list cevent) ev :
  forallb (fun ev => negb (p ev)) evs = true ->
  evs = pre ++ ev :: post -> p ev = false.
Proof.
  intros H ->. rewrite forallb_app in H. cbn in H.
  apply andb_true_iff in H as [_ H]. apply andb_true_iff in H as [H _].
  now destruct (p ev).
Qed.

(** [handleTrzsz] as the transfer followed by the report of its outcome. *)
Lemma handleTrzsz_events (F : Type) (toZ : F -> Z) (E : cenv F)
    (t : transfer) (mode : byte) (remoteIsWindows : bool) (g : globals) :
  exists evs g2 r,
    (if Byte.eqb mode "S"
     then downloadFiles toZ E remoteIsWindows (handleTrzsz_enter g t)
     else if Byte.eqb mode "R"
          then uploadFiles toZ E remoteIsWindows (handleTrzsz_enter g t)
          else ([], handleTrzsz_enter g t, Val tt)) = (evs, g2, r)
    /\ handleTrzsz toZ E t mode remoteIsWindows g
       = (evs ++ fst (report_outcome E r), handleTrzsz_exit g2)
    /\ handleTrzsz_panics toZ E t mode remoteIsWindows g
       = snd (report_outcome E r).
Proof.
  unfold handleTrzsz, handleTrzsz_panics, handleTrzsz_outcome.
  destruct (if Byte.eqb mode "S" then _ else _) as [[evs g2] r].
  exists evs, g2, r. now destruct (report_outcome E r).
Qed.

(** The transfer itself: the resize handler is set at most once and cleared
    after it is set, and [clientError] is not called. *)
Lemma transfer_events (F : Type) (toZ : F -> Z) (E : cenv F)
    (mode : byte) (remoteIsWindows : bool) (g : globals) evs g2 r :
  (if Byte.eqb mode "S" then downloadFiles toZ E remoteIsWindows g
   else if Byte.eqb mode "R" then uploadFiles toZ E remoteIsWindows g
        else ([], g, Val tt)) = (evs, g2, r) ->
  count is_OnResizeSet evs <= 1
  /\ after_each is_OnResizeSet (existsb is_OnResizeClear) evs = true
  /\ forallb (fun ev => negb (is_ClientError ev)) evs = true
  /\ forallb (fun ev => negb (is_OnResizeSet ev)) (fst (report_outcome E r))
     = true.
Proof.
  assert (R : forallb (fun ev => negb (is_OnResizeSet ev))
                (fst (report_outcome E r)) = true).
  { unfold report_outcome.
    destruct r as [u|e|msg]; [| destruct (c_clientError E e) |];
      reflexivity. }
  unfold count.
  destruct (Byte.eqb mode "S"); [|destruct (Byte.eqb mode "R")].
  - unfold downloadFiles, chooseDownloadPath_call.
    destruct (chooseDownloadPath _ _) as [[p|[|]] [|]];
      session_steps E; intros [= <- _ _];
      (split; [cbn; lia|]); (split; [reflexivity|]);
      (split; [reflexivity | exact R]).
  - unfold uploadFiles, chooseUploadFiles.
    destruct (gDragFiles _) as [dragged|];
      [|destruct (c_SelectFileMutiple E) as [picked|[|]];
        [destruct (length picked =? 0)| |]];
      session_steps E; intros [= <- _ _];
      (split; [cbn; lia|]); (split; [reflexivity|]);
      (split; [reflexivity | exact R]).
  - intros [= <- _ _]. cbn. repeat split; [lia | exact R].
Qed.

(** A session cleans up on every path, whatever its calls answer and also
    when a call on the engine (sendAction, recvConfig, recvFiles, sendFiles,
    clientExit, clientError) or [pty.GetColumns] panics.  [gTransfer] is nil
    when [handleTrzsz] ends, also when it ends in a panic.  The resize
    handler is set at most once, and whenever it is set it is cleared
    afterwards.  A call of [clientError] that returns is the last call of
    the session; one that panics is either followed by exactly one more
    call, that of the deferred function with the recovered panic, or is
    that call itself, and then the panic leaves [handleTrzsz].  So
    [clientError] is called at most twice, and a panic leaves [handleTrzsz]
    only from the call of [clientError] that reports a recovered panic. *)
Theorem handleTrzsz_cleanup (F : Type) (toZ : F -> Z) (E : cenv F)
    (t : transfer) (mode : byte) (remoteIsWindows : bool) (g : globals) :
  let evs := fst (handleTrzsz toZ E t mode remoteIsWindows g) in
  let panics := handleTrzsz_panics toZ E t mode remoteIsWindows g in
  gTransfer (snd (handleTrzsz toZ E t mode remoteIsWindows g)) = None
  /\ count is_OnResizeSet evs <= 1
  /\ (forall pre post, evs = pre ++ OnResizeSet :: post ->
                       In OnResizeClear post)
  /\ (forall pre e post, evs = pre ++ ClientError e :: post ->
        (c_clientError E e = None /\ post = [])
        \/ exists msg,
             c_clientError E e = Some msg
             /\ (post = [ClientError (PanicError msg)]
                 \/ (post = [] /\ panics = Some msg)))
  /\ count is_ClientError evs <= 2
  /\ (forall msg, panics = Some msg ->
        exists pre recovered,
          evs = pre ++ [ClientError (PanicError recovered)]
          /\ c_clientError E (PanicError recovered) = Some msg).
Proof.
  cbv zeta.
  destruct (handleTrzsz_events toZ E t mode remoteIsWindows g)
    as (evs & g2 & r & Hb & -> & ->).
  destruct (transfer_events _ _ _ _ _ Hb) as (S1 & S2 & S3 & S4).
  cbn [fst snd].
  split; [reflexivity|].
  split; [rewrite count_app, (count_none _ _ S4); lia|].
  split; [|split; [|split]].
  - intros pre post Hevs.
    apply app_eq_event in Hevs
      as [(post' & -> & ->) | (pre' & _ & Hc)].
    + apply in_or_app. left. apply existsb_OnResizeClear.
      exact (@after_each_spec _ _ _ S2 pre _ post' eq_refl eq_refl).
    + discriminate (@none_among _ _ _ _ _ S4 Hc).
  - intros pre e post Hevs.
    apply app_eq_event in Hevs
      as [(post' & He & _) | (pre' & _ & Hc)].
    + discriminate (@none_among _ _ _ _ _ S3 He).
    + revert Hc. unfold report_outcome.
      destruct r as [u|e0|msg0];
        [|destruct (c_clientError E e0) as [msg1|] eqn:E0|];
        cbn [fst snd]; intros Hc.
      * now destruct pre'.
      * destruct pre' as [|x [|y [|z pre']]]; try discriminate Hc.
        -- injection Hc; intros; subst. right. exists msg1. split; [exact E0 | now left].
        -- injection Hc; intros; subst.
           destruct (c_clientError E (PanicError msg1)) as [msg2|] eqn:E1;
             [right; exists msg2; split; [reflexivity | now right]
             | now left].
      * destruct pre' as [|x [|y pre']]; try discriminate Hc.
        -- injection Hc; intros; subst. now left.
      * destruct pre' as [|x [|y pre']]; try discriminate Hc.
        -- injection Hc; intros; subst.
           destruct (c_clientError E (PanicError msg0)) as [msg2|] eqn:E1;
             [right; exists msg2; split; [reflexivity | now right]
             | now left].
  - rewrite count_app, (count_none _ _ S3). unfold report_outcome, count.
    destruct r as [u|e0|msg0]; [|destruct (c_clientError E e0)|];
      cbn; lia.
  - intros msg. unfold report_outcome.
    destruct r as [u|e0|msg0];
      [|destruct (c_clientError E e0) as [msg1|] eqn:E0|];
      cbn [fst snd]; intros Hp; try discriminate Hp.
    + exists (evs ++ [ClientError e0]), msg1.
      now rewrite <- app_assoc.
    + now exists evs, msg0.
Qed.

(** A peer that does not answer the confirmation of an upload of dragged
    files, with a [clientError] that panics on the error and returns on the
    recovered panic: the error is reported, the panic of the report is
    recovered and reported in turn, and the session ends with the reference
    cleared and the dragged files taken. *)
Example handleTrzsz_clientError_panics :
  let g := {| gDragFiles := Some [bs "/home/u/a.txt"]; gDragHasDir := false;
              gInterrupting := false; gTransfer := None |} in
  handleTrzsz (fun z => z) (broken_cenv None) 7 "R" false g
  = ([CheckFilesReadable [bs "/home/u/a.txt"]; SendAction true false;
      ClientError (TrzszError (bs "timeout"));
      ClientError (PanicError (bs "closed"))],
     idle)
  /\ handleTrzsz_panics (fun z => z) (broken_cenv None) 7 "R" false g = None
  /\ handleTrzsz_panics (fun z => z) (broken_cenv (Some (bs "closed again")))
       7 "R" false g
     = Some (bs "closed again")
  /\ snd (handleTrzsz (fun z => z) (broken_cenv (Some (bs "closed again")))
            7 "R" false g)
     = idle.
Proof. repeat split. Qed.

(** What a session answers the peer.  A download sends the refusal
    [sendAction(false)] exactly when choosing the folder was cancelled, and
    the confirmation [sendAction(true)] exactly when a folder was chosen
    and [checkPathWritable] accepted it.  An upload sends the refusal
    exactly when no dragged files were pending and the picker was cancelled
    or returned no file, and the confirmation exactly when there were
    files, dragged or picked, and [checkFilesReadable] accepted them. *)
Theorem handleTrzsz_answer (F : Type) (toZ : F -> Z) (E : cenv F)
    (t : transfer) (remoteIsWindows : bool) (g : globals) :
  let download := fst (handleTrzsz toZ E t "S" remoteIsWindows g) in
  let upload := fst (handleTrzsz toZ E t "R" remoteIsWindows g) in
  let folder := fst (chooseDownloadPath (c_host E) (c_SelectFile E)) in
  (In (SendAction false remoteIsWindows) download
   <-> folder = inr ErrCanceled)
  /\ (In (SendAction true remoteIsWindows) download
      <-> exists path,
            folder = inl path /\ c_checkPathWritable E path = None)
  /\ (In (SendAction false remoteIsWindows) upload
      <-> gDragFiles g = None
          /\ (c_SelectFileMutiple E = inr ErrCanceled
              \/ c_SelectFileMutiple E = inl []))
  /\ (In (SendAction true remoteIsWindows) upload
      <-> exists files,
            (gDragFiles g = Some files
             \/ (gDragFiles g = None /\ c_SelectFileMutiple E = inl files
                 /\ files <> []))
            /\ c_checkFilesReadable E files = None).
Proof.
  cbv zeta.
  assert (A : forall mode b,
             In (SendAction b remoteIsWindows)
                (fst (handleTrzsz toZ E t mode remoteIsWindows g))
             <-> In (SendAction b remoteIsWindows)
                    (fst (fst (if Byte.eqb mode "S"
                               then downloadFiles toZ E remoteIsWindows
                                      (handleTrzsz_enter g t)
                               else if Byte.eqb mode "R"
                                    then uploadFiles toZ E remoteIsWindows
                                           (handleTrzsz_enter g t)
                                    else ([], handleTrzsz_enter g t,
                                          Val tt))))).
  { intros mode b.
    destruct (handleTrzsz_events toZ E t mode remoteIsWindows g)
      as (evs & g2 & r & -> & -> & _).
    cbn [fst]. rewrite in_app_iff. split; [|now left].
    intros [H|H]; [exact H|]. exfalso. revert H. unfold report_outcome.
    destruct r as [u|e|msg]; [|destruct (c_clientError E e)|];
      intros H; among H. }
  rewrite !A.
  change (Byte.eqb "S" "S") with true.
  change (Byte.eqb "R" "S") with false.
  change (Byte.eqb "R" "R") with true.
  cbv beta iota.
  split; [|split; [|split]].
  - unfold downloadFiles, chooseDownloadPath_call.
    destruct (chooseDownloadPath _ _) as [[p|[|]] [|]];
      session_steps E; cbn [fst snd app];
      (split; [intros H; among H | intros H; try discriminate H]).
    all: try reflexivity.
    all: try (cbn; tauto).
  - unfold downloadFiles, chooseDownloadPath_call.
    destruct (chooseDownloadPath _ _) as [[p|[|]] [|]];
      session_steps E; cbn [fst snd app];
      (split; [intros H; among H | intros (path & H & Hc)]).
    all: try discriminate H.
    all: try (exists p; now split).
    all: try (injection H as <-; congruence).
    all: try (cbn; tauto).
  - unfold uploadFiles, chooseUploadFiles.
    cbn [gDragFiles handleTrzsz_enter].
    destruct (gDragFiles g) as [dragged|];
      [|destruct (c_SelectFileMutiple E) as [picked|[|]];
        [destruct (length picked =? 0) eqn:L| |]];
      session_steps E; cbn [fst snd app];
      (split; [intros H; among H | intros (Hd & Hp)]).
    all: try discriminate Hd.
    all: try (destruct picked; [|discriminate L]).
    all: try (split; [reflexivity|]; auto; fail).
    all: try (destruct Hp as [Hp|Hp]; try discriminate Hp).
    all: try (injection Hp as ->; discriminate L).
    all: try (cbn; tauto).
  - unfold uploadFiles, chooseUploadFiles.
    cbn [gDragFiles handleTrzsz_enter].
    destruct (gDragFiles g) as [dragged|];
      [|destruct (c_SelectFileMutiple E) as [picked|[|]];
        [destruct (length picked =? 0) eqn:L| |]];
      session_steps E; cbn [fst snd app];
      (split;
       [ intros H; among H
       | intros (files & [[= <-] | (Hd & Hp & Hn)] & Hc);
         try discriminate Hd; try discriminate Hp;
         try (injection Hp as <-) ]).
    all: try congruence.
    all: try (exists dragged; split; [now left | assumption]).
    all: try (exists picked; split; [right | assumption];
              split; [reflexivity|]; split; [reflexivity|];
              intros ->; discriminate L).
    all: try (destruct picked; [contradiction | discriminate L]).
    all: cbn; tauto.
Qed.

(** ** The input pump over a run of reads *)

Lemma wrapInput_body_Continue detectDragFiles dragFile g buf e :
  snd (wrapInput_body detectDragFiles dragFile g buf e) = Continue.
Proof.
  unfold wrapInput_body.
  destruct e; [now destruct buf|].
  destruct buf as [|c d]; [reflexivity|].
  destruct (gTransfer g); [now destruct (Byte.eqb c x03)|].
  destruct dragFile; [|reflexivity].
  destruct (detectDragFiles (c :: d)) as [[files|] hasDir];
    now destruct (gDragFiles g).
Qed.

(** Only the end of the input on a system other than Windows ends the
    loop. *)
Lemma wrapInput_iter_status IsWindows detectDragFiles dragFile g r :
  snd (wrapInput_iter IsWindows detectDragFiles dragFile g r)
  = if IsWindows then Continue
    else match err r with Some EOF => Break | _ => Continue end.
Proof.
  unfold wrapInput_iter.
  destruct (err r) as [[|]|], IsWindows; cbn [snd];
    try apply wrapInput_body_Continue; reflexivity.
Qed.

(** A pass with no session current and no dragged files found forwards
    what it read. *)
Lemma wrapInput_body_forwards detectDragFiles dragFile g buf :
  gTransfer g = None ->
  (dragFile = true -> fst (detectDragFiles buf) = None) ->
  snd (fst (wrapInput_body detectDragFiles dragFile g buf None))
  = match buf with [] => [] | _ => [PtyStdinWrite buf] end.
Proof.
  intros Ht Hd. unfold wrapInput_body.
  destruct buf as [|c d]; [reflexivity|]. rewrite Ht.
  destruct dragFile; [|reflexivity].
  specialize (Hd eq_refl).
  destruct (detectDragFiles (c :: d)) as [[files|] hasDir];
    [discriminate Hd | now destruct (gDragFiles g)].
Qed.

(** The input pump is transparent.  While no session is current and no
    dragged files are found, over reads that deliver bytes or fail with an
    error other than the end of the input, the pump does nothing but write
    to the child: the child receives exactly the bytes read, chunk by chunk
    and in order, and a failed read is passed over. *)
Theorem wrapInput_transparent IsWindows detectDragFiles dragFile
    (reads : list (globals * read_result)) :
  Forall (fun gr =>
            gTransfer (fst gr) = None
            /\ err (snd gr) <> Some EOF
            /\ (dragFile = true ->
                fst (detectDragFiles (data (snd gr))) = None)) reads ->
  let evs := wrapInput IsWindows detectDragFiles dragFile reads in
  child_bytes evs = chunks_read reads
  /\ Forall (fun ev => exists b, ev = PtyStdinWrite b) evs.
Proof.
  cbv zeta. induction 1 as [|[g r] reads (Ht & He & Hd) _ [IH1 IH2]];
    [split; [reflexivity | constructor]|].
  cbn [wrapInput chunks_read fst snd] in *.
  pose proof (wrapInput_iter_status IsWindows detectDragFiles dragFile g r)
    as St.
  assert (Ev : snd (fst (wrapInput_iter IsWindows detectDragFiles dragFile g r))
               = match err r, data r with
                 | None, _ :: _ => [PtyStdinWrite (data r)]
                 | _, _ => []
                 end).
  { unfold wrapInput_iter.
    destruct (err r) as [[|]|]; [contradiction | now destruct (data r) |].
    rewrite (@wrapInput_body_forwards detectDragFiles dragFile g (data r) Ht Hd).
    reflexivity. }
  destruct (wrapInput_iter _ _ _ _ _) as [[g' evs] st].
  cbn [fst snd] in St, Ev. subst evs.
  assert (st = Continue) as ->
    by (rewrite St; destruct IsWindows; [reflexivity|];
        destruct (err r) as [[|]|]; [contradiction | reflexivity..]).
  destruct (err r) as [[|]|]; [contradiction | now split |].
  destruct (data r) as [|c d] eqn:Dr.
  - now split.
  - split.
    + cbn [app child_bytes]. now rewrite IH1.
    + constructor; [now exists (c :: d) | exact IH2].
Qed.

Lemma wrapInput_transparent_witness :
  let reads := [(idle, read_ok (bs "ls"));
                (idle, {| data := []; err := Some OtherError |});
                (idle, read_ok [x0d])] in
  child_bytes (wrapInput false (fun _ => (None, false)) true reads)
  = bs "ls" ++ [x0d].
Proof.
  cbv zeta.
  refine (proj1 (@wrapInput_transparent false (fun _ => (None, false)) true
                   _ _)).
  repeat constructor; discriminate.
Defined.

Lemma wrapInput_body_no_close detectDragFiles dragFile g buf e :
  ~ In PtyStdinClose
       (snd (fst (wrapInput_body detectDragFiles dragFile g buf e))).
Proof.
  unfold wrapInput_body.
  destruct e; [destruct buf; intros []|].
  destruct buf as [|c d]; [intros []|].
  destruct (gTransfer g);
    [destruct (Byte.eqb c x03); cbn; intuition discriminate|].
  destruct dragFile; [|cbn; intuition discriminate].
  destruct (detectDragFiles (c :: d)) as [[files|] hasDir];
    destruct (gDragFiles g); cbn; intuition discriminate.
Qed.

(** A pass that does not find the end of the input on a system other than
    Windows goes on to the next one, without closing the child's stdin. *)
Lemma wrapInput_iter_goes_on IsWindows detectDragFiles dragFile g r :
  IsWindows = true \/ err r <> Some EOF ->
  exists g' evs,
    wrapInput_iter IsWindows detectDragFiles dragFile g r
    = (g', evs, Continue)
    /\ ~ In PtyStdinClose evs.
Proof.
  intros H.
  pose proof (wrapInput_iter_status IsWindows detectDragFiles dragFile g r)
    as St.
  assert (N : ~ In PtyStdinClose
                   (snd (fst (wrapInput_iter IsWindows detectDragFiles
                                dragFile g r)))).
  { unfold wrapInput_iter.
    destruct (err r) as [[|]|]; try apply wrapInput_body_no_close.
    destruct IsWindows; [apply wrapInput_body_no_close|].
    destruct H as [H|H]; [discriminate H | now contradiction H]. }
  destruct (wrapInput_iter _ _ _ _ _) as [[g' evs] st].
  cbn [fst snd] in St, N. exists g', evs. split; [|exact N].
  rewrite St. destruct IsWindows; [reflexivity|].
  destruct H as [H|H]; [discriminate H|].
  destruct (err r) as [[|]|]; [now contradiction H | reflexivity..].
Qed.

Lemma wrapInput_app IsWindows detectDragFiles dragFile
    (before rest : list (globals * read_result)) :
  Forall (fun gr => IsWindows = true \/ err (snd gr) <> Some EOF) before ->
  wrapInput IsWindows detectDragFiles dragFile (before ++ rest)
  = wrapInput IsWindows detectDragFiles dragFile before
    ++ wrapInput IsWindows detectDragFiles dragFile rest
  /\ ~ In PtyStdinClose
          (wrapInput IsWindows detectDragFiles dragFile before).
Proof.
  induction 1 as [|[g r] before H _ [IH1 IH2]]; [split; [reflexivity|intros []]|].
  cbn [app wrapInput].
  destruct (@wrapInput_iter_goes_on IsWindows detectDragFiles dragFile g r H)
    as (g' & evs & -> & N).
  rewrite IH1. split; [now rewrite app_assoc|].
  rewrite in_app_iff. tauto.
Qed.

(** The end of the input on a system other than Windows.  The first end of
    the input closes the child's stdin and ends the loop, whatever is
    current then: the child's stdin is closed once, as the pump's last act,
    and nothing is done for the reads that follow. *)
Theorem wrapInput_end_of_input detectDragFiles dragFile
    (before after : list (globals * read_result)) g r :
  Forall (fun gr => err (snd gr) <> Some EOF) before ->
  err r = Some EOF ->
  wrapInput false detectDragFiles dragFile (before ++ (g, r) :: after)
  = wrapInput false detectDragFiles dragFile before ++ [PtyStdinClose]
  /\ ~ In PtyStdinClose (wrapInput false detectDragFiles dragFile before).
Proof.
  intros Hb He.
  assert (Hb' : Forall (fun gr : globals * read_result =>
                          false = true \/ err (snd gr) <> Some EOF) before)
    by (eapply Forall_impl; [|exact Hb]; intros gr; now right).
  destruct (@wrapInput_app false detectDragFiles dragFile before ((g, r) :: after) Hb')
    as [-> N].
  split; [|exact N]. f_equal.
  cbn [wrapInput]. unfold wrapInput_iter. now rewrite He.
Qed.

Lemma wrapInput_end_of_input_witness :
  let eof := {| data := []; err := Some EOF |} in
  wrapInput false (fun _ => (None, false)) false
    ([(idle, read_ok (bs "exit"))] ++ (idle, eof) :: [(idle, read_ok (bs "ls"))])
  = [PtyStdinWrite (bs "exit"); PtyStdinClose].
Proof.
  cbv zeta.
  refine (proj1 (@wrapInput_end_of_input (fun _ => (None, false)) false
                   [(idle, read_ok (bs "exit"))] [(idle, read_ok (bs "ls"))]
                   idle _ _ _)).
  - repeat constructor; discriminate.
  - reflexivity.
Defined.

(** The end of the input on Windows.  The pump never closes the child's
    stdin and never leaves its loop: every read is served, and an end of
    the input met while no session is current (and taken for no dragged
    file) is passed to the child as the byte 0x1A. *)
Theorem wrapInput_windows_ctrl_z detectDragFiles dragFile
    (reads rest : list (globals * read_result)) g r :
  wrapInput true detectDragFiles dragFile (reads ++ rest)
  = wrapInput true detectDragFiles dragFile reads
    ++ wrapInput true detectDragFiles dragFile rest
  /\ ~ In PtyStdinClose (wrapInput true detectDragFiles dragFile reads)
  /\ (err r = Some EOF -> gTransfer g = None ->
      (dragFile = true -> fst (detectDragFiles [x1a]) = None) ->
      wrapInput true detectDragFiles dragFile [(g, r)]
      = [PtyStdinWrite [x1a]]).
Proof.
  assert (H : Forall (fun gr : globals * read_result =>
                        true = true \/ err (snd gr) <> Some EOF) reads)
    by (apply Forall_forall; intros gr _; now left).
  destruct (@wrapInput_app true detectDragFiles dragFile reads rest H) as [E N].
  split; [exact E|]. split; [exact N|].
  intros He Ht Hd. cbn [wrapInput].
  pose proof (@wrapInput_body_forwards detectDragFiles dragFile g [x1a] Ht Hd) as Ev.
  pose proof (wrapInput_body_Continue detectDragFiles dragFile g [x1a] None)
    as St.
  unfold wrapInput_iter. rewrite He.
  destruct (wrapInput_body _ _ _ _ _) as [[g' evs] st].
  cbn [fst snd] in Ev, St. subst. reflexivity.
Qed.

Lemma wrapInput_windows_ctrl_z_witness :
  wrapInput true (fun _ => (None, false)) true
    [(idle, {| data := []; err := Some EOF |})]
  = [PtyStdinWrite [x1a]].
Proof.
  refine (proj2 (proj2 (@wrapInput_windows_ctrl_z (fun _ => (None, false))
                          true [] [] idle
                          {| data := []; err := Some EOF |}))
                _ _ _); reflexivity.
Defined.

(** ** Dragged files *)

(** Once dragged files are pending, the chunks that hold more of them add
    to the list and write nothing. *)
Lemma wrapInput_alone_more IsWindows detectDragFiles (chunks : list bytes) :
  Forall (fun b => b <> [] /\ fst (detectDragFiles b) <> None) chunks ->
  forall g old,
    gTransfer g = None -> gDragFiles g = Some old ->
    wrapInput_alone IsWindows detectDragFiles true g (map read_ok chunks)
    = ({| gDragFiles := Some (old ++ dragged_files detectDragFiles chunks);
          gDragHasDir := gDragHasDir g || dragged_dir detectDragFiles chunks;
          gInterrupting := gInterrupting g;
          gTransfer := None |}, []).
Proof.
  induction 1 as [|b chunks [Hb Hd] _ IH]; intros g old Ht Ho.
  - cbn. rewrite app_nil_r, orb_false_r. destruct g; cbn in *. now subst.
  - destruct b as [|c d]; [contradiction|].
    cbn [map wrapInput_alone]. unfold wrapInput_iter.
    change (err (read_ok (c :: d))) with (@None read_error).
    change (data (read_ok (c :: d))) with (c :: d).
    unfold wrapInput_body. rewrite Ht.
    unfold dragged_files, dragged_dir. cbn [flat_map existsb].
    destruct (detectDragFiles (c :: d)) as [[files|] hasDir];
      [|contradiction]. rewrite Ho. cbn [fst snd].
    erewrite IH; [|reflexivity|reflexivity]. cbn.
    now rewrite app_assoc, orb_assoc.
Qed.

(** Files dragged in several chunks are uploaded together.  From a state
    with no session and no pending files, over chunks that all hold dragged
    files, the input pump starts [uploadDragFiles] once and writes nothing
    to the child; [uploadDragFiles] then interrupts the child and types the
    command ("trz", or the notice when a directory is among the files); and
    [chooseUploadFiles], called by the session that "trz" starts, returns
    all the files in the order they were dragged, without showing the
    picker, and leaves nothing pending for the end of [uploadDragFiles] to
    clear. *)
Theorem dragged_files_uploaded_together IsWindows detectDragFiles
    (F : Type) (E : cenv F) (t : transfer) (g : globals)
    (chunks : list bytes) :
  gTransfer g = None -> gDragFiles g = None -> chunks <> [] ->
  Forall (fun b => b <> [] /\ fst (detectDragFiles b) <> None) chunks ->
  let files := dragged_files detectDragFiles chunks in
  let hasDir := dragged_dir detectDragFiles chunks in
  let pumped :=
    wrapInput_alone IsWindows detectDragFiles true g (map read_ok chunks) in
  let interrupted := uploadDragFiles_interrupt (fst pumped) in
  let typed := uploadDragFiles_type (fst (fst interrupted)) in
  let chosen := chooseUploadFiles E (handleTrzsz_enter (fst typed) t) in
  snd pumped = [Go UploadDragFiles]
  /\ interrupted
     = ({| gDragFiles := Some files; gDragHasDir := hasDir;
           gInterrupting := true; gTransfer := None |},
        [PtyStdinWrite [x03]], true)
  /\ snd typed = [PtyStdinWrite (kTrzCommand hasDir)]
  /\ gInterrupting (fst typed) = false
  /\ chosen
     = ([], {| gDragFiles := None; gDragHasDir := false;
               gInterrupting := false; gTransfer := Some t |}, Val files)
  /\ uploadDragFiles_clear (snd (fst chosen)) = snd (fst chosen).
Proof.
  intros Ht Hn Hne H. destruct H as [|b chunks [Hb Hd] H]; [contradiction|].
  destruct b as [|c d]; [contradiction|].
  cbv zeta. cbn [map wrapInput_alone]. unfold wrapInput_iter.
  change (err (read_ok (c :: d))) with (@None read_error).
  change (data (read_ok (c :: d))) with (c :: d).
  unfold wrapInput_body. rewrite Ht, Hn.
  unfold dragged_files, dragged_dir. cbn [flat_map existsb].
  destruct (detectDragFiles (c :: d)) as [[files|] hasDir]; [|contradiction].
  cbn [fst snd].
  erewrite (@wrapInput_alone_more IsWindows detectDragFiles chunks H);
    [|reflexivity|reflexivity].
  cbn. repeat split; reflexivity.
Qed.

Lemma dragged_files_uploaded_together_witness :
  let detect (b : bytes) :=
    if GoBytes.HasPrefix b (bs "/") then (Some [b], false)
    else (None, false) in
  let E := demo_cenv (inr ErrCanceled) (inr ErrCanceled) false in
  let pumped :=
    wrapInput_alone false detect true idle
      (map read_ok [bs "/home/u/a.txt"; bs "/home/u/b.txt"]) in
  snd pumped = [Go UploadDragFiles]
  /\ fst (chooseUploadFiles E
            (handleTrzsz_enter
               (fst (uploadDragFiles_type
                       (fst (fst (uploadDragFiles_interrupt (fst pumped))))))
               7))
     = ([], {| gDragFiles := None; gDragHasDir := false;
               gInterrupting := false; gTransfer := Some 7 |}).
Proof.
  cbv zeta.
  destruct (@dragged_files_uploaded_together false
              (fun b => if GoBytes.HasPrefix b (bs "/") then (Some [b], false)
                        else (None, false))
              Z (demo_cenv (inr ErrCanceled) (inr ErrCanceled) false) 7 idle
              [bs "/home/u/a.txt"; bs "/home/u/b.txt"])
    as (H1 & _ & _ & _ & H5 & _).
  - reflexivity.
  - reflexivity.
  - discriminate.
  - repeat constructor; discriminate.
  - split; [exact H1 | exact (f_equal fst H5)].
Defined.

(** Pending dragged files are dropped.  After files were dragged as in
    the theorem before, the end of [uploadDragFiles], one second after the
    command was typed, drops them if no session has taken them: a session
    that starts later shows the file picker.  So does the next input that
    holds no dragged file: the pump drops the pending files and passes that
    input on to the child. *)
Theorem dragged_files_expire IsWindows detectDragFiles
    (F : Type) (E : cenv F) (t : transfer) (g : globals)
    (chunks : list bytes) :
  gTransfer g = None -> gDragFiles g = None -> chunks <> [] ->
  Forall (fun b => b <> [] /\ fst (detectDragFiles b) <> None) chunks ->
  let pumped :=
    wrapInput_alone IsWindows detectDragFiles true g (map read_ok chunks) in
  let typed :=
    uploadDragFiles_type
      (fst (fst (uploadDragFiles_interrupt (fst pumped)))) in
  let cleared := uploadDragFiles_clear (fst typed) in
  cleared = idle
  /\ fst (fst (chooseUploadFiles E (handleTrzsz_enter cleared t)))
     = [ZenitySelectFileMutiple
          (getTrzszConfig (c_host E) (bs "DefaultUploadPath"))]
  /\ forall b, b <> [] -> fst (detectDragFiles b) = None ->
       wrapInput_alone IsWindows detectDragFiles true (fst pumped)
         [read_ok b]
       = ({| gDragFiles := None; gDragHasDir := false;
             gInterrupting := gInterrupting g; gTransfer := None |},
          [PtyStdinWrite b]).
Proof.
  intros Ht Hn Hne H. destruct H as [|b0 chunks [Hb Hd] H]; [contradiction|].
  destruct b0 as [|c d]; [contradiction|].
  cbv zeta. cbn [map wrapInput_alone]. unfold wrapInput_iter.
  change (err (read_ok (c :: d))) with (@None read_error).
  change (data (read_ok (c :: d))) with (c :: d).
  unfold wrapInput_body. rewrite Ht, Hn.
  destruct (detectDragFiles (c :: d)) as [[files|] hasDir]; [|contradiction].
  erewrite (@wrapInput_alone_more IsWindows detectDragFiles chunks H);
    [|reflexivity|reflexivity].
  cbn [fst snd app]. split; [reflexivity|]. split; [reflexivity|].
  intros b Hb' Hd'. unfold wrapInput_iter.
  change (err (read_ok b)) with (@None read_error).
  change (data (read_ok b)) with b.
  unfold wrapInput_body. destruct b as [|c' d']; [contradiction|].
  cbn [gTransfer gDragFiles gInterrupting].
  destruct (detectDragFiles (c' :: d')) as [[fs|] hd]; [discriminate Hd'|].
  reflexivity.
Qed.

Lemma dragged_files_expire_witness :
  let detect (b : bytes) :=
    if GoBytes.HasPrefix b (bs "/") then (Some [b], false)
    else (None, false) in
  let E := demo_cenv (inr ErrCanceled) (inr ErrCanceled) false in
  let pumped :=
    wrapInput_alone false detect true idle (map read_ok [bs "/home/u/a.txt"]) in
  gDragFiles (fst pumped) = Some [bs "/home/u/a.txt"]
  /\ wrapInput_alone false detect true (fst pumped) [read_ok (bs "ls")]
     = (idle, [PtyStdinWrite (bs "ls")]).
Proof.
  cbv zeta. split; [reflexivity|].
  refine (proj2 (proj2 (@dragged_files_expire false
                          (fun b => if GoBytes.HasPrefix b (bs "/")
                                    then (Some [b], false)
                                    else (None, false))
                          Z (demo_cenv (inr ErrCanceled) (inr ErrCanceled)
                               false)
                          7 idle [bs "/home/u/a.txt"] eq_refl eq_refl _ _))
                (bs "ls") _ eq_refl).
  - discriminate.
  - repeat constructor; discriminate.
  - discriminate.
Defined.

(** ** Signals over a run *)

(** The child is terminated once.  Over any sequence of signals,
    [pty.Terminate] is called once if the first goroutine is still waiting
    and a SIGTERM is among them, and not at all otherwise: the goroutine
    serves the first SIGTERM and is gone for the later ones.  Apart from
    that the handlers do exactly this: each interrupt delivered while a
    session is current stops that session, also after the SIGTERM, and an
    interrupt delivered while none is current does nothing. *)
Theorem handleSignal_terminates_once (deliveries : list (globals * signal))
    (term_waiting : bool) :
  length (filter is_PtyTerminate (handleSignal_run term_waiting deliveries))
  = (if term_waiting && existsb (fun d => is_SIGTERM (snd d)) deliveries
     then 1 else 0)
  /\ filter (fun ev => negb (is_PtyTerminate ev))
            (handleSignal_run term_waiting deliveries)
     = flat_map interrupted deliveries.
Proof.
  revert term_waiting.
  induction deliveries as [|[g s] ds IH]; intros tw.
  - now rewrite andb_false_r.
  - cbn [handleSignal_run existsb flat_map snd]. unfold handleSignal_deliver.
    unfold interrupted at 1. cbn [fst snd].
    destruct s.
    + destruct (IH false) as [IH1 IH2].
      destruct tw; cbn [app filter is_PtyTerminate negb length is_SIGTERM orb
                        andb]; rewrite IH1, IH2; now split.
    + destruct (IH tw) as [IH1 IH2].
      destruct (gTransfer g);
        cbn [app filter is_PtyTerminate negb length is_SIGTERM orb];
        rewrite IH1, IH2; now split.
Qed.

(** ** [TrzszMain] *)

Lemma is_flag_false (a : bytes) (short long : string) :
  a <> bs short -> a <> bs long -> is_flag a short long = false.
Proof.
  intros H1 H2. unfold is_flag. apply orb_false_iff.
  split; apply not_true_is_false; intros H; apply bytes_eqb_eq in H;
    contradiction.
Qed.

Lemma is_flag_true (a : bytes) (short long : string) :
  a = bs short \/ a = bs long -> is_flag a short long = true.
Proof.
  intros H. unfold is_flag. apply orb_true_iff.
  destruct H as [H|H]; [left | right]; now apply bytes_eqb_eq.
Qed.

Lemma TrzszMain_spawn_first (e : menv) name args dragFile :
  hd_error (snd (TrzszMain_spawn e name args dragFile))
  = Some (Spawn name args)
  /\ (forall d, In (GoWrapInput d) (snd (TrzszMain_spawn e name args dragFile))
                \/ In (GoWrapOutput d)
                      (snd (TrzszMain_spawn e name args dragFile)) ->
                d = dragFile).
Proof.
  unfold TrzszMain_spawn.
  destruct (m_Spawn e name args); [|destruct (m_MakeRaw e)];
    (split; [reflexivity|]); intros d [H|H]; cbn in H;
    repeat (destruct H as [H|H]; try discriminate H); try contradiction;
    now injection H.
Qed.

(** The command line of the wrapper.  A first argument that is none of the
    options is the command: it is spawned with all the arguments after it,
    unchanged, options among them included, and the pumps run without drag
    support.  After [-d] or [--dragfile] the next argument is the command,
    whatever it is, spawned with the arguments after it, and the pumps run
    with drag support. *)
Theorem TrzszMain_command (e : menv) (prog cmd : bytes) (args : list bytes) :
  (cmd <> bs "-h" -> cmd <> bs "--help" ->
   cmd <> bs "-v" -> cmd <> bs "--version" ->
   cmd <> bs "-d" -> cmd <> bs "--dragfile" ->
   let evs := snd (TrzszMain e (prog :: cmd :: args)) in
   hd_error evs = Some (Spawn cmd args)
   /\ forall d, In (GoWrapInput d) evs \/ In (GoWrapOutput d) evs ->
                d = false)
  /\ (forall flag, flag = bs "-d" \/ flag = bs "--dragfile" ->
      let evs := snd (TrzszMain e (prog :: flag :: cmd :: args)) in
      hd_error evs = Some (Spawn cmd args)
      /\ forall d, In (GoWrapInput d) evs \/ In (GoWrapOutput d) evs ->
                   d = true).
Proof.
  split.
  - intros H1 H2 H3 H4 H5 H6. cbv zeta. unfold TrzszMain.
    rewrite !is_flag_false by assumption. apply TrzszMain_spawn_first.
  - intros flag Hf. cbv zeta. unfold TrzszMain.
    rewrite (@is_flag_true flag "-d" "--dragfile" Hf).
    replace (is_flag flag "-h" "--help") with false
      by (now destruct Hf as [-> | ->]).
    replace (is_flag flag "-v" "--version") with false
      by (now destruct Hf as [-> | ->]).
    apply TrzszMain_spawn_first.
Qed.

Lemma TrzszMain_command_witness :
  hd_error (snd (TrzszMain (demo_menv 0)
                   [bs "trzsz"; bs "ssh"; bs "-d"; bs "host"]))
  = Some (Spawn (bs "ssh") [bs "-d"; bs "host"])
  /\ hd_error (snd (TrzszMain (demo_menv 0)
                      [bs "trzsz"; bs "--dragfile"; bs "-h"]))
     = Some (Spawn (bs "-h") []).
Proof.
  split.
  - refine (proj1 (proj1 (@TrzszMain_command (demo_menv 0) (bs "trzsz")
                            (bs "ssh") [bs "-d"; bs "host"])
                         _ _ _ _ _ _)); discriminate.
  - exact (proj1 (proj2 (@TrzszMain_command (demo_menv 0) (bs "trzsz")
                           (bs "-h") [])
                        (bs "--dragfile") (or_intror eq_refl))).
Defined.

(** [TrzszMain] prints the help or the version, or goes on to spawn a
    command. *)
Lemma TrzszMain_cases (e : menv) (Args : list bytes) :
  TrzszMain e Args = (0%Z, [PrintHelp])
  \/ TrzszMain e Args = (0%Z, [PrintVersion])
  \/ exists name args dragFile,
       TrzszMain e Args = TrzszMain_spawn e name args dragFile.
Proof.
  unfold TrzszMain.
  destruct Args as [|prog [|a1 rest]]; [now left..|].
  destruct (is_flag a1 "-h" "--help"); [now left|].
  destruct (is_flag a1 "-v" "--version"); [now right; left|].
  destruct (is_flag a1 "-d" "--dragfile"); [|right; right; eauto].
  destruct rest as [|a2 rest']; [now left | right; right; eauto].
Qed.

(** Exit codes and clean-up of the wrapper.  [TrzszMain] closes the pty
    exactly when it has spawned the child, restores the terminal exactly
    when it has put it in raw mode, and waits for the child exactly then;
    closing and restoring are then its last two acts, the terminal first.
    It returns -1 when the child cannot be spawned, -2 when raw mode
    fails, the exit code of the child when it has waited for it, and 0 when
    it spawns nothing. *)
Theorem TrzszMain_cleanup (e : menv) (Args : list bytes) :
  let code := fst (TrzszMain e Args) in
  let evs := snd (TrzszMain e Args) in
  let spawned :=
    exists name args, In (Spawn name args) evs /\ m_Spawn e name args = None in
  (In PtyClose evs <-> spawned)
  /\ (In MainTermRestore evs <-> spawned /\ m_MakeRaw e = None)
  /\ (In PtyWait evs <-> spawned /\ m_MakeRaw e = None)
  /\ (spawned -> m_MakeRaw e = None ->
      code = m_ExitCode e
      /\ exists before, evs = before ++ [PtyWait; MainTermRestore; PtyClose])
  /\ (spawned -> m_MakeRaw e <> None -> code = (-2)%Z)
  /\ ((exists name args,
         In (Spawn name args) evs /\ m_Spawn e name args <> None) ->
      code = (-1)%Z)
  /\ ((forall name args, ~ In (Spawn name args) evs) -> code = 0%Z).
Proof.
  cbv zeta.
  destruct (TrzszMain_cases e Args) as [-> | [-> | (name & args & d & ->)]].
  1, 2: cbn [fst snd];
    (split; [split; [intros H; among H
                    | intros (n & a & H & _); among H]|]);
    (split; [split; [intros H; among H
                    | intros [(n & a & H & _) _]; among H]|]);
    (split; [split; [intros H; among H
                    | intros [(n & a & H & _) _]; among H]|]);
    (split; [intros (n & a & H & _); among H|]);
    (split; [intros (n & a & H & _); among H|]);
    (split; [intros (n & a & H & _); among H|]);
    reflexivity.
  assert (S1 : In (Spawn name args) (snd (TrzszMain_spawn e name args d)))
    by (unfold TrzszMain_spawn;
        destruct (m_Spawn e name args); [|destruct (m_MakeRaw e)];
        now left).
  assert (S2 : forall n a,
             In (Spawn n a) (snd (TrzszMain_spawn e name args d)) ->
             m_Spawn e n a = m_Spawn e name args).
  { intros n a. unfold TrzszMain_spawn.
    destruct (m_Spawn e name args) eqn:ES; [|destruct (m_MakeRaw e)];
      intros H; among H; injection H as <- <-; exact ES. }
  assert (S3 : (exists n a,
                  In (Spawn n a) (snd (TrzszMain_spawn e name args d))
                  /\ m_Spawn e n a = None)
               <-> m_Spawn e name args = None).
  { split; [intros (n & a & H & Hs); now rewrite <- (S2 _ _ H)
           | intros H; now exists name, args]. }
  assert (S4 : (exists n a,
                  In (Spawn n a) (snd (TrzszMain_spawn e name args d))
                  /\ m_Spawn e n a <> None)
               -> m_Spawn e name args <> None)
    by (intros (n & a & H & Hs); now rewrite <- (S2 _ _ H)).
  assert (C6 : (exists n a,
                  In (Spawn n a) (snd (TrzszMain_spawn e name args d))
                  /\ m_Spawn e n a <> None)
               -> fst (TrzszMain_spawn e name args d) = (-1)%Z).
  { intros H. apply S4 in H. unfold TrzszMain_spawn.
    destruct (m_Spawn e name args); [reflexivity | now contradiction H]. }
  assert (C7 : (forall n a,
                  ~ In (Spawn n a) (snd (TrzszMain_spawn e name args d)))
               -> fst (TrzszMain_spawn e name args d) = 0%Z)
    by (intros H; exfalso; exact (H name args S1)).
  rewrite S3. clear S1 S2 S3 S4.
  split; [|split; [|split; [|split; [|split; [|split;
    [exact C6 | exact C7]]]]]]; clear C6 C7; unfold TrzszMain_spawn;
    (destruct (m_Spawn e name args) as [er|];
     [|destruct (m_MakeRaw e) as [er|]]); cbn [fst snd].
  - split; [intros H; among H | discriminate].
  - split; [reflexivity | cbn; tauto].
  - split; [reflexivity | cbn; tauto].
  - split; [intros H; among H | intros [H _]; discriminate H].
  - split; [intros H; among H | intros [_ H]; discriminate H].
  - split; [now split | cbn; tauto].
  - split; [intros H; among H | intros [H _]; discriminate H].
  - split; [intros H; among H | intros [_ H]; discriminate H].
  - split; [now split | cbn; tauto].
  - discriminate.
  - discriminate.
  - intros _ _. split; [reflexivity|].
    now exists [Spawn name args; MainMakeRaw; GoWrapInput d; GoWrapOutput d;
                GoHandleSignal].
  - discriminate.
  - reflexivity.
  - intros _ H. now contradiction H.
Qed.

(** ** The sender's marker, seen by the wrapper *)

(** A run of digits is determined by what cannot continue it. *)
Lemma digit_run_unique (a b s t : bytes) :
  Forall (fun c => isDigit c = true) a ->
  Forall (fun c => isDigit c = true) b ->
  startsWith isDigit s = false -> startsWith isDigit t = false ->
  a ++ s = b ++ t -> a = b /\ s = t.
Proof.
  intros Ha. revert b. induction Ha as [|x a Hx Ha IH]; intros b Hb Hs Ht E.
  - destruct Hb as [|y b Hy Hb]; [now split|].
    cbn in E. subst s. cbn in Hs. congruence.
  - destruct Hb as [|y b Hy Hb].
    + cbn in E. subst t. cbn in Ht. congruence.
    + cbn in E. injection E as <- E.
      destruct (IH b Hb Hs Ht E) as [-> ->]. now split.
Qed.

(** An anchored search on a marker with a flag finds all of it. *)
Lemma match_here_trzsz_intro (m : byte) (d1 d2 d3 d4 rest : bytes) :
  isSR m = true -> digits d1 -> digits d2 -> digits d3 -> digits d4 ->
  startsWith isDigit rest = false ->
  let ver := d1 ++ "."%byte :: d2 ++ "."%byte :: d3 in
  let word := kMarker ++ m :: ":"%byte :: ver ++ ":"%byte :: d4 in
  Regexp.match_here trzszRegexp (word ++ rest)
  = Some ([Some word; Some [m]; Some ver; Some (":"%byte :: d4)], rest).
Proof.
  intros Hm D1 D2 D3 D4 Hr. cbv zeta.
  set (ver := d1 ++ "."%byte :: d2 ++ "."%byte :: d3).
  set (word := kMarker ++ m :: ":"%byte :: ver ++ ":"%byte :: d4).
  assert (W : Regexp.matches trzszRegexp word).
  { apply (@trzsz_word m d1 d2 d3 (":"%byte :: d4)); auto.
    right. now exists d4. }
  assert (P : Regexp.match_here trzszRegexp (word ++ rest) <> None).
  { apply match_here_iff. now exists word, rest. }
  destruct (Regexp.match_here trzszRegexp (word ++ rest))
    as [[cs rest']|] eqn:EM; [clear P | contradiction].
  pose proof EM as EM'.
  apply match_here_trzsz in EM'
    as (m' & e1 & e2 & e3 & flag & Es & Hm' & E1 & E2 & E3 & Hf & G & Gf & ->).
  cbv zeta in Es. unfold word, ver in Es.
  repeat rewrite <- app_assoc in Es. apply app_inv_head in Es.
  repeat first [rewrite <- app_assoc in Es | progress cbn [app] in Es].
  injection Es as <- Es.
  destruct D1 as [N1 F1], D2 as [N2 F2], D3 as [N3 F3], D4 as [N4 F4].
  destruct E1 as [M1 G1], E2 as [M2 G2], E3 as [M3 G3].
  apply digit_run_unique in Es as [<- Es]; auto.
  injection Es as Es.
  apply digit_run_unique in Es as [<- Es]; auto.
  injection Es as Es.
  assert (Hfl : startsWith isDigit (flag ++ rest') = false).
  { destruct Hf as [-> | (e4 & -> & _)]; [exact G | reflexivity]. }
  apply digit_run_unique in Es as [<- Es]; auto.
  destruct Hf as [-> | (e4 & -> & M4 & G4)].
  - cbn [app] in Es. subst rest'. exfalso.
    specialize (Gf eq_refl). destruct d4 as [|x d4]; [contradiction|].
    inversion F4; subst. cbn in Gf. congruence.
  - cbn [app] in Es. injection Es as Es.
    apply digit_run_unique in Es as [<- <-]; auto.
    f_equal. f_equal. f_equal.
    fold ver. fold word. now rewrite consumed_app.
Qed.

(** No match of the trigger pattern starts at a byte other than a colon. *)
Lemma match_here_not_colon (c : byte) (s : bytes) :
  c <> ":"%byte -> Regexp.match_here trzszRegexp (c :: s) = None.
Proof.
  intros Hc.
  destruct (Regexp.match_here trzszRegexp (c :: s)) as [w|] eqn:E;
    [|reflexivity].
  exfalso. unfold Regexp.match_here, trzszRegexp in E.
  apply run_lits_inv in E as (t & Es & _).
  change kMarker with (":"%byte :: bs ":TRZSZ:TRANSFER:") in Es.
  cbn [app] in Es. congruence.
Qed.

Lemma find_here r (s : bytes) cs rest :
  Regexp.match_here r s = Some (cs, rest) -> Regexp.find r s = Some (0, cs).
Proof.
  intros H. destruct s; cbn [Regexp.find]; now rewrite H.
Qed.

Lemma find_trzsz_skip (pre s : bytes) :
  ~ In ":"%byte pre ->
  Regexp.find trzszRegexp (pre ++ s)
  = match Regexp.find trzszRegexp s with
    | Some (i, cs) => Some (length pre + i, cs)
    | None => None
    end.
Proof.
  induction pre as [|c pre IH]; intros H.
  - cbn [app length plus]. now destruct (Regexp.find trzszRegexp s) as [[i cs]|].
  - cbn [app Regexp.find]. rewrite match_here_not_colon
      by (intros ->; apply H; now left).
    rewrite IH by (intros Hin; apply H; now right).
    now destruct (Regexp.find trzszRegexp s) as [[i cs]|].
Qed.

Lemma index_of_skip (pre s sep : bytes) (h : byte) :
  ~ In h pre ->
  GoBytes.index_of (pre ++ s) (h :: sep)
  = option_map (fun i => length pre + i) (GoBytes.index_of s (h :: sep)).
Proof.
  induction pre as [|c pre IH]; intros H.
  - cbn [app length plus]. now destruct (GoBytes.index_of s (h :: sep)).
  - cbn [app GoBytes.index_of GoBytes.HasPrefix].
    destruct (Byte.eqb h c) eqn:E;
      [apply byte_eqb_eq in E; subst; exfalso; apply H; now left|].
    cbn [andb]. rewrite IH by (intros Hin; apply H; now right).
    now destruct (GoBytes.index_of s (h :: sep)).
Qed.

Lemma bytes_eqb_refl (a : bytes) : bytes_eqb a a = true.
Proof. now apply bytes_eqb_eq. Qed.

(** A chunk that holds the sender's marker after bytes with neither a
    colon nor a capital T among them: the output pump echoes it with the
    marker's [TRZSZ] made [TRZSZGO] and starts a download session, with the
    platform hint off. *)
Lemma wrapOutput_iter_marker trimVT100 dragFile g (v d1 d2 d3 : bytes)
    (id : Z) (pre post : bytes) :
  v = d1 ++ "."%byte :: d2 ++ "."%byte :: d3 ->
  digits d1 -> digits d2 -> digits d3 ->
  (0 <= id < 10 ^ 13)%Z ->
  ~ In ":"%byte pre -> ~ In "T"%byte pre ->
  gTransfer g = None ->
  let tail := bs ":TRANSFER:S:" ++ v ++ bs ":" ++ fmt_0d 13 id
              ++ [x0d; x0a] ++ post in
  pre ++ trigger_marker v id ++ post
  = (pre ++ [kESC] ++ bs "7" ++ [x07] ++ bs "::") ++ bs "TRZSZ" ++ tail
  /\ wrapOutput_iter trimVT100 dragFile g
       (read_ok (pre ++ trigger_marker v id ++ post))
     = ([StdoutWrite ((pre ++ [kESC] ++ bs "7" ++ [x07] ++ bs "::")
                      ++ bs "TRZSZGO" ++ tail);
         Go (HandleTrzsz "S" false)], Continue).
Proof.
  intros -> D1 D2 D3 Hid Hc HT Ht. cbv zeta.
  destruct (fmt_0d_13 Hid) as (L & FD & _).
  set (ds := fmt_0d 13 id) in *.
  set (ver := d1 ++ "."%byte :: d2 ++ "."%byte :: d3).
  assert (E : pre ++ trigger_marker ver id ++ post
              = (pre ++ [kESC] ++ bs "7" ++ [x07] ++ bs "::") ++ bs "TRZSZ"
                ++ bs ":TRANSFER:S:" ++ ver ++ bs ":" ++ ds
                ++ [x0d; x0a] ++ post).
  { unfold trigger_marker. fold ds. cbn [bs list_byte_of_string app].
    repeat first [rewrite <- app_assoc | progress cbn [app]]. reflexivity. }
  split; [exact E|].
  assert (D4 : digits ds).
  { split; [|exact FD]. intros N. rewrite N in L. discriminate L. }
  assert (Ew : pre ++ trigger_marker ver id ++ post
               = (pre ++ [kESC] ++ bs "7" ++ [x07])
                 ++ (kMarker ++ "S"%byte :: ":"%byte :: ver ++ ":"%byte :: ds)
                 ++ [x0d; x0a] ++ post).
  { rewrite E. unfold kMarker. cbn [bs list_byte_of_string app].
    repeat first [rewrite <- app_assoc | progress cbn [app]]. reflexivity. }
  assert (EF : Regexp.find trzszRegexp (pre ++ trigger_marker ver id ++ post)
               = Some (length (pre ++ [kESC] ++ bs "7" ++ [x07]) + 0,
                       [Some (kMarker ++ "S"%byte :: ":"%byte :: ver
                              ++ ":"%byte :: ds);
                        Some ["S"%byte]; Some ver; Some (":"%byte :: ds)])).
  { rewrite Ew. rewrite find_trzsz_skip.
    - pose proof (@match_here_trzsz_intro "S" d1 d2 d3 ds ([x0d; x0a] ++ post)
                    eq_refl D1 D2 D3 D4 eq_refl) as M.
      cbv zeta in M. fold ver in M.
      now rewrite (find_here _ _ M).
    - rewrite !in_app_iff. cbn. intuition discriminate. }
  assert (HC : GoBytes.Contains (pre ++ trigger_marker ver id ++ post) kMarker
               = true).
  { rewrite Ew, <- (app_assoc kMarker). apply Contains_app. }
  pose proof (detectTrzsz_found _ HC EF) as HD.
  assert (Hint : bytes_eqb (string_of (Some (":"%byte :: ds))) (bs ":1")
                 = false).
  { destruct ds as [|a [|b t]]; [discriminate L | discriminate L |].
    cbn. now rewrite andb_false_r. }
  rewrite Hint in HD.
  unfold wrapOutput_iter, read_ok. cbn [err data].
  destruct (pre ++ trigger_marker ver id ++ post) as [|c0 t0] eqn:Eo.
  { exfalso. symmetry in E. apply app_eq_nil in E as [_ E].
    discriminate E. }
  rewrite Ht, HD. f_equal. f_equal. f_equal.
  rewrite E.
  rewrite (@Replace_first _ (bs "TRZSZ") (bs "TRZSZGO")
             (length (pre ++ [kESC] ++ bs "7" ++ [x07] ++ bs "::") + 0)).
  - rewrite Nat.add_0_r, firstn_app_exact.
    rewrite Nat.add_comm, <- skipn_skipn, skipn_app_exact.
    now rewrite skipn_app_exact.
  - change (bs "TRZSZ") with ("T"%byte :: bs "RZSZ").
    rewrite index_of_skip
      by (rewrite !in_app_iff; cbn; intuition discriminate).
    reflexivity.
Qed.

Lemma stdout_bytes_app (a b : list sevent) :
  stdout_bytes (a ++ b) = stdout_bytes a ++ stdout_bytes b.
Proof.
  induction a as [|ev a IH]; [reflexivity|].
  destruct ev; cbn [app stdout_bytes]; rewrite IH; try reflexivity.
  now rewrite app_assoc.
Qed.

Lemma stdout_bytes_sendFiles (p : peer) files args tmuxMode width :
  stdout_bytes (snd (sendFiles p files args tmuxMode width)) = [].
Proof.
  unfold sendFiles.
  destruct (recvAction p) as [er|act]; [reflexivity|].
  destruct (negb (Confirm act)); [reflexivity|].
  destruct (Directory _ && negb (SupportDirectory act)); [reflexivity|].
  destruct (sendConfig p _); [reflexivity|].
  destruct (sendFilesResult p); [reflexivity|].
  now destruct (recvExit p).
Qed.

Lemma not_In_forallb (c : byte) (l : bytes) :
  forallb (fun x => negb (Byte.eqb c x)) l = true -> ~ In c l.
Proof.
  intros H Hin. rewrite forallb_forall in H. specialize (H c Hin).
  now rewrite byte_eqb_refl in H.
Qed.

(** What the sender writes to its stdout: the marker, after notices and
    control sequences that hold neither a colon nor a capital T. *)
Lemma stdout_bytes_TszMain v (e : senv) files tmuxMode realStdout width :
  reaches_marker e files tmuxMode realStdout width ->
  exists pre,
    stdout_bytes (snd (TszMain v e))
    = pre ++ trigger_marker v (uniqueID e tmuxMode) ++ []
    /\ ~ In ":"%byte pre /\ ~ In "T"%byte pre.
Proof.
  intros Hr. rewrite (TszMain_reaches v Hr). unfold TszMain_from_tmux.
  destruct (downgrade_binary e tmuxMode (argv e)) as [args' notices] eqn:ED.
  exists (stdout_bytes notices ++ stdout_bytes (prepare_terminal e tmuxMode)).
  split.
  - destruct (makeRaw e) as [er|].
    + cbn [snd]. rewrite !stdout_bytes_app. cbn [stdout_bytes].
      unfold deferred_reset. destruct (_ && _); cbn [stdout_bytes];
        now rewrite !app_nil_r, <- !app_assoc.
    + destruct (sendFiles _ _ _ _ _) as [[res a'] evs] eqn:ES.
      cbn [snd]. rewrite !stdout_bytes_app. cbn [stdout_bytes].
      replace evs with (snd (sendFiles (thePeer e) files args' tmuxMode width))
        by now rewrite ES.
      rewrite stdout_bytes_sendFiles.
      replace (stdout_bytes match res with
                            | Some er => [ServerError er]
                            | None => []
                            end) with (@nil byte) by now destruct res.
      unfold deferred_reset. destruct (_ && _); cbn [stdout_bytes app];
        now rewrite !app_nil_r, <- !app_assoc.
  - assert (N : notices = snd (downgrade_binary e tmuxMode (argv e)))
      by now rewrite ED.
    rewrite N. clear. unfold downgrade_binary, prepare_terminal.
    destruct (Binary (base (argv e)) && tmuxMode_eqb tmuxMode tmuxControlMode);
      cbn [setBinary base set_Binary Binary andb];
      destruct (Binary (base (argv e)) && isRunningOnWindows e);
      (destruct (isRunningOnWindows e);
       [|destruct (tmuxMode_eqb tmuxMode tmuxNormalMode);
         [destruct (_ && _)|]]);
      split; apply not_In_forallb; reflexivity.
Qed.

(** What [tsz] prints starts a download in the wrapper.  For a version
    number of three dotted runs of digits and a clock at or after the
    epoch, everything a run of the sender that gets past its checks writes
    to its stdout, read by the output pump as one chunk while no session is
    current, is echoed with the marker's [TRZSZ] made [TRZSZGO] and starts
    [handleTrzsz] in mode 'S'.  The platform hint is off whatever the
    platform of the sender, Windows included: the field after the version
    is the thirteen-digit id, never ":1". *)
Theorem sender_marker_starts_download trimVT100 dragFile g
    (v d1 d2 d3 : bytes) (e : senv) files tmuxMode realStdout width :
  reaches_marker e files tmuxMode realStdout width ->
  v = d1 ++ "."%byte :: d2 ++ "."%byte :: d3 ->
  digits d1 -> digits d2 -> digits d3 ->
  (0 <= nowUnixMilli e)%Z ->
  gTransfer g = None ->
  exists pre rest,
    stdout_bytes (snd (TszMain v e)) = pre ++ bs "TRZSZ" ++ rest
    /\ wrapOutput_iter trimVT100 dragFile g
         (read_ok (stdout_bytes (snd (TszMain v e))))
       = ([StdoutWrite (pre ++ bs "TRZSZGO" ++ rest);
           Go (HandleTrzsz "S" false)], Continue).
Proof.
  intros Hr Ev D1 D2 D3 Hnow Ht.
  destruct (stdout_bytes_TszMain v Hr) as (pre & -> & Hc & HT).
  destruct (uniqueID_value e tmuxMode) as (_ & B & Hpos).
  destruct (Hpos Hnow) as [_ H0].
  assert (Hid : (0 <= uniqueID e tmuxMode < 10 ^ 13)%Z) by lia.
  destruct (@wrapOutput_iter_marker trimVT100 dragFile g v d1 d2 d3
              (uniqueID e tmuxMode) pre [] Ev D1 D2 D3 Hid Hc HT Ht)
    as [E1 E2].
  cbv zeta in E1, E2. eexists. eexists. split; [exact E1 | exact E2].
Qed.

Lemma sender_marker_starts_download_witness :
  let e := demo_env true false true tmuxNormalMode [demo_file "a.txt"]
                    (demo_peer true true) 1700000000123%Z in
  exists pre rest,
    stdout_bytes (snd (TszMain (bs "1.1.3") e)) = pre ++ bs "TRZSZ" ++ rest
    /\ wrapOutput_iter (fun b => b) false idle
         (read_ok (stdout_bytes (snd (TszMain (bs "1.1.3") e))))
       = ([StdoutWrite (pre ++ bs "TRZSZGO" ++ rest);
           Go (HandleTrzsz "S" false)], Continue).
Proof.
  cbv zeta.
  refine (@sender_marker_starts_download (fun b => b) false idle
            (bs "1.1.3") (bs "1") (bs "1") (bs "3") _ [demo_file "a.txt"]
            tmuxNormalMode 1 80%Z _ eq_refl _ _ _ _ eq_refl).
  - split; [reflexivity | split; [discriminate | reflexivity]].
  - split; [discriminate | repeat constructor].
  - split; [discriminate | repeat constructor].
  - split; [discriminate | repeat constructor].
  - discriminate.
Defined.

(** ** The end of a session on the sender's side *)

Lemma sendFiles_report (p : peer) files args tmuxMode width :
  let evs := snd (sendFiles p files args tmuxMode width)
             ++ match fst (fst (sendFiles p files args tmuxMode width)) with
                | Some er => [ServerError er]
                | None => []
                end in
  evs <> []
  /\ is_report (last evs RecvAction) = true
  /\ forallb (fun ev => negb (is_report ev)) (removelast evs) = true.
Proof.
  cbv zeta. unfold sendFiles.
  destruct (recvAction p) as [er|act]; [now repeat split|].
  destruct (negb (Confirm act)); [now repeat split|].
  destruct (Directory _ && negb (SupportDirectory act)); [now repeat split|].
  destruct (sendConfig p _); [now repeat split|].
  destruct (sendFilesResult p); [now repeat split|].
  destruct (recvExit p); now repeat split.
Qed.

Lemma no_report_before_raw (e : senv) tmuxMode args :
  forallb (fun ev => negb (is_report ev))
          (snd (downgrade_binary e tmuxMode args)
           ++ prepare_terminal e tmuxMode) = true.
Proof.
  unfold downgrade_binary, prepare_terminal.
  destruct (Binary (base args) && tmuxMode_eqb tmuxMode tmuxControlMode);
    cbn [setBinary base set_Binary Binary andb];
    destruct (Binary (base args) && isRunningOnWindows e);
    (destruct (isRunningOnWindows e);
     [|destruct (tmuxMode_eqb tmuxMode tmuxNormalMode);
       [destruct (_ && _)|]]);
    reflexivity.
Qed.

(** The peer is always told how the session ended.  A run of the sender
    that gets past its checks and enters raw mode reports to the peer
    exactly once, with [serverExit] or [serverError], whatever the peer
    answered and wherever the exchange failed; the report is its last call
    on the engine, and the terminal is restored right after it. *)
Theorem TszMain_session_reported v (e : senv) files tmuxMode realStdout width :
  reaches_marker e files tmuxMode realStdout width ->
  makeRaw e = None ->
  exists before report,
    snd (TszMain v e)
    = before ++ report :: TermRestore :: deferred_reset e
    /\ is_report report = true
    /\ forallb (fun ev => negb (is_report ev)) before = true
    /\ In MakeRaw before.
Proof.
  intros Hr Hraw. rewrite (TszMain_reaches v Hr). unfold TszMain_from_tmux.
  pose proof (no_report_before_raw e tmuxMode (argv e)) as NB.
  destruct (downgrade_binary e tmuxMode (argv e)) as [args' notices].
  cbn [snd] in NB. rewrite Hraw.
  pose proof (sendFiles_report (thePeer e) files args' tmuxMode width) as SR.
  destruct (sendFiles _ _ _ _ _) as [[res a'] evs].
  cbv zeta in SR. cbn [fst snd] in SR.
  set (L := evs ++ match res with
                   | Some er => [ServerError er]
                   | None => []
                   end) in *.
  destruct SR as (NE & R & B).
  pose proof (app_removelast_last RecvAction NE) as EL.
  remember (removelast L) as rl eqn:Erl.
  remember (last L RecvAction) as ll eqn:Ell.
  assert (EG : forall X, evs ++ match res with
                                | Some er => [ServerError er]
                                | None => []
                                end ++ X = rl ++ ll :: X).
  { intros X. rewrite app_assoc. fold L. rewrite EL, <- app_assoc.
    reflexivity. }
  exists ((notices ++ prepare_terminal e tmuxMode)
          ++ [OutWrite (trigger_marker v (uniqueID e tmuxMode)); OutSync;
              MakeRaw; NewTransfer realStdout; GoWrapStdinInput;
              HandleServerSignal]
          ++ rl), ll.
  split; [|split; [exact R | split]].
  - cbn [snd].
    repeat first [rewrite <- app_assoc | progress cbn [app]].
    now rewrite EG.
  - rewrite forallb_app in NB. rewrite !forallb_app, NB, B. reflexivity.
  - rewrite !in_app_iff. right. left. cbn. tauto.
Qed.

Lemma TszMain_session_reported_witness :
  let e := demo_env false false false noTmuxMode [demo_file "a.txt"]
                    (demo_peer false true) 1700000000123%Z in
  exists before report,
    snd (TszMain (bs "1.1.3") e)
    = before ++ report :: TermRestore :: deferred_reset e
    /\ is_report report = true.
Proof.
  cbv zeta.
  destruct (@TszMain_session_reported (bs "1.1.3")
              (demo_env false false false noTmuxMode [demo_file "a.txt"]
                 (demo_peer false true) 1700000000123%Z)
              [demo_file "a.txt"] noTmuxMode 1 80%Z)
    as (before & report & H1 & H2 & _).
  - split; [reflexivity | split; [discriminate | reflexivity]].
  - reflexivity.
  - exists before, report. now split.
Defined.

(** ** The output pump over a run of reads *)

Lemma detectTrzsz_Done (output : bytes) :
  detectTrzsz output <> Panicked.
Proof.
  destruct (Regexp.find trzszRegexp output) as [[i cs]|] eqn:EF.
  - pose proof (find_Some _ _ EF) as (_ & (rest & HM) & _).
    apply match_here_trzsz in HM
      as (m & d1 & d2 & d3 & flag & _ & _ & _ & _ & _ & _ & _ & _ & ->).
    unfold detectTrzsz, Regexp.FindSubmatch. rewrite EF.
    now destruct (negb (GoBytes.Contains output kMarker)).
  - now rewrite (detectTrzsz_not_found _ EF).
Qed.

(** A pass of the output pump that does not find the end of the child's
    output goes on to the next one, without closing the terminal. *)
Lemma wrapOutput_iter_goes_on trimVT100 dragFile g r :
  err r <> Some EOF ->
  exists evs,
    wrapOutput_iter trimVT100 dragFile g r = (evs, Continue)
    /\ ~ In StdoutClose evs.
Proof.
  intros He. unfold wrapOutput_iter.
  destruct (err r) as [[|]|]; [contradiction | |].
  - exists []. split; [now destruct (data r) | intros []].
  - destruct (data r) as [|c d]; [exists []; split; [reflexivity | intros []]|].
    destruct (gTransfer g);
      [eexists; split; [reflexivity | cbn; intuition discriminate]|].
    pose proof (detectTrzsz_Done (c :: d)) as ND.
    destruct (detectTrzsz (c :: d)) as [[[m|] h]|]; [| |contradiction].
    + eexists; split; [reflexivity | cbn; intuition discriminate].
    + destruct (gInterrupting g);
        [exists []; split; [reflexivity | intros []]|].
      destruct (gDragFiles g);
        [destruct (negb dragFile);
         [|destruct (bytes_eqb _ (bs "trz"));
           [|destruct (_ || _)]]|];
        eexists; (split; [reflexivity | cbn; intuition discriminate]).
Qed.

(** The output pump ends with the child's output, and only then.  The
    pump never panics and leaves its loop for no other reason than the end
    of the child's output: every read before it is served, whatever is
    current, and at the end of the output the pump closes the local
    terminal's stdout, once and as its last act. *)
Theorem wrapOutput_end_of_output trimVT100 dragFile
    (before after : list (globals * read_result)) g r :
  Forall (fun gr => err (snd gr) <> Some EOF) before ->
  err r = Some EOF ->
  wrapOutput trimVT100 dragFile (before ++ (g, r) :: after)
  = wrapOutput trimVT100 dragFile before ++ [StdoutClose]
  /\ ~ In StdoutClose (wrapOutput trimVT100 dragFile before)
  /\ forall rest,
       wrapOutput trimVT100 dragFile (before ++ rest)
       = wrapOutput trimVT100 dragFile before
         ++ wrapOutput trimVT100 dragFile rest.
Proof.
  intros Hb He.
  assert (A : forall rest,
             wrapOutput trimVT100 dragFile (before ++ rest)
             = wrapOutput trimVT100 dragFile before
               ++ wrapOutput trimVT100 dragFile rest
             /\ ~ In StdoutClose (wrapOutput trimVT100 dragFile before)).
  { intros rest. induction Hb as [|[g0 r0] before H _ [IH1 IH2]];
      [split; [reflexivity | intros []]|].
    cbn [app wrapOutput].
    destruct (@wrapOutput_iter_goes_on trimVT100 dragFile g0 r0 H)
      as (evs & -> & N).
    rewrite IH1. split; [now rewrite app_assoc|].
    rewrite in_app_iff. tauto. }
  destruct (A ((g, r) :: after)) as [-> N].
  split; [|split; [exact N | intros rest; apply A]].
  f_equal. cbn [wrapOutput]. unfold wrapOutput_iter. now rewrite He.
Qed.

Lemma wrapOutput_end_of_output_witness :
  let eof := {| data := []; err := Some EOF |} in
  wrapOutput (fun b => b) false
    ([(idle, read_ok (bs "bye"))] ++ (idle, eof) :: [(idle, read_ok (bs "x"))])
  = [StdoutWrite (bs "bye"); StdoutClose].
Proof.
  cbv zeta.
  refine (proj1 (@wrapOutput_end_of_output (fun b => b) false
                   [(idle, read_ok (bs "bye"))] [(idle, read_ok (bs "x"))]
                   idle _ _ _)).
  - repeat constructor; discriminate.
  - reflexivity.
Defined.

(** ** The sender's exchange *)

(** Sending is guarded on the sender's side.  Whenever [sendFiles] of
    tsz.go sends the configuration, the peer has confirmed and supports
    directories if one is to be sent; the configuration holds the arguments
    as the function leaves them, no escape characters, and the multiplexer
    mode and pane width it was given.  Whenever it calls the engine's
    [sendFiles], moreover, the files passed are those it was given and the
    configuration was accepted.  Whenever it calls [serverExit], the
    message is "Cancelled" after a refusal, and otherwise the message the
    peer sent once the files had gone through. *)
Theorem sendFiles_guarded (p : peer) files (args : tszArgs) tmuxMode width :
  let evs := snd (sendFiles p files args tmuxMode width) in
  let args' := snd (fst (sendFiles p files args tmuxMode width)) in
  let ready act :=
    recvAction p = inr act /\ Confirm act = true
    /\ (Directory (base args) = true -> SupportDirectory act = true) in
  (forall a act esc tm w, In (SendConfig a act esc tm w) evs ->
     ready act /\ a = base args' /\ esc = [] /\ tm = tmuxMode /\ w = width)
  /\ (forall fs, In (SendFiles fs) evs ->
        fs = files
        /\ exists act, ready act /\ sendConfig p (base args') = None)
  /\ (forall msg, In (ServerExit msg) evs ->
        exists act,
          recvAction p = inr act
          /\ ((Confirm act = false /\ msg = bs "Cancelled")
              \/ (Confirm act = true /\ recvExit p = inr msg
                  /\ exists names, sendFilesResult p = inr names))).
Proof.
  cbv zeta. unfold sendFiles.
  destruct (recvAction p) as [er|act];
    [repeat split; intros; among H|].
  destruct (Confirm act) eqn:EC; cbn [negb].
  2: { split; [|split]; intros; among H.
       injection H as <-. exists act. split; [reflexivity|]. now left. }
  assert (ED : Directory
                 (base (if Binary (base args) && negb (SupportBinary act)
                        then setBinary false args else args))
               = Directory (base args))
    by now destruct (_ && _).
  rewrite ED.
  destruct (Directory (base args) && negb (SupportDirectory act)) eqn:EDir;
    [split; [|split]; intros; among H|].
  assert (HD : Directory (base args) = true -> SupportDirectory act = true).
  { intros Hd. rewrite Hd in EDir. cbn in EDir.
    now destruct (SupportDirectory act). }
  destruct (sendConfig p _) as [er|] eqn:ES;
    [|destruct (sendFilesResult p) as [er|names] eqn:EF;
      [|destruct (recvExit p) as [er|msg'] eqn:EX]];
    cbn [fst snd];
    (split;
     [ intros a act' esc tm w H; among H; injection H as <- <- <- <- <-;
       now repeat split
     | split;
       [ intros fs H; among H; injection H as <-;
         (split; [reflexivity|]); exists act; now repeat split
       | intros msg H; among H; injection H as <-; exists act;
         (split; [reflexivity|]); right;
         (split; [exact EC|]); (split; [reflexivity|]); now exists names ]]).
Qed.

Lemma sendFiles_no_terminal_call (p : peer) files args tmuxMode width :
  filter is_terminal_call (snd (sendFiles p files args tmuxMode width)) = [].
Proof.
  unfold sendFiles.
  destruct (recvAction p) as [er|act]; [reflexivity|].
  destruct (negb (Confirm act)); [reflexivity|].
  destruct (Directory _ && negb (SupportDirectory act)); [reflexivity|].
  destruct (sendConfig p _); [reflexivity|].
  destruct (sendFilesResult p); [reflexivity|].
  now destruct (recvExit p).
Qed.

Lemma terminal_calls_before_raw (e : senv) tmuxMode args :
  filter is_terminal_call
         (snd (downgrade_binary e tmuxMode args) ++ prepare_terminal e tmuxMode)
  = if isRunningOnWindows e then [EnableVirtualTerminal; SetupConsoleOutput]
    else [].
Proof.
  unfold downgrade_binary, prepare_terminal.
  destruct (Binary (base args) && tmuxMode_eqb tmuxMode tmuxControlMode);
    cbn [setBinary base set_Binary Binary andb];
    destruct (Binary (base args) && isRunningOnWindows e);
    (destruct (isRunningOnWindows e);
     [|destruct (tmuxMode_eqb tmuxMode tmuxNormalMode);
       [destruct (_ && _)|]]);
    reflexivity.
Qed.

(** The sender puts the terminal back as it found it.  A run that gets
    past its checks makes these calls on the terminal and no others, in this
    order: on Windows [enableVirtualTerminal] and [setupConsoleOutput];
    [term.MakeRaw]; [term.Restore] exactly when raw mode was entered; and
    last, on Windows, [resetVirtualTerminal] exactly when enabling had
    succeeded.  So what was set up is undone on every path, in the reverse
    order, whether the transfer goes through or not. *)
Theorem TszMain_terminal_calls v (e : senv) files tmuxMode realStdout width :
  reaches_marker e files tmuxMode realStdout width ->
  filter is_terminal_call (snd (TszMain v e))
  = (if isRunningOnWindows e
     then [EnableVirtualTerminal; SetupConsoleOutput] else [])
    ++ [MakeRaw]
    ++ match makeRaw e with
       | None => [TermRestore]
       | Some _ => []
       end
    ++ (if isRunningOnWindows e && enableVirtualTerminal e
        then [ResetVirtualTerminal] else []).
Proof.
  intros Hr. rewrite (TszMain_reaches v Hr). unfold TszMain_from_tmux.
  pose proof (terminal_calls_before_raw e tmuxMode (argv e)) as TB.
  destruct (downgrade_binary e tmuxMode (argv e)) as [args' notices].
  cbn [snd] in TB.
  assert (TR : filter is_terminal_call (deferred_reset e)
               = if isRunningOnWindows e && enableVirtualTerminal e
                 then [ResetVirtualTerminal] else [])
    by (unfold deferred_reset; now destruct (_ && _)).
  rewrite (app_assoc notices (prepare_terminal e tmuxMode)).
  set (NP := notices ++ prepare_terminal e tmuxMode) in *.
  destruct (makeRaw e) as [er|].
  - cbn [snd]. rewrite !filter_app, TB, TR. cbn [filter is_terminal_call].
    now rewrite <- app_assoc.
  - pose proof (sendFiles_no_terminal_call (thePeer e) files args' tmuxMode
                  width) as TS.
    destruct (sendFiles _ _ _ _ _) as [[res a'] evs]. cbn [snd] in TS |- *.
    rewrite !filter_app, TB, TS, TR. cbn [filter is_terminal_call].
    destruct res; cbn [filter is_terminal_call app];
      now rewrite <- app_assoc.
Qed.

Lemma TszMain_terminal_calls_witness :
  let e := demo_env false false true noTmuxMode [demo_file "a.txt"]
                    (demo_peer true true) 1700000000123%Z in
  filter is_terminal_call (snd (TszMain (bs "1.1.3") e))
  = [EnableVirtualTerminal; SetupConsoleOutput; MakeRaw; TermRestore;
     ResetVirtualTerminal].
Proof.
  cbv zeta.
  refine (@TszMain_terminal_calls (bs "1.1.3") _ [demo_file "a.txt"]
            noTmuxMode 1 80%Z _).
  split; [reflexivity | split; [discriminate | reflexivity]].
Defined.
